(** * Shade JIT emitter (src/emitter.cpp): a shallow embedding

    The emitter writes the machine code of one function at a time into a
    malloc'ed buffer, remembers where blocks, labels, constants and jump
    tables went, and later resolves every recorded relocation.

    Conventions of the embedding:
    - a pointer ([void*], [uint8_t*]) and a [uintptr_t]/[size_t] value is a
      [Z]; arithmetic on [unsigned] wraps at 32 bits and arithmetic on
      [uintptr_t] at the pointer width, written out with [wrap];
    - [DenseMap]/[ValueMap] members are [gmap]s keyed by the identity
      (the address) of the LLVM object, [std::vector] members are lists;
    - a call that does not return normally ([report_fatal_error], [abort],
      a failed [assert], [llvm_unreachable], an index outside a vector)
      is a [Fatal] result; asserts are modelled as compiled in;
    - what the external allocator returns is read from a list carried by
      the state, and calls into the target's patcher and the disassembler
      are appended to a trace. *)

From Stdlib Require Import ZArith List String Bool Lia.
From stdpp Require Import base option list gmap.
Import ListNotations.

Local Open Scope Z_scope.

(** ** Results of fallible code *)

Inductive failure : Type :=
| ReportFatalError (msg : string)
| Abort
| AssertionFailed (msg : string)
| Unreachable (msg : string)
| OutOfBounds (what : string)
| DanglingPointer (what : string).

Inductive result (A : Type) : Type :=
| Ok (a : A)
| Fatal (f : failure)
| OutOfFuel.

Arguments Ok {A} a.
Arguments Fatal {A} f.
Arguments OutOfFuel {A}.

#[global] Instance result_ret : MRet result := fun A a => Ok a.

#[global] Instance result_bind : MBind result := fun A B k r =>
  match r with
  | Ok a => k a
  | Fatal f => Fatal f
  | OutOfFuel => OutOfFuel
  end.

Definition is_Ok {A : Type} (r : result A) : bool :=
  match r with Ok _ => true | _ => false end.

(** ** Machine integers *)

Definition wrap (bits x : Z) : Z := x mod 2 ^ bits.

(** [unsigned] arithmetic. *)
Definition u32 (x : Z) : Z := wrap 32 x.

(** [~x] on an [unsigned]. *)
Definition not32 (x : Z) : Z := u32 (Z.lnot x).

(** llvm/Support/MathExtras.h, on [uint64_t]:
    [((Value + Align - 1) / Align) * Align]. *)
Definition RoundUpToAlignment (Value Align : Z) : Z :=
  wrap 64 (wrap 64 (Value + Align - 1) / Align * Align).

(** ** The LLVM objects the emitter reads *)

(** Identity of an LLVM object (a [Function*], [GlobalValue*],
    [MCSymbol*]): its address. *)
Definition ident : Type := positive.

(** Modelled from the spec: the engine is not under src/ (section 4.3: the
    external initializer fills the region from the declared initial value,
    and an initializer may reference a global's address, which makes
    re-entrant lookups during initialization). An initializer is given by
    what [engine.InitializeMemory(Init, Dest)] does with it, as seen from the
    emitter: it stores bytes relative to [Dest] and may ask the emitter for
    the address of a global the initializer mentions. *)
Inductive Initializer : Type :=
| InitDone
| InitStore (off : nat) (byte : Z) (k : Initializer)
| InitAddressOf (V : ident) (k : Z -> Initializer).

Record GlobalVariable : Type := {
  isDeclaration : bool;
  hasAvailableExternallyLinkage : bool;
  isThreadLocal : bool;
  TypeAllocSize : Z;         (* TD.getTypeAllocSize(V->getType()->getElementType()) *)
  PreferredAlignment : Z;    (* TD.getPreferredAlignment(V) *)
  getInitializer : Initializer
}.

Inductive GlobalValue : Type :=
| GV_Variable (GV : GlobalVariable)
| GV_Alias (aliasee : ident)      (* GA->resolveAliasedGlobal(false) *)
| GV_Function.

Record MachineConstantPoolEntry : Type := {
  getAlignment : Z;
  isMachineConstantPoolEntry : bool;
  getTypeAllocSize : Z       (* TD.getTypeAllocSize(CPE.getType()) *)
}.

Record MachineConstantPool : Type := {
  getConstants : list MachineConstantPoolEntry;
  getConstantPoolAlignment : Z
}.

Inductive JTEntryKind : Type :=
| EK_BlockAddress
| EK_GPRel64BlockAddress
| EK_GPRel32BlockAddress
| EK_LabelDifference32
| EK_Inline
| EK_Custom32.

(** A jump table is the list of the numbers of its target blocks
    ([MachineJumpTableEntry::MBBs]). *)
Record MachineJumpTableInfo : Type := {
  getEntryKind : JTEntryKind;
  getJumpTables : list (list nat);
  getEntrySize : Z;          (* MJTI->getEntrySize(TD) *)
  getEntryAlignment : Z      (* MJTI->getEntryAlignment(TD) *)
}.

Record MachineFunction : Type := {
  getFunction : ident;
  getFunctionAlignment : Z;  (* F.getFunction()->getAlignment() *)
  getConstantPool : MachineConstantPool;
  getJumpTableInfo : option MachineJumpTableInfo
}.

(** [MachineRelocation]: what the relocation refers to, and after
    [setResultPointer] the resolved pointer. *)
Inductive RelocationTarget : Type :=
| isExternalSymbol (name : string)
| isGlobalValue (GV : ident)
| isIndirectSymbol (GV : ident)
| isBasicBlock (MBB : nat)
| isConstantPoolIndex (idx : nat)
| isJumpTableIndex (idx : nat)
| isGOTIndex (idx : nat)
| isResult (ptr : Z).

Record MachineRelocation : Type := {
  getMachineCodeOffset : Z;
  letTargetResolve : bool;
  mayNeedFarStub : bool;
  getTarget : RelocationTarget
}.

Definition setResultPointer (MR : MachineRelocation) (ptr : Z) : MachineRelocation :=
  {| getMachineCodeOffset := getMachineCodeOffset MR;
     letTargetResolve := letTargetResolve MR;
     mayNeedFarStub := mayNeedFarStub MR;
     getTarget := isResult ptr |}.

(** ** The collaborators *)

Record Engine : Type := {
  (* the globals of the unit being compiled, by identity *)
  TheModule : ident -> GlobalValue;
  getPointerToNamedFunction : string -> bool -> Z
}.

Record TargetMachine : Type := {
  PointerSizeInBits : Z;     (* width of uintptr_t and of void* *)
  hasCustomJumpTables : bool;
  getPICJumpTableEntry : Z -> Z -> Z
}.

(** Calls that leave the emitter, in program order. *)
Inductive Effect : Type :=
| Store (addr : Z) (val : Z)
| Relocate (FunctionBody : Z) (MRs : list MachineRelocation)
| Disassemble (Code : Z) (Size : Z).

(** ** The emitter state *)

Record EmittedCode : Type := {
  Function_ : option ident;
  FunctionBody : Z;
  Code : Z;
  Size : Z;
  Relocations : list MachineRelocation
}.

(** A value-initialised [EmittedCode], as [EmittedFunctions[F]] creates. *)
Definition EmittedCode_default : EmittedCode :=
  {| Function_ := None; FunctionBody := 0; Code := 0; Size := 0; Relocations := [] |}.

Record Emitter : Type := {
  engine : Engine;
  TM : TargetMachine;
  SizeEstimate : Z;
  BufferBegin : Z;
  BufferEnd : Z;
  CurBufferPtr : Z;
  MBBLocations : list Z;
  LabelLocations : gmap ident Z;
  Globals : list Z;
  GlobalOffsets : gmap ident Z;
  EmittedFunctions : gmap ident EmittedCode;
  CurrentCode : option ident;      (* points into EmittedFunctions *)
  ConstPoolAddresses : list Z;
  ConstantPoolBase : Z;
  ConstantPool : option MachineConstantPool;
  JumpTable : option MachineJumpTableInfo;
  JumpTableBase : Z;
  Heap : list Z;                   (* what the next std::malloc calls return *)
  Effects : list Effect
}.

(** Assignment to one member. *)

Definition set_SizeEstimate (v : Z) (s : Emitter) : Emitter :=
  {| engine := engine s; TM := TM s; SizeEstimate := v; BufferBegin := BufferBegin s;
     BufferEnd := BufferEnd s; CurBufferPtr := CurBufferPtr s;
     MBBLocations := MBBLocations s; LabelLocations := LabelLocations s;
     Globals := Globals s; GlobalOffsets := GlobalOffsets s;
     EmittedFunctions := EmittedFunctions s; CurrentCode := CurrentCode s;
     ConstPoolAddresses := ConstPoolAddresses s;
     ConstantPoolBase := ConstantPoolBase s; ConstantPool := ConstantPool s;
     JumpTable := JumpTable s; JumpTableBase := JumpTableBase s; Heap := Heap s;
     Effects := Effects s |}.

Definition set_BufferBegin (v : Z) (s : Emitter) : Emitter :=
  {| engine := engine s; TM := TM s; SizeEstimate := SizeEstimate s;
     BufferBegin := v; BufferEnd := BufferEnd s; CurBufferPtr := CurBufferPtr s;
     MBBLocations := MBBLocations s; LabelLocations := LabelLocations s;
     Globals := Globals s; GlobalOffsets := GlobalOffsets s;
     EmittedFunctions := EmittedFunctions s; CurrentCode := CurrentCode s;
     ConstPoolAddresses := ConstPoolAddresses s;
     ConstantPoolBase := ConstantPoolBase s; ConstantPool := ConstantPool s;
     JumpTable := JumpTable s; JumpTableBase := JumpTableBase s; Heap := Heap s;
     Effects := Effects s |}.

Definition set_BufferEnd (v : Z) (s : Emitter) : Emitter :=
  {| engine := engine s; TM := TM s; SizeEstimate := SizeEstimate s;
     BufferBegin := BufferBegin s; BufferEnd := v; CurBufferPtr := CurBufferPtr s;
     MBBLocations := MBBLocations s; LabelLocations := LabelLocations s;
     Globals := Globals s; GlobalOffsets := GlobalOffsets s;
     EmittedFunctions := EmittedFunctions s; CurrentCode := CurrentCode s;
     ConstPoolAddresses := ConstPoolAddresses s;
     ConstantPoolBase := ConstantPoolBase s; ConstantPool := ConstantPool s;
     JumpTable := JumpTable s; JumpTableBase := JumpTableBase s; Heap := Heap s;
     Effects := Effects s |}.

Definition set_CurBufferPtr (v : Z) (s : Emitter) : Emitter :=
  {| engine := engine s; TM := TM s; SizeEstimate := SizeEstimate s;
     BufferBegin := BufferBegin s; BufferEnd := BufferEnd s; CurBufferPtr := v;
     MBBLocations := MBBLocations s; LabelLocations := LabelLocations s;
     Globals := Globals s; GlobalOffsets := GlobalOffsets s;
     EmittedFunctions := EmittedFunctions s; CurrentCode := CurrentCode s;
     ConstPoolAddresses := ConstPoolAddresses s;
     ConstantPoolBase := ConstantPoolBase s; ConstantPool := ConstantPool s;
     JumpTable := JumpTable s; JumpTableBase := JumpTableBase s; Heap := Heap s;
     Effects := Effects s |}.

Definition set_MBBLocations (v : list Z) (s : Emitter) : Emitter :=
  {| engine := engine s; TM := TM s; SizeEstimate := SizeEstimate s;
     BufferBegin := BufferBegin s; BufferEnd := BufferEnd s;
     CurBufferPtr := CurBufferPtr s; MBBLocations := v;
     LabelLocations := LabelLocations s; Globals := Globals s;
     GlobalOffsets := GlobalOffsets s; EmittedFunctions := EmittedFunctions s;
     CurrentCode := CurrentCode s; ConstPoolAddresses := ConstPoolAddresses s;
     ConstantPoolBase := ConstantPoolBase s; ConstantPool := ConstantPool s;
     JumpTable := JumpTable s; JumpTableBase := JumpTableBase s; Heap := Heap s;
     Effects := Effects s |}.

Definition set_LabelLocations (v : gmap ident Z) (s : Emitter) : Emitter :=
  {| engine := engine s; TM := TM s; SizeEstimate := SizeEstimate s;
     BufferBegin := BufferBegin s; BufferEnd := BufferEnd s;
     CurBufferPtr := CurBufferPtr s; MBBLocations := MBBLocations s;
     LabelLocations := v; Globals := Globals s; GlobalOffsets := GlobalOffsets s;
     EmittedFunctions := EmittedFunctions s; CurrentCode := CurrentCode s;
     ConstPoolAddresses := ConstPoolAddresses s;
     ConstantPoolBase := ConstantPoolBase s; ConstantPool := ConstantPool s;
     JumpTable := JumpTable s; JumpTableBase := JumpTableBase s; Heap := Heap s;
     Effects := Effects s |}.

Definition set_Globals (v : list Z) (s : Emitter) : Emitter :=
  {| engine := engine s; TM := TM s; SizeEstimate := SizeEstimate s;
     BufferBegin := BufferBegin s; BufferEnd := BufferEnd s;
     CurBufferPtr := CurBufferPtr s; MBBLocations := MBBLocations s;
     LabelLocations := LabelLocations s; Globals := v;
     GlobalOffsets := GlobalOffsets s; EmittedFunctions := EmittedFunctions s;
     CurrentCode := CurrentCode s; ConstPoolAddresses := ConstPoolAddresses s;
     ConstantPoolBase := ConstantPoolBase s; ConstantPool := ConstantPool s;
     JumpTable := JumpTable s; JumpTableBase := JumpTableBase s; Heap := Heap s;
     Effects := Effects s |}.

Definition set_GlobalOffsets (v : gmap ident Z) (s : Emitter) : Emitter :=
  {| engine := engine s; TM := TM s; SizeEstimate := SizeEstimate s;
     BufferBegin := BufferBegin s; BufferEnd := BufferEnd s;
     CurBufferPtr := CurBufferPtr s; MBBLocations := MBBLocations s;
     LabelLocations := LabelLocations s; Globals := Globals s; GlobalOffsets := v;
     EmittedFunctions := EmittedFunctions s; CurrentCode := CurrentCode s;
     ConstPoolAddresses := ConstPoolAddresses s;
     ConstantPoolBase := ConstantPoolBase s; ConstantPool := ConstantPool s;
     JumpTable := JumpTable s; JumpTableBase := JumpTableBase s; Heap := Heap s;
     Effects := Effects s |}.

Definition set_EmittedFunctions (v : gmap ident EmittedCode) (s : Emitter) : Emitter :=
  {| engine := engine s; TM := TM s; SizeEstimate := SizeEstimate s;
     BufferBegin := BufferBegin s; BufferEnd := BufferEnd s;
     CurBufferPtr := CurBufferPtr s; MBBLocations := MBBLocations s;
     LabelLocations := LabelLocations s; Globals := Globals s;
     GlobalOffsets := GlobalOffsets s; EmittedFunctions := v;
     CurrentCode := CurrentCode s; ConstPoolAddresses := ConstPoolAddresses s;
     ConstantPoolBase := ConstantPoolBase s; ConstantPool := ConstantPool s;
     JumpTable := JumpTable s; JumpTableBase := JumpTableBase s; Heap := Heap s;
     Effects := Effects s |}.

Definition set_CurrentCode (v : option ident) (s : Emitter) : Emitter :=
  {| engine := engine s; TM := TM s; SizeEstimate := SizeEstimate s;
     BufferBegin := BufferBegin s; BufferEnd := BufferEnd s;
     CurBufferPtr := CurBufferPtr s; MBBLocations := MBBLocations s;
     LabelLocations := LabelLocations s; Globals := Globals s;
     GlobalOffsets := GlobalOffsets s; EmittedFunctions := EmittedFunctions s;
     CurrentCode := v; ConstPoolAddresses := ConstPoolAddresses s;
     ConstantPoolBase := ConstantPoolBase s; ConstantPool := ConstantPool s;
     JumpTable := JumpTable s; JumpTableBase := JumpTableBase s; Heap := Heap s;
     Effects := Effects s |}.

Definition set_ConstPoolAddresses (v : list Z) (s : Emitter) : Emitter :=
  {| engine := engine s; TM := TM s; SizeEstimate := SizeEstimate s;
     BufferBegin := BufferBegin s; BufferEnd := BufferEnd s;
     CurBufferPtr := CurBufferPtr s; MBBLocations := MBBLocations s;
     LabelLocations := LabelLocations s; Globals := Globals s;
     GlobalOffsets := GlobalOffsets s; EmittedFunctions := EmittedFunctions s;
     CurrentCode := CurrentCode s; ConstPoolAddresses := v;
     ConstantPoolBase := ConstantPoolBase s; ConstantPool := ConstantPool s;
     JumpTable := JumpTable s; JumpTableBase := JumpTableBase s; Heap := Heap s;
     Effects := Effects s |}.

Definition set_ConstantPoolBase (v : Z) (s : Emitter) : Emitter :=
  {| engine := engine s; TM := TM s; SizeEstimate := SizeEstimate s;
     BufferBegin := BufferBegin s; BufferEnd := BufferEnd s;
     CurBufferPtr := CurBufferPtr s; MBBLocations := MBBLocations s;
     LabelLocations := LabelLocations s; Globals := Globals s;
     GlobalOffsets := GlobalOffsets s; EmittedFunctions := EmittedFunctions s;
     CurrentCode := CurrentCode s; ConstPoolAddresses := ConstPoolAddresses s;
     ConstantPoolBase := v; ConstantPool := ConstantPool s; JumpTable := JumpTable s;
     JumpTableBase := JumpTableBase s; Heap := Heap s; Effects := Effects s |}.

Definition set_ConstantPool (v : option MachineConstantPool) (s : Emitter) : Emitter :=
  {| engine := engine s; TM := TM s; SizeEstimate := SizeEstimate s;
     BufferBegin := BufferBegin s; BufferEnd := BufferEnd s;
     CurBufferPtr := CurBufferPtr s; MBBLocations := MBBLocations s;
     LabelLocations := LabelLocations s; Globals := Globals s;
     GlobalOffsets := GlobalOffsets s; EmittedFunctions := EmittedFunctions s;
     CurrentCode := CurrentCode s; ConstPoolAddresses := ConstPoolAddresses s;
     ConstantPoolBase := ConstantPoolBase s; ConstantPool := v;
     JumpTable := JumpTable s; JumpTableBase := JumpTableBase s; Heap := Heap s;
     Effects := Effects s |}.

Definition set_JumpTable (v : option MachineJumpTableInfo) (s : Emitter) : Emitter :=
  {| engine := engine s; TM := TM s; SizeEstimate := SizeEstimate s;
     BufferBegin := BufferBegin s; BufferEnd := BufferEnd s;
     CurBufferPtr := CurBufferPtr s; MBBLocations := MBBLocations s;
     LabelLocations := LabelLocations s; Globals := Globals s;
     GlobalOffsets := GlobalOffsets s; EmittedFunctions := EmittedFunctions s;
     CurrentCode := CurrentCode s; ConstPoolAddresses := ConstPoolAddresses s;
     ConstantPoolBase := ConstantPoolBase s; ConstantPool := ConstantPool s;
     JumpTable := v; JumpTableBase := JumpTableBase s; Heap := Heap s;
     Effects := Effects s |}.

Definition set_JumpTableBase (v : Z) (s : Emitter) : Emitter :=
  {| engine := engine s; TM := TM s; SizeEstimate := SizeEstimate s;
     BufferBegin := BufferBegin s; BufferEnd := BufferEnd s;
     CurBufferPtr := CurBufferPtr s; MBBLocations := MBBLocations s;
     LabelLocations := LabelLocations s; Globals := Globals s;
     GlobalOffsets := GlobalOffsets s; EmittedFunctions := EmittedFunctions s;
     CurrentCode := CurrentCode s; ConstPoolAddresses := ConstPoolAddresses s;
     ConstantPoolBase := ConstantPoolBase s; ConstantPool := ConstantPool s;
     JumpTable := JumpTable s; JumpTableBase := v; Heap := Heap s;
     Effects := Effects s |}.

Definition set_Heap (v : list Z) (s : Emitter) : Emitter :=
  {| engine := engine s; TM := TM s; SizeEstimate := SizeEstimate s;
     BufferBegin := BufferBegin s; BufferEnd := BufferEnd s;
     CurBufferPtr := CurBufferPtr s; MBBLocations := MBBLocations s;
     LabelLocations := LabelLocations s; Globals := Globals s;
     GlobalOffsets := GlobalOffsets s; EmittedFunctions := EmittedFunctions s;
     CurrentCode := CurrentCode s; ConstPoolAddresses := ConstPoolAddresses s;
     ConstantPoolBase := ConstantPoolBase s; ConstantPool := ConstantPool s;
     JumpTable := JumpTable s; JumpTableBase := JumpTableBase s; Heap := v;
     Effects := Effects s |}.

Definition set_Effects (v : list Effect) (s : Emitter) : Emitter :=
  {| engine := engine s; TM := TM s; SizeEstimate := SizeEstimate s;
     BufferBegin := BufferBegin s; BufferEnd := BufferEnd s;
     CurBufferPtr := CurBufferPtr s; MBBLocations := MBBLocations s;
     LabelLocations := LabelLocations s; Globals := Globals s;
     GlobalOffsets := GlobalOffsets s; EmittedFunctions := EmittedFunctions s;
     CurrentCode := CurrentCode s; ConstPoolAddresses := ConstPoolAddresses s;
     ConstantPoolBase := ConstantPoolBase s; ConstantPool := ConstantPool s;
     JumpTable := JumpTable s; JumpTableBase := JumpTableBase s; Heap := Heap s;
     Effects := v |}.

Definition set_Function (v : option ident) (c : EmittedCode) : EmittedCode :=
  {| Function_ := v; FunctionBody := FunctionBody c; Code := Code c; Size := Size c;
     Relocations := Relocations c |}.

Definition set_FunctionBody (v : Z) (c : EmittedCode) : EmittedCode :=
  {| Function_ := Function_ c; FunctionBody := v; Code := Code c; Size := Size c;
     Relocations := Relocations c |}.

Definition set_Code (v : Z) (c : EmittedCode) : EmittedCode :=
  {| Function_ := Function_ c; FunctionBody := FunctionBody c; Code := v;
     Size := Size c; Relocations := Relocations c |}.

Definition set_Size (v : Z) (c : EmittedCode) : EmittedCode :=
  {| Function_ := Function_ c; FunctionBody := FunctionBody c; Code := Code c;
     Size := v; Relocations := Relocations c |}.

Definition set_Relocations (v : list MachineRelocation) (c : EmittedCode) : EmittedCode :=
  {| Function_ := Function_ c; FunctionBody := FunctionBody c; Code := Code c;
     Size := Size c; Relocations := v |}.

(** The emitter as its constructor leaves it ([SizeEstimate(0)]); the
    pointer members start out null, the containers empty. *)
Definition Emitter_new (E : Engine) (T : TargetMachine) (heap : list Z) : Emitter :=
  {| engine := E; TM := T; SizeEstimate := 0;
     BufferBegin := 0; BufferEnd := 0; CurBufferPtr := 0;
     MBBLocations := []; LabelLocations := ∅;
     Globals := []; GlobalOffsets := ∅;
     EmittedFunctions := ∅; CurrentCode := None;
     ConstPoolAddresses := []; ConstantPoolBase := 0; ConstantPool := None;
     JumpTable := None; JumpTableBase := 0;
     Heap := heap; Effects := [] |}.

Definition uptr (s : Emitter) (x : Z) : Z := wrap (PointerSizeInBits (TM s)) x.

Definition emit_effect (e : Effect) (s : Emitter) : Emitter :=
  set_Effects (Effects s ++ [e]) s.

(** [std::malloc]: the next address of the list, null when it is used up. *)
Definition std_malloc (size : Z) (s : Emitter) : Z * Emitter :=
  match Heap s with
  | [] => (0, s)
  | p :: rest => (p, set_Heap rest s)
  end.

(** ** The base class (llvm/CodeGen/JITCodeEmitter.h) *)

(** Modelled from the spec: the base class is not under src/ (section 3:
    the program-counter value at the moment emission reaches the block or
    label). It is the cursor. *)
Definition getCurrentPCValue (s : Emitter) : Z := CurBufferPtr s.

(** Modelled from the spec: the base class is not under src/ (section 4.4:
    emission calls advance the cursor; a full buffer is the overflow
    signal). A byte is stored and the cursor moves on unless the cursor
    is at [BufferEnd]. *)
Definition emitByte (B : Z) (s : Emitter) : Emitter :=
  if CurBufferPtr s =? BufferEnd s then s
  else set_CurBufferPtr (CurBufferPtr s + 1) (emit_effect (Store (CurBufferPtr s) B) s).

(** Modelled from the spec: the base class's alignment padding is not under
    src/ (section 4.4, alignment padding that advances the cursor). It rounds
    the cursor up to [Alignment] (0 counts as 1) and stops at [BufferEnd]. *)
Definition emitAlignment (Alignment : Z) (s : Emitter) : Emitter :=
  let Alignment := if Alignment =? 0 then 1 else Alignment in
  let NewPtr := RoundUpToAlignment (CurBufferPtr s) Alignment in
  set_CurBufferPtr (Z.min NewPtr (BufferEnd s)) s.

(** Modelled from the spec: the base class's bump allocation is not under
    src/ (section 4.1: space is carved out of the open buffer respecting
    alignment; a null result when the remaining space is insufficient, which
    also moves the cursor to the end of the buffer as the overflow signal). *)
Definition JITCodeEmitter_allocateSpace (Size Alignment : Z) (s : Emitter) : Z * Emitter :=
  let s := emitAlignment Alignment s in
  if BufferEnd s - CurBufferPtr s <=? Size
  then (0, set_CurBufferPtr (BufferEnd s) s)
  else (CurBufferPtr s, set_CurBufferPtr (CurBufferPtr s + Size) s).

(** ** Emitter: relocations, blocks and labels *)

(** [CurrentCode->Relocations.push_back(MR)]; [CurrentCode] points at an
    entry of [EmittedFunctions]. *)
Definition addRelocation (MR : MachineRelocation) (s : Emitter) : result Emitter :=
  match CurrentCode s with
  | None => Fatal (DanglingPointer "CurrentCode")
  | Some F =>
    match EmittedFunctions s !! F with
    | None => Fatal (DanglingPointer "CurrentCode")
    | Some code =>
      Ok (set_EmittedFunctions
            (<[F := set_Relocations (Relocations code ++ [MR]) code]> (EmittedFunctions s)) s)
    end
  end.

Definition StartMachineBasicBlock (MBB : nat) (s : Emitter) : Emitter :=
  let L := MBBLocations s in
  let L := if (length L <=? MBB)%nat then resize ((MBB + 1) * 2)%nat 0 L else L in
  set_MBBLocations (<[MBB := getCurrentPCValue s]> L) s.

Definition getMachineBasicBlockAddress (MBB : nat) (s : Emitter) : result Z :=
  match MBBLocations s !! MBB with
  | Some a => if a =? 0 then Fatal (AssertionFailed "MBB not emitted!") else Ok a
  | None => Fatal (AssertionFailed "MBB not emitted!")
  end.

Definition emitLabel (Label : ident) (s : Emitter) : Emitter :=
  set_LabelLocations (<[Label := getCurrentPCValue s]> (LabelLocations s)) s.

Definition getLabelLocations (s : Emitter) : gmap ident Z := LabelLocations s.

Definition getLabelAddress (Label : ident) (s : Emitter) : result Z :=
  match LabelLocations s !! Label with
  | Some a => Ok a
  | None => Fatal (AssertionFailed "Label not emitted!")
  end.

(** ** Emitter: the global address registry *)

(** Modelled from the spec: [engine.InitializeMemory(Init, &Globals[Dest])]
    is not under src/ (section 4.3, as for [Initializer]). [addressOf] is
    the emitter entry point it calls back for a global the initializer
    mentions. A store lands in the arena at [Dest + off]. *)
Fixpoint InitializeMemory (addressOf : ident -> Emitter -> result (Z * Emitter))
    (Init : Initializer) (Dest : nat) (s : Emitter) : result Emitter :=
  match Init with
  | InitDone => Ok s
  | InitStore off byte k =>
    InitializeMemory addressOf k Dest
      (set_Globals (<[(Dest + off)%nat := byte]> (Globals s)) s)
  | InitAddressOf V k =>
    '(a, s') ← addressOf V s;
    InitializeMemory addressOf (k a) Dest s'
  end.

(** [Globals.set_size(n)]; bytes that appear are modelled as 0. *)
Definition Globals_set_size (n : Z) (s : Emitter) : Emitter :=
  set_Globals (resize (Z.to_nat n) 0 (Globals s)) s.

(** [memset(&Globals[offset], c, n)]. *)
Definition Globals_memset (offset c n : Z) (s : Emitter) : Emitter :=
  set_Globals (list_inserts (Z.to_nat offset) (replicate (Z.to_nat n) c) (Globals s)) s.

(** The recursion goes through the initializer, which may come back for
    another global: [fuel] bounds the nesting of such calls. *)
Fixpoint getGlobalVariableAddress (fuel : nat) (V : ident) (s : Emitter)
    : result (Z * Emitter) :=
  match fuel with
  | O => OutOfFuel
  | S fuel =>
    match GlobalOffsets s !! V with
    | Some offset => Ok (Z.lor offset 0xDA000000, s)
    | None =>
      match TheModule (engine s) V with
      | GV_Variable GV =>
        if isDeclaration GV || hasAvailableExternallyLinkage GV
        then Fatal (ReportFatalError "Could not resolve external global address: ")
        else
          let S_ := TypeAllocSize GV in
          let A := PreferredAlignment GV in
          let offset := RoundUpToAlignment (Z.of_nat (length (Globals s))) A in
          let s := Globals_set_size (offset + S_) s in
          let s := Globals_memset offset 0 S_ s in
          s ← (if isThreadLocal GV then Ok s
               else InitializeMemory (getGlobalVariableAddress fuel)
                      (getInitializer GV) (Z.to_nat offset) s);
          let s := set_GlobalOffsets (<[V := offset]> (GlobalOffsets s)) s in
          Ok (Z.lor offset 0xDA000000, s)
      | _ => Fatal (DanglingPointer "V is not a GlobalVariable")
      end
    end
  end.

Definition getGlobalAddress (V : ident) (s : Emitter) : result Z :=
  match GlobalOffsets s !! V with
  | Some offset => Ok (Z.lor offset 0xDA000000)
  | None => Fatal (Unreachable "Global hasn't had an address allocated yet!")
  end.

Definition getPointerToGlobal (fuel : nat) (V : ident) (Reference : Z)
    (MayNeedFarStub : bool) (s : Emitter) : result (Z * Emitter) :=
  match TheModule (engine s) V with
  | GV_Variable _ => getGlobalVariableAddress fuel V s
  | GV_Alias aliasee => a ← getGlobalAddress aliasee s; Ok (a, s)
  | GV_Function => Ok (0, s)
  end.

Definition getPointerToGVIndirectSym (fuel : nat) (V : ident) (Reference : Z)
    (s : Emitter) : result (Z * Emitter) :=
  getPointerToGlobal fuel V Reference false s.

(** ** Emitter: constant pool *)

Definition GetConstantPoolSizeInBytes (MCP : MachineConstantPool) : Z :=
  fold_left
    (fun Size CPE =>
       let AlignMask := u32 (getAlignment CPE - 1) in
       let Size := Z.land (u32 (Size + AlignMask)) (not32 AlignMask) in
       u32 (Size + getTypeAllocSize CPE))
    (getConstants MCP) 0.

(** [Emitter::allocateSpace]: inside an open buffer the base class carves
    the space; with no buffer a fresh block of exactly [Size] bytes becomes
    the buffer and the cursor stays at its start. *)
Definition memAllocateSpace (Size Alignment : Z) (s : Emitter) : Z * Emitter :=
  std_malloc Size s.

Definition allocateSpace (Size Alignment : Z) (s : Emitter) : Z * Emitter :=
  if BufferBegin s =? 0 then
    let '(p, s) := memAllocateSpace Size Alignment s in
    let s := set_CurBufferPtr p (set_BufferBegin p s) in
    let s := set_BufferEnd (BufferBegin s + Size) s in
    (CurBufferPtr s, s)
  else JITCodeEmitter_allocateSpace Size Alignment s.

(** The loop of [emitConstantPool] over the entries from [Offset] on:
    the addresses pushed onto [ConstPoolAddresses]. *)
Fixpoint emitConstantPool_entries (s : Emitter) (Constants : list MachineConstantPoolEntry)
    (Offset : Z) : result Emitter :=
  match Constants with
  | [] => Ok s
  | CPE :: rest =>
    let AlignMask := u32 (getAlignment CPE - 1) in
    let Offset := Z.land (u32 (Offset + AlignMask)) (not32 AlignMask) in
    let CAddr := uptr s (ConstantPoolBase s + Offset) in
    let s := set_ConstPoolAddresses (ConstPoolAddresses s ++ [CAddr]) s in
    if isMachineConstantPoolEntry CPE
    then Fatal (ReportFatalError
      "Initialize memory with machine specific constant poolentry has not been implemented!")
    else emitConstantPool_entries s rest (u32 (Offset + getTypeAllocSize CPE))
  end.

Definition emitConstantPool (MCP : MachineConstantPool) (s : Emitter) : result Emitter :=
  match getConstants MCP with
  | [] => Ok s
  | Constants =>
    let Size := GetConstantPoolSizeInBytes MCP in
    let Align := getConstantPoolAlignment MCP in
    let '(p, s) := allocateSpace Size Align s in
    let s := set_ConstantPool (Some MCP) (set_ConstantPoolBase p s) in
    if ConstantPoolBase s =? 0 then Ok s
    else emitConstantPool_entries s Constants 0
  end.

Definition getConstantPoolEntryAddress (ConstantNum : nat) (s : Emitter) : result Z :=
  match ConstantPool s with
  | None => Fatal (DanglingPointer "ConstantPool")
  | Some MCP =>
    if (ConstantNum <? length (getConstants MCP))%nat then
      match ConstPoolAddresses s !! ConstantNum with
      | Some a => Ok a
      | None => Fatal (OutOfBounds "ConstPoolAddresses")
      end
    else Fatal (AssertionFailed "Invalid ConstantPoolIndex!")
  end.

(** ** Emitter: jump tables *)

Definition initJumpTableInfo (MJTI : MachineJumpTableInfo) (s : Emitter) : Emitter :=
  if hasCustomJumpTables (TM s) then s
  else
    match getEntryKind MJTI with
    | EK_Inline => s
    | _ =>
      match getJumpTables MJTI with
      | [] => s
      | JT =>
        let NumEntries :=
          fold_left (fun n MBBs => u32 (n + Z.of_nat (length MBBs))) JT 0 in
        let EntrySize := getEntrySize MJTI in
        let s := set_JumpTable (Some MJTI) s in
        let '(p, s) := allocateSpace (u32 (NumEntries * EntrySize))
                         (getEntryAlignment MJTI) s in
        set_JumpTableBase p s
      end
    end.

(** The inner loop of [emitJumpTableInfo]: one slot of [width] bytes per
    block of the table, holding [entry] of the block's address. *)
Fixpoint emitJumpTable_slots (entry : Z -> Z) (width : Z) (MBBs : list nat)
    (SlotPtr : Z) (s : Emitter) : result (Z * Emitter) :=
  match MBBs with
  | [] => Ok (SlotPtr, s)
  | MBB :: rest =>
    MBBAddr ← getMachineBasicBlockAddress MBB s;
    emitJumpTable_slots entry width rest (SlotPtr + width)
      (emit_effect (Store SlotPtr (entry MBBAddr)) s)
  end.

(** The outer loop; [entry] is told the address at which the table starts. *)
Fixpoint emitJumpTable_tables (entry : Z -> Z -> Z) (width : Z) (JT : list (list nat))
    (SlotPtr : Z) (s : Emitter) : result Emitter :=
  match JT with
  | [] => Ok s
  | MBBs :: rest =>
    let Base := SlotPtr in
    '(SlotPtr, s) ← emitJumpTable_slots (entry Base) width MBBs SlotPtr s;
    emitJumpTable_tables entry width rest SlotPtr s
  end.

Definition emitJumpTableInfo (MJTI : MachineJumpTableInfo) (s : Emitter) : result Emitter :=
  if hasCustomJumpTables (TM s) then Ok s
  else
    let JT := getJumpTables MJTI in
    if bool_decide (JT = []) || (JumpTableBase s =? 0) then Ok s
    else
      match getEntryKind MJTI with
      | EK_Inline => Ok s
      | EK_BlockAddress =>
        if getEntrySize MJTI =? PointerSizeInBits (TM s) / 8
        then emitJumpTable_tables (fun _ MBBAddr => MBBAddr)
               (PointerSizeInBits (TM s) / 8) JT (JumpTableBase s) s
        else Fatal (AssertionFailed "Cross JIT'ing?")
      | EK_Custom32 | EK_GPRel32BlockAddress | EK_LabelDifference32 =>
        if getEntrySize MJTI =? 4
        then emitJumpTable_tables
               (fun Base MBBAddr => getPICJumpTableEntry (TM s) MBBAddr Base)
               4 JT (JumpTableBase s) s
        else Fatal (AssertionFailed "Cross JIT'ing?")
      | EK_GPRel64BlockAddress =>
        Fatal (Unreachable "JT Info emission not implemented for GPRel64BlockAddress yet.")
      end.

Definition getJumpTableEntryAddress (Index : nat) (s : Emitter) : result Z :=
  match JumpTable s with
  | None => Fatal (DanglingPointer "JumpTable")
  | Some MJTI =>
    let JT := getJumpTables MJTI in
    if (Index <? length JT)%nat then
      let EntrySize := getEntrySize MJTI in
      let Offset :=
        fold_left (fun n MBBs => u32 (n + Z.of_nat (length MBBs))) (take Index JT) 0 in
      let Offset := u32 (Offset * EntrySize) in
      Ok (uptr s (JumpTableBase s + Offset))
    else Fatal (AssertionFailed "Invalid jump table index!")
  end.

(** ** Emitter: one function *)

Definition startFunctionBody (F : ident) (ActualSize : Z) (s : Emitter)
    : Z * Z * Emitter :=
  let ActualSize := if ActualSize =? 0 then 0x1000 else ActualSize in
  let '(p, s) := std_malloc ActualSize s in
  (p, ActualSize, s).

Definition endFunctionBody (F : ident) (FunctionStart FunctionEnd : Z) (s : Emitter)
    : Emitter := s.

Definition deallocateFunctionBody (Body : Z) (s : Emitter) : Emitter := s.

Definition deallocateMemForFunction (F : ident) (s : Emitter) : Emitter :=
  match EmittedFunctions s !! F with
  | Some Emitted =>
    let s := deallocateFunctionBody (FunctionBody Emitted) s in
    set_EmittedFunctions (delete F (EmittedFunctions s)) s
  | None => s
  end.

(** A write through the reference [code] that [startFunction] takes into
    [EmittedFunctions]. *)
Definition update_code (F : ident) (f : EmittedCode -> EmittedCode) (s : Emitter)
    : Emitter :=
  set_EmittedFunctions (alter f F (EmittedFunctions s)) s.

Definition startFunction (F : MachineFunction) (s : Emitter) : result Emitter :=
  let ActualSize := 0 in
  let ActualSize := if 0 <? SizeEstimate s then SizeEstimate s else ActualSize in
  let '(p, ActualSize, s) := startFunctionBody (getFunction F) ActualSize s in
  let s := set_CurBufferPtr p (set_BufferBegin p s) in
  let s := set_BufferEnd (BufferBegin s + ActualSize) s in
  (* EmittedCode &code = EmittedFunctions[F.getFunction()]; *)
  let s := set_EmittedFunctions
             (<[getFunction F :=
                  default EmittedCode_default (EmittedFunctions s !! getFunction F)]>
                (EmittedFunctions s)) s in
  let s := update_code (getFunction F) (set_Function (Some (getFunction F))) s in
  let s := set_CurrentCode (Some (getFunction F)) s in
  let s := update_code (getFunction F) (set_FunctionBody (BufferBegin s)) s in
  let s := emitAlignment 16 s in
  s ← emitConstantPool (getConstantPool F) s;
  let s := match getJumpTableInfo F with
           | Some MJTI => initJumpTableInfo MJTI s
           | None => s
           end in
  let s := emitAlignment (Z.max (getFunctionAlignment F) 8) s in
  let s := update_code (getFunction F) (set_Code (CurBufferPtr s)) s in
  Ok (set_MBBLocations [] s).

Definition retryWithMoreMemory (F : MachineFunction) (s : Emitter) : Emitter :=
  let s := set_ConstPoolAddresses [] s in
  let s := deallocateMemForFunction (getFunction F) s in
  set_SizeEstimate (uptr s (2 * (BufferEnd s - BufferBegin s))) s.

(** [CurrentCode->Size = CurBufferPtr - CurrentCode->Code], in bytes. *)
Definition set_CurrentCode_Size (s : Emitter) : result Emitter :=
  match CurrentCode s with
  | None => Fatal (DanglingPointer "CurrentCode")
  | Some F =>
    match EmittedFunctions s !! F with
    | None => Fatal (DanglingPointer "CurrentCode")
    | Some code => Ok (update_code F (set_Size (CurBufferPtr s - Code code)) s)
    end
  end.

(** Returns [true] when the function has to be emitted again. *)
Definition finishFunction (F : MachineFunction) (s : Emitter) : result (bool * Emitter) :=
  if CurBufferPtr s =? BufferEnd s then
    let s := endFunctionBody (getFunction F) (BufferBegin s) (CurBufferPtr s) s in
    let s := retryWithMoreMemory F s in
    Ok (true, s)
  else
    s ← match getJumpTableInfo F with
        | Some MJTI => emitJumpTableInfo MJTI s
        | None => Ok s
        end;
    s ← set_CurrentCode_Size s;
    let s := endFunctionBody (getFunction F) (BufferBegin s) (CurBufferPtr s) s in
    if CurBufferPtr s =? BufferEnd s then
      let s := retryWithMoreMemory F s in
      Ok (true, s)
    else
      let s := set_SizeEstimate 0 s in
      let s := set_CurBufferPtr 0 (set_BufferBegin 0 s) in
      let s := set_ConstPoolAddresses [] s in
      Ok (false, s).

(** ** Emitter: resolving the relocations *)

Definition abort : result unit := Fatal Abort.

(** The body of the inner loop of [resolveRelocations]. *)
Definition resolveRelocation (fuel : nat) (MR : MachineRelocation) (s : Emitter)
    : result (MachineRelocation * Emitter) :=
  if letTargetResolve MR then Ok (MR, s)
  else
    '(ResultPtr, s) ←
      match getTarget MR with
      | isExternalSymbol name =>
        _ ← abort;
        Ok (getPointerToNamedFunction (engine s) name false, s)
      | isGlobalValue V =>
        getPointerToGlobal fuel V (BufferBegin s + getMachineCodeOffset MR)
          (mayNeedFarStub MR) s
      | isIndirectSymbol V =>
        getPointerToGVIndirectSym fuel V (BufferBegin s + getMachineCodeOffset MR) s
      | isBasicBlock MBB =>
        a ← getMachineBasicBlockAddress MBB s; Ok (a, s)
      | isConstantPoolIndex idx =>
        a ← getConstantPoolEntryAddress idx s; Ok (a, s)
      | isJumpTableIndex idx =>
        a ← getJumpTableEntryAddress idx s; Ok (a, s)
      | _ => Fatal (AssertionFailed "MR.isJumpTableIndex()")
      end;
    Ok (setResultPointer MR ResultPtr, s).

Fixpoint resolveRelocation_list (fuel : nat) (MRs : list MachineRelocation) (s : Emitter)
    : result (list MachineRelocation * Emitter) :=
  match MRs with
  | [] => Ok ([], s)
  | MR :: rest =>
    '(MR, s) ← resolveRelocation fuel MR s;
    '(rest, s) ← resolveRelocation_list fuel rest s;
    Ok (MR :: rest, s)
  end.

(** The body of the outer loop, for the entry [code] of function [F]. *)
Definition resolveRelocations_function (fuel : nat) (F : ident) (code : EmittedCode)
    (s : Emitter) : result Emitter :=
  s ← match Relocations code with
      | [] => Ok s
      | MRs =>
        '(MRs, s) ← resolveRelocation_list fuel MRs s;
        let s := update_code F (set_Relocations MRs) s in
        Ok (emit_effect (Relocate (FunctionBody code) MRs) s)
      end;
  Ok (emit_effect (Disassemble (Code code) (Size code)) s).

Fixpoint resolveRelocations_loop (fuel : nat) (codes : list (ident * EmittedCode))
    (s : Emitter) : result Emitter :=
  match codes with
  | [] => Ok s
  | (F, code) :: rest =>
    s ← resolveRelocations_function fuel F code s;
    resolveRelocations_loop fuel rest s
  end.

(** The entries are visited in the order of [map_to_list]; no entry is
    added or removed during the pass, and one function's step only writes
    its own entry. *)
Definition resolveRelocations (fuel : nat) (s : Emitter) : result Emitter :=
  resolveRelocations_loop fuel (map_to_list (EmittedFunctions s)) s.

(** ** The instruction producer *)

(** What the target's code emitter asks of the emitter between
    [startFunction] and [finishFunction]. *)
Inductive Emission : Type :=
| EmitByte (B : Z)
| AddRelocation (MR : MachineRelocation)
| StartMBB (MBB : nat)
| EmitLabel (Label : ident).

Definition emit (e : Emission) (s : Emitter) : result Emitter :=
  match e with
  | EmitByte B => Ok (emitByte B s)
  | AddRelocation MR => addRelocation MR s
  | StartMBB MBB => Ok (StartMachineBasicBlock MBB s)
  | EmitLabel Label => Ok (emitLabel Label s)
  end.

Fixpoint emitInstructions (body : list Emission) (s : Emitter) : result Emitter :=
  match body with
  | [] => Ok s
  | e :: rest => s ← emit e s; emitInstructions rest s
  end.

(** One attempt: [startFunction], the body, [finishFunction]. *)
Definition emitAttempt (F : MachineFunction) (body : list Emission) (s : Emitter)
    : result (bool * Emitter) :=
  s ← startFunction F s;
  s ← emitInstructions body s;
  finishFunction F s.

(** The caller's loop, [do { ... } while (finishFunction(F))], cut off after
    [fuel] attempts. *)
Fixpoint runOnMachineFunction (fuel : nat) (F : MachineFunction) (body : list Emission)
    (s : Emitter) : result Emitter :=
  match fuel with
  | O => OutOfFuel
  | S fuel =>
    '(again, s) ← emitAttempt F body s;
    if again : bool then runOnMachineFunction fuel F body s else Ok s
  end.

(** ** Emitter: the remaining members *)

Definition processDebugLoc (BeforePrintingInsn : bool) (s : Emitter) : Emitter := s.

(** [abort()] comes first; the stub allocation after it is never reached. *)
Definition allocIndirectGV (GV : ident) (Buffer : list Z) (Size Alignment : Z)
    (s : Emitter) : result (Z * Emitter) :=
  _ ← abort; Ok (0, s).

Definition allocateGlobal (Size Alignment : Z) (s : Emitter) : result (Z * Emitter) :=
  _ ← abort; Ok (0, s).

(** [EmittedFunctionConfig::onDelete]: the function [F] is being destroyed. *)
Definition onDelete (F : ident) (s : Emitter) : Emitter :=
  deallocateMemForFunction F s.

(** [EmittedFunctionConfig::onRAUW]. *)
Definition onRAUW (Old New : ident) (s : Emitter) : result Emitter :=
  Fatal (Unreachable "The JIT doesn't know how to handle a RAUW on a value it has emitted.").

(** ** Vocabulary of the statements *)

(** The global is defined in the unit: [getGlobalVariableAddress] does not
    refuse it. *)
Definition isDefined (GV : GlobalVariable) : bool :=
  negb (isDeclaration GV || hasAvailableExternallyLinkage GV).

(** The first global an initializer asks the emitter about, if any. *)
Fixpoint first_lookup (Init : Initializer) : option ident :=
  match Init with
  | InitDone => None
  | InitStore _ _ k => first_lookup k
  | InitAddressOf V _ => Some V
  end.

(** The initializer only stores: it never comes back to the emitter. *)
Fixpoint stores_only (Init : Initializer) : bool :=
  match Init with
  | InitDone => true
  | InitStore _ _ k => stores_only k
  | InitAddressOf _ _ => false
  end.

(** The members that only [startFunction], [finishFunction], the recording
    calls and the registry write are the same in [s] and [s']. *)
Definition kept (s s' : Emitter) : Prop :=
  engine s' = engine s /\ TM s' = TM s /\ SizeEstimate s' = SizeEstimate s /\
  MBBLocations s' = MBBLocations s /\ LabelLocations s' = LabelLocations s /\
  EmittedFunctions s' = EmittedFunctions s /\ CurrentCode s' = CurrentCode s /\
  GlobalOffsets s' = GlobalOffsets s /\ Globals s' = Globals s.

(** The open buffer is the same in [s] and [s']. *)
Definition buffer_kept (s s' : Emitter) : Prop :=
  BufferBegin s' = BufferBegin s /\ BufferEnd s' = BufferEnd s.

(** No entry of the pool needs target-specific lowering. *)
Definition plain_pool (MCP : MachineConstantPool) : Prop :=
  Forall (fun CPE => isMachineConstantPoolEntry CPE = false) (getConstants MCP).

(** ** Sample units *)

Definition sample_TM : TargetMachine :=
  {| PointerSizeInBits := 64;
     hasCustomJumpTables := false;
     getPICJumpTableEntry := fun MBBAddr Base => MBBAddr - Base |}.

(** [void *self = &self;]: the initializer asks for the address of the very
    global it initialises and stores its low byte. *)
Definition self_pointer : GlobalVariable :=
  {| isDeclaration := false; hasAvailableExternallyLinkage := false;
     isThreadLocal := false; TypeAllocSize := 8; PreferredAlignment := 8;
     getInitializer := InitAddressOf 1%positive
                         (fun a => InitStore 0 (a mod 256) InitDone) |}.

(** [int64_t counter = 1;] *)
Definition counter : GlobalVariable :=
  {| isDeclaration := false; hasAvailableExternallyLinkage := false;
     isThreadLocal := false; TypeAllocSize := 8; PreferredAlignment := 8;
     getInitializer := InitStore 0 1 InitDone |}.

(** [static char scratch[1 << 24];]: 16 MiB of zeros. *)
Definition scratch : GlobalVariable :=
  {| isDeclaration := false; hasAvailableExternallyLinkage := false;
     isThreadLocal := false; TypeAllocSize := 0x1000000; PreferredAlignment := 16;
     getInitializer := InitDone |}.

(** A unit whose globals are [scratch] and, after it, [counter]. *)
Definition scratch_module (V : ident) : GlobalValue :=
  match V with
  | 1%positive => GV_Variable scratch
  | 2%positive => GV_Variable counter
  | _ => GV_Function
  end.

Definition sample_module (V : ident) : GlobalValue :=
  match V with
  | 1%positive => GV_Variable self_pointer
  | 2%positive => GV_Variable counter
  | 3%positive => GV_Alias 2%positive
  | _ => GV_Function
  end.

(** The engine knows the symbol [puts] and no other. *)
Definition sample_engine : Engine :=
  {| TheModule := sample_module;
     getPointerToNamedFunction := fun name _ =>
       if String.eqb name "puts" then 0x7f0000001000 else 0 |}.

Definition fresh (heap : list Z) : Emitter := Emitter_new sample_engine sample_TM heap.

Definition scratch_engine : Engine :=
  {| TheModule := scratch_module; getPointerToNamedFunction := fun _ _ => 0 |}.

Definition scratch_fresh (heap : list Z) : Emitter :=
  Emitter_new scratch_engine sample_TM heap.

Definition reloc (target : RelocationTarget) : MachineRelocation :=
  {| getMachineCodeOffset := 1; letTargetResolve := false; mayNeedFarStub := false;
     getTarget := target |}.

Definition no_pool : MachineConstantPool :=
  {| getConstants := []; getConstantPoolAlignment := 1 |}.

(** Entries of sizes 3 and 1 with alignments 4 and 1. *)
Definition pool_3_1 : MachineConstantPool :=
  {| getConstants :=
       [ {| getAlignment := 4; isMachineConstantPoolEntry := false; getTypeAllocSize := 3 |};
         {| getAlignment := 1; isMachineConstantPoolEntry := false; getTypeAllocSize := 1 |} ];
     getConstantPoolAlignment := 4 |}.

Definition pool_one : MachineConstantPool :=
  {| getConstants :=
       [ {| getAlignment := 4; isMachineConstantPoolEntry := false; getTypeAllocSize := 4 |} ];
     getConstantPoolAlignment := 4 |}.

Definition sample_function (F : ident) (MCP : MachineConstantPool) : MachineFunction :=
  {| getFunction := F; getFunctionAlignment := 16; getConstantPool := MCP;
     getJumpTableInfo := None |}.

(** Two jump tables, of three and of two blocks, with pointer-sized entries. *)
Definition sample_tables : MachineJumpTableInfo :=
  {| getEntryKind := EK_BlockAddress;
     getJumpTables := [[0; 1; 2]; [1; 3]]%nat;
     getEntrySize := 8; getEntryAlignment := 8 |}.

(** A body that calls [puts]. *)
Definition body_call_puts : list Emission :=
  [StartMBB 0; EmitByte 0xE8; AddRelocation (reloc (isExternalSymbol "puts"));
   EmitByte 0; EmitByte 0; EmitByte 0; EmitByte 0; EmitByte 0xC3].

(** A body that loads its constant 0. *)
Definition body_load_constant : list Emission :=
  [StartMBB 0; EmitByte 0xA1; AddRelocation (reloc (isConstantPoolIndex 0));
   EmitByte 0; EmitByte 0; EmitByte 0; EmitByte 0; EmitByte 0xC3].

(** A body that jumps to its own first block. *)
Definition body_jump_to_entry : list Emission :=
  [StartMBB 0; EmitByte 0xE9; AddRelocation (reloc (isBasicBlock 0));
   EmitByte 0; EmitByte 0; EmitByte 0; EmitByte 0].

(** A body whose first block starts after two bytes of padding. *)
Definition body_padded : list Emission :=
  [EmitByte 0x90; EmitByte 0x90; StartMBB 0; EmitByte 0xC3].

(** A body of a label, a block, a relocation and 4096 bytes of code: it
    fills the default buffer. *)
Definition body_too_long : list Emission :=
  EmitLabel 7%positive :: StartMBB 0 :: AddRelocation (reloc (isBasicBlock 0)) ::
  replicate 4096 (EmitByte 0x90).

Definition state_or {A : Type} (r : result (A * Emitter)) (otherwise : Emitter) : Emitter :=
  match r with Ok (_, s) => s | _ => otherwise end.

Definition emitter_or (r : result Emitter) (otherwise : Emitter) : Emitter :=
  match r with Ok s => s | _ => otherwise end.

(** The emitter inside the first attempt at [body_too_long], before
    [finishFunction]. *)
Definition full_buffer : Emitter :=
  emitter_or (s ← startFunction (sample_function 10%positive no_pool)
                    (fresh [0x10000; 0x20000]);
              emitInstructions body_too_long s) (fresh []).

(** The emitter with a buffer just opened for a function without a
    constant pool. *)
Definition open_buffer : Emitter :=
  emitter_or (startFunction (sample_function 10%positive no_pool) (fresh [0x10000]))
    (fresh []).

(** The emitter after the unit of the one function that calls [puts]. *)
Definition unit_calling_puts : Emitter :=
  emitter_or (runOnMachineFunction 1 (sample_function 10%positive no_pool)
                body_call_puts (fresh [0x10000])) (fresh []).

(** ** Vocabulary of the further statements *)

(** The relocations a body records, in the order of the body. *)
Definition relocations_of (body : list Emission) : list MachineRelocation :=
  omap (fun e => match e with AddRelocation MR => Some MR | _ => None end) body.

(** The alignment of the entry is a power of two that fits an [unsigned] and
    its size is not negative. *)
Definition entry_ok (CPE : MachineConstantPoolEntry) : Prop :=
  (exists k, 0 <= k < 32 /\ getAlignment CPE = 2 ^ k) /\ 0 <= getTypeAllocSize CPE.

(** An upper bound of the end of the layout of the entries: every entry with
    the whole padding its alignment may ask for. *)
Definition pool_room (Constants : list MachineConstantPoolEntry) : Z :=
  fold_right (fun CPE room => getAlignment CPE + getTypeAllocSize CPE + room) 0 Constants.

(** The offsets [offs] lay the entries out from [Off] on: each offset is a
    multiple of the alignment of its entry and not before the end of the
    entry in front of it, and [End] is the end of the last entry. *)
Fixpoint laid_out (Off : Z) (Constants : list MachineConstantPoolEntry) (offs : list Z)
    (End : Z) : Prop :=
  match Constants, offs with
  | [], [] => End = Off
  | CPE :: Constants, o :: offs =>
    Off <= o /\ o mod getAlignment CPE = 0 /\
    laid_out (o + getTypeAllocSize CPE) Constants offs End
  | _, _ => False
  end.

(** One store per value, into consecutive slots of [width] bytes. *)
Fixpoint slot_stores (SlotPtr width : Z) (vals : list Z) : list Effect :=
  match vals with
  | [] => []
  | v :: vals => Store SlotPtr v :: slot_stores (SlotPtr + width) width vals
  end.

(** The recorded locations of the blocks [MBBs], when every one of them has
    been recorded at a non-null address. *)
Fixpoint block_addresses (L : list Z) (MBBs : list nat) : option (list Z) :=
  match MBBs with
  | [] => Some []
  | MBB :: rest =>
    match L !! MBB with
    | Some a => if a =? 0 then None else (a ::.) <$> block_addresses L rest
    | None => None
    end
  end.

(** Every relocation of every emitted function is left to the target. *)
Definition all_target_resolved (s : Emitter) : Prop :=
  forall F code MR, EmittedFunctions s !! F = Some code ->
                    In MR (Relocations code) -> letTargetResolve MR = true.

(** Every global with an offset is a global variable defined in the unit. *)
Definition registry_defined (s : Emitter) : Prop :=
  forall V o, GlobalOffsets s !! V = Some o ->
    exists GV, TheModule (engine s) V = GV_Variable GV /\ isDefined GV = true.

(** From [s] to [s'] the registry only gained: same engine, every offset of
    [s] is still the offset in [s'], only defined variables were added, and
    nothing was sent to the trace. *)
Definition registry_extends (s s' : Emitter) : Prop :=
  engine s' = engine s /\
  (forall W o, GlobalOffsets s !! W = Some o -> GlobalOffsets s' !! W = Some o) /\
  (registry_defined s -> registry_defined s') /\
  Effects s' = Effects s.

(** What the pass sends out for one function whose relocations came out as
    [MRs]: one call of the patcher with the whole list if the function has
    relocations, then one call of the disassembler. *)
Definition function_trace (code : EmittedCode) (MRs : list MachineRelocation)
    : list Effect :=
  match Relocations code with
  | [] => []
  | _ => [Relocate (FunctionBody code) MRs]
  end ++ [Disassemble (Code code) (Size code)].

(** [MR'] is [MR] after the pass: untouched when the target resolves it,
    given a result pointer otherwise. *)
Definition resolved_from (MR MR' : MachineRelocation) : Prop :=
  if letTargetResolve MR then MR' = MR else exists ptr, MR' = setResultPointer MR ptr.

(** ** Further sample units *)

(** [extern int64_t elsewhere;] *)
Definition external_counter : GlobalVariable :=
  {| isDeclaration := true; hasAvailableExternallyLinkage := false;
     isThreadLocal := false; TypeAllocSize := 8; PreferredAlignment := 8;
     getInitializer := InitDone |}.

(** [__thread int32_t tls = 7;] *)
Definition tls_slot : GlobalVariable :=
  {| isDeclaration := false; hasAvailableExternallyLinkage := false;
     isThreadLocal := true; TypeAllocSize := 4; PreferredAlignment := 4;
     getInitializer := InitStore 0 7 InitDone |}.

(** [int64_t *ptr = &counter;] *)
Definition counter_ptr : GlobalVariable :=
  {| isDeclaration := false; hasAvailableExternallyLinkage := false;
     isThreadLocal := false; TypeAllocSize := 8; PreferredAlignment := 8;
     getInitializer := InitAddressOf 2%positive
                         (fun a => InitStore 0 (a mod 256) InitDone) |}.

Definition unit_module (V : ident) : GlobalValue :=
  match V with
  | 1%positive => GV_Variable external_counter
  | 2%positive => GV_Variable counter
  | 3%positive => GV_Alias 2%positive
  | 4%positive => GV_Variable tls_slot
  | 5%positive => GV_Variable counter_ptr
  | _ => GV_Function
  end.

Definition unit_engine : Engine :=
  {| TheModule := unit_module; getPointerToNamedFunction := fun _ _ => 0 |}.

Definition unit_fresh (heap : list Z) : Emitter := Emitter_new unit_engine sample_TM heap.

(** The emitter of [unit_engine] after [counter] and after [tls] got their
    slots. *)
Definition with_counter : Emitter :=
  state_or (getGlobalVariableAddress 1 2%positive (unit_fresh [])) (unit_fresh []).

Definition with_tls : Emitter :=
  state_or (getGlobalVariableAddress 1 4%positive (unit_fresh [])) (unit_fresh []).

(** Entries of sizes 3, 8, 2 with alignments 4, 8, 1. *)
Definition pool_aligned : MachineConstantPool :=
  {| getConstants :=
       [ {| getAlignment := 4; isMachineConstantPoolEntry := false; getTypeAllocSize := 3 |};
         {| getAlignment := 8; isMachineConstantPoolEntry := false; getTypeAllocSize := 8 |};
         {| getAlignment := 1; isMachineConstantPoolEntry := false; getTypeAllocSize := 2 |} ];
     getConstantPoolAlignment := 8 |}.

Definition pool_machine : MachineConstantPool :=
  {| getConstants :=
       [ {| getAlignment := 4; isMachineConstantPoolEntry := true; getTypeAllocSize := 4 |} ];
     getConstantPoolAlignment := 4 |}.

Definition function_with_tables : MachineFunction :=
  {| getFunction := 12%positive; getFunctionAlignment := 16; getConstantPool := no_pool;
     getJumpTableInfo := Some sample_tables |}.

Definition body_four_blocks : list Emission :=
  [StartMBB 0; EmitByte 1; StartMBB 1; EmitByte 2; StartMBB 2; EmitByte 3;
   StartMBB 3; EmitByte 0xC3].

(** The emitter inside a function with jump tables, all blocks emitted,
    before [finishFunction]. *)
Definition tables_emitted : Emitter :=
  emitter_or (s ← startFunction function_with_tables (fresh [0x10000]);
              emitInstructions body_four_blocks s) (fresh []).

(** Jump tables of 32-bit entries relative to the start of their table. *)
Definition relative_tables : MachineJumpTableInfo :=
  {| getEntryKind := EK_LabelDifference32;
     getJumpTables := [[0; 1; 2]; [1; 3]]%nat;
     getEntrySize := 4; getEntryAlignment := 4 |}.

(** The four blocks again, the first one reading its target from jump
    table 1. *)
Definition body_switch : list Emission :=
  [StartMBB 0; EmitByte 0xFF; AddRelocation (reloc (isJumpTableIndex 1));
   StartMBB 1; EmitByte 2; StartMBB 2; EmitByte 3; StartMBB 3; EmitByte 0xC3].

(** Two jump tables of one block each, and a function that has them. *)
Definition small_tables : MachineJumpTableInfo :=
  {| getEntryKind := EK_BlockAddress;
     getJumpTables := [[0]; [0]]%nat;
     getEntrySize := 8; getEntryAlignment := 8 |}.

Definition function_with_small_tables : MachineFunction :=
  {| getFunction := 13%positive; getFunctionAlignment := 16; getConstantPool := no_pool;
     getJumpTableInfo := Some small_tables |}.

Definition body_one_block : list Emission := [StartMBB 0; EmitByte 0xC3].

(** The emitter inside the function that calls [puts], before
    [finishFunction]. *)
Definition call_emitted : Emitter :=
  emitter_or (emitInstructions body_call_puts open_buffer) open_buffer.

Definition reloc_for_target (target : RelocationTarget) : MachineRelocation :=
  {| getMachineCodeOffset := 1; letTargetResolve := true; mayNeedFarStub := false;
     getTarget := target |}.

(** A unit whose one relocation is left to the target. *)
Definition unit_target_resolved : Emitter :=
  emitter_or (runOnMachineFunction 1 (sample_function 10%positive no_pool)
                [StartMBB 0; EmitByte 0xE8;
                 AddRelocation (reloc_for_target (isExternalSymbol "puts"));
                 EmitByte 0xC3]
                (fresh [0x10000])) (fresh []).

(** A unit of one function that refers to [counter], to a function and to
    its own first block. *)
Definition unit_using_counter : Emitter :=
  emitter_or (runOnMachineFunction 1 (sample_function 10%positive no_pool)
                [StartMBB 0; EmitByte 0xA1;
                 AddRelocation (reloc (isGlobalValue 2%positive));
                 AddRelocation (reloc (isGlobalValue 9%positive));
                 AddRelocation (reloc (isBasicBlock 0));
                 EmitByte 0xC3]
                (unit_fresh [0x10000])) (unit_fresh []).

(** An emitter on a reallocation attempt: the size estimate is 16 bytes. *)
Definition retrying (heap : list Z) : Emitter := set_SizeEstimate 16 (fresh heap).

(** A body of a label, a block, a relocation and 16 bytes of code: it fills
    a buffer of 16 bytes. *)
Definition body_sixteen : list Emission :=
  EmitLabel 7%positive :: StartMBB 0 :: AddRelocation (reloc (isBasicBlock 0)) ::
  replicate 16 (EmitByte 0x90).

(** The emitter inside the attempt at [body_sixteen] in a buffer of 16
    bytes, before [finishFunction]. *)
Definition filled_buffer : Emitter :=
  emitter_or (s ← startFunction (sample_function 10%positive no_pool)
                    (retrying [0x10000; 0x20000]);
              emitInstructions body_sixteen s) (fresh []).

(** ** Properties: machine integers and the tag *)

(** Case split on the test of the first conditional of the goal. *)
Ltac case_if :=
  match goal with |- context [if ?c then _ else _] => destruct c end.

Ltac case_if_eq H :=
  match goal with |- context [if ?c then _ else _] => destruct c eqn:H end.


Lemma wrap_small (bits x : Z) : 0 <= x < 2 ^ bits -> wrap bits x = x.
Proof. intros H. unfold wrap. apply Z.mod_small. exact H. Qed.

Lemma u32_small (x : Z) : 0 <= x < 2 ^ 32 -> u32 x = x.
Proof. apply wrap_small. Qed.

Lemma marker_low_bits (n : Z) : 0 <= n < 24 -> Z.testbit 0xDA000000 n = false.
Proof.
  intros H. change 0xDA000000 with (Z.shiftl 0xDA 24).
  apply Z.shiftl_spec_low. lia.
Qed.

Lemma offset_high_bits (o n : Z) : 0 <= o < 2 ^ 24 -> 24 <= n -> Z.testbit o n = false.
Proof.
  intros Ho Hn. destruct (Z.eq_dec o 0) as [->|Hne].
  - apply Z.bits_0.
  - apply Z.bits_above_log2; [lia|].
    assert (Z.log2 o < 24) by (apply Z.log2_lt_pow2; lia). lia.
Qed.

(** Stripping the marker bits gives the offset back when the offset fits
    under the marker. *)
Lemma strip_marker (o : Z) : 0 <= o < 2 ^ 24 -> Z.ldiff (Z.lor o 0xDA000000) 0xDA000000 = o.
Proof.
  intros Ho. apply Z.bits_inj'. intros n Hn.
  rewrite Z.ldiff_spec, Z.lor_spec.
  destruct (Z_lt_dec n 24) as [Hlt|Hge].
  - rewrite marker_low_bits by lia. destruct (Z.testbit o n); reflexivity.
  - rewrite (offset_high_bits o n) by lia.
    destruct (Z.testbit 0xDA000000 n); reflexivity.
Qed.

(** Below 2^24 the offset leaves the top byte to the marker. *)
Lemma marker_top_byte (o : Z) : 0 <= o < 2 ^ 24 -> Z.shiftr (Z.lor o 0xDA000000) 24 = 0xDA.
Proof.
  intros Ho. rewrite Z.shiftr_lor, (Z.shiftr_div_pow2 o) by lia.
  rewrite Z.div_small by lia. reflexivity.
Qed.

(** Below 2^24 the low 24 bits of the address are the offset. *)
Lemma marker_low_part (o : Z) : 0 <= o < 2 ^ 24 -> Z.land (Z.lor o 0xDA000000) 0xFFFFFF = o.
Proof.
  intros Ho. change 0xFFFFFF with (Z.ones 24).
  apply Z.bits_inj'. intros n Hn. rewrite Z.land_spec, Z.lor_spec.
  destruct (Z_lt_dec n 24) as [Hlt|Hge].
  - rewrite marker_low_bits, Z.ones_spec_low by lia.
    destruct (Z.testbit o n); reflexivity.
  - rewrite (offset_high_bits o n), Z.ones_spec_high by lia.
    apply andb_false_r.
Qed.

(** ** Properties: the global address registry *)

Lemma getGlobalVariableAddress_found (fuel : nat) (V : ident) (s : Emitter) (offset : Z) :
  GlobalOffsets s !! V = Some offset ->
  getGlobalVariableAddress (S fuel) V s = Ok (Z.lor offset 0xDA000000, s).
Proof. intros H. simpl. rewrite H. reflexivity. Qed.

(** Whatever the initializers did, a call that returns has recorded the
    offset whose tagged form it returns. *)
Lemma getGlobalVariableAddress_records (fuel : nat) (V : ident) (s s1 : Emitter) (a : Z) :
  getGlobalVariableAddress fuel V s = Ok (a, s1) ->
  exists offset, GlobalOffsets s1 !! V = Some offset /\ a = Z.lor offset 0xDA000000.
Proof.
  destruct fuel as [|fuel]; [discriminate|]. simpl.
  destruct (GlobalOffsets s !! V) as [o|] eqn:Hfind.
  - intros [= <- <-]. eauto.
  - destruct (TheModule (engine s) V) as [GV| |]; try discriminate.
    destruct (isDeclaration GV || hasAvailableExternallyLinkage GV); [discriminate|].
    match goal with |- context [mbind _ ?r] => destruct r as [s2| |] end;
      try discriminate.
    simpl. intros [= <- <-]. eexists. split; [|reflexivity].
    simpl. apply lookup_insert_eq.
Qed.

Lemma InitializeMemory_stores_only (addressOf : ident -> Emitter -> result (Z * Emitter))
    (Init : Initializer) (Dest : nat) (s : Emitter) :
  stores_only Init = true ->
  exists s', InitializeMemory addressOf Init Dest s = Ok s'.
Proof.
  revert s. induction Init as [|off byte k IH|V k IH]; intros s Hs; simpl in *.
  - eauto.
  - apply IH. exact Hs.
  - discriminate.
Qed.

(** An initializer that only stores changes bytes of the arena from
    [Dest] on and nothing else. *)
Lemma InitializeMemory_stores_only_spec
    (addressOf : ident -> Emitter -> result (Z * Emitter))
    (Init : Initializer) (Dest : nat) (s : Emitter) :
  stores_only Init = true ->
  exists g,
    InitializeMemory addressOf Init Dest s = Ok (set_Globals g s) /\
    length g = length (Globals s) /\
    forall i, (i < Dest)%nat -> g !! i = Globals s !! i.
Proof.
  revert s. induction Init as [|off byte k IH|V k IH]; intros s Hs; simpl in *.
  - exists (Globals s). split; [destruct s; reflexivity|]. split; reflexivity.
  - destruct (IH (set_Globals (<[(Dest + off)%nat:=byte]> (Globals s)) s) Hs)
      as (g & Hrun & Hlen & Hlow).
    exists g. split; [exact Hrun|]. simpl in Hlen, Hlow. split.
    + rewrite Hlen. apply length_insert.
    + intros i Hi. rewrite Hlow by exact Hi. apply list_lookup_insert_ne. lia.
  - discriminate.
Qed.

(** A defined global without an offset, thread-local or with an
    initializer that only stores: the address is the rounded arena size
    or-ed with the marker, the arena ends after the new slot. *)
Lemma getGlobalVariableAddress_fresh (fuel : nat) (V : ident) (GV : GlobalVariable)
    (s : Emitter) :
  GlobalOffsets s !! V = None ->
  TheModule (engine s) V = GV_Variable GV ->
  isDefined GV = true ->
  isThreadLocal GV = true \/ stores_only (getInitializer GV) = true ->
  let offset := RoundUpToAlignment (Z.of_nat (length (Globals s))) (PreferredAlignment GV) in
  exists s1,
    getGlobalVariableAddress (S fuel) V s = Ok (Z.lor offset 0xDA000000, s1) /\
    GlobalOffsets s1 = <[V := offset]> (GlobalOffsets s) /\
    engine s1 = engine s /\
    length (Globals s1) = Z.to_nat (offset + TypeAllocSize GV).
Proof.
  intros Hfind HV Hdef Hinit offset. simpl. rewrite Hfind, HV.
  unfold isDefined in Hdef.
  destruct (isDeclaration GV || hasAvailableExternallyLinkage GV); [discriminate|].
  fold offset. unfold Globals_memset, Globals_set_size. simpl.
  destruct (isThreadLocal GV) eqn:Htl.
  - eexists. simpl. split; [reflexivity|]. simpl.
    split; [reflexivity|]. split; [reflexivity|].
    rewrite length_inserts, length_resize. reflexivity.
  - destruct Hinit as [?|Hinit]; [discriminate|].
    match goal with |- context [InitializeMemory ?f ?i ?d ?s0] =>
      destruct (InitializeMemory_stores_only_spec f i d s0 Hinit) as (g & Hrun & Hg & _) end.
    rewrite Hrun. simpl in Hg. eexists. simpl. split; [reflexivity|]. simpl.
    split; [reflexivity|]. split; [reflexivity|].
    rewrite Hg, length_inserts, length_resize. reflexivity.
Qed.

(** A defined global that is thread-local, or whose initializer only
    stores, gets its address at the first nesting level. *)
Lemma getGlobalVariableAddress_returns (V : ident) (GV : GlobalVariable) (s : Emitter) :
  TheModule (engine s) V = GV_Variable GV ->
  isDefined GV = true ->
  isThreadLocal GV = true \/ stores_only (getInitializer GV) = true ->
  exists a s1, getGlobalVariableAddress 1 V s = Ok (a, s1).
Proof.
  intros HV Hdef Hinit. simpl.
  destruct (GlobalOffsets s !! V); [eauto|].
  rewrite HV. unfold isDefined in Hdef.
  destruct (isDeclaration GV || hasAvailableExternallyLinkage GV); [discriminate|].
  destruct (isThreadLocal GV) eqn:Htl.
  - simpl. eauto.
  - destruct Hinit as [?|Hinit]; [discriminate|].
    match goal with |- context [InitializeMemory ?f ?i ?d ?s0] =>
      destruct (InitializeMemory_stores_only f i d s0 Hinit) as [s' ->] end.
    simpl. eauto.
Qed.

(** The initializer starts while the global is still absent from
    [GlobalOffsets], so a lookup of the same global from inside it starts
    over; this never ends. *)
Lemma InitializeMemory_first_lookup (addressOf : ident -> Emitter -> result (Z * Emitter))
    (V : ident) (Init : Initializer) (Dest : nat) (s : Emitter) :
  first_lookup Init = Some V ->
  (forall s', GlobalOffsets s' = GlobalOffsets s -> engine s' = engine s ->
     addressOf V s' = OutOfFuel) ->
  InitializeMemory addressOf Init Dest s = OutOfFuel.
Proof.
  revert s. induction Init as [|off byte k IH|W k IH]; intros s Hfirst Hcall; simpl in *.
  - discriminate.
  - apply IH; [exact Hfirst|]. intros s' HG HE. apply Hcall; assumption.
  - injection Hfirst as ->. rewrite Hcall by reflexivity. reflexivity.
Qed.

Lemma getGlobalVariableAddress_self_reference (fuel : nat) (V : ident)
    (GV : GlobalVariable) (s : Emitter) :
  GlobalOffsets s !! V = None ->
  TheModule (engine s) V = GV_Variable GV ->
  isDefined GV = true ->
  isThreadLocal GV = false ->
  first_lookup (getInitializer GV) = Some V ->
  getGlobalVariableAddress fuel V s = OutOfFuel.
Proof.
  revert s. induction fuel as [|fuel IH]; intros s Hfind HV Hdef Htl Hfirst; [reflexivity|].
  simpl. rewrite Hfind, HV. pose proof Hdef as Hdef'. unfold isDefined in Hdef'.
  destruct (isDeclaration GV || hasAvailableExternallyLinkage GV) eqn:Hd; [discriminate|].
  rewrite Htl.
  rewrite (InitializeMemory_first_lookup _ V); [reflexivity|exact Hfirst|].
  intros s' HG HE. apply IH; try assumption.
  - rewrite HG. exact Hfind.
  - rewrite HE. exact HV.
Qed.

(** ** Properties: what the buffer operations leave alone *)

Lemma kept_refl (s : Emitter) : kept s s.
Proof. unfold kept. repeat split. Qed.

Lemma kept_trans (s1 s2 s3 : Emitter) : kept s1 s2 -> kept s2 s3 -> kept s1 s3.
Proof. unfold kept. intros H1 H2. intuition congruence. Qed.

Lemma buffer_kept_trans (s1 s2 s3 : Emitter) :
  buffer_kept s1 s2 -> buffer_kept s2 s3 -> buffer_kept s1 s3.
Proof. unfold buffer_kept. intros H1 H2. intuition congruence. Qed.

Lemma emitAlignment_kept (Alignment : Z) (s : Emitter) :
  kept s (emitAlignment Alignment s) /\ buffer_kept s (emitAlignment Alignment s).
Proof. unfold kept, buffer_kept. repeat split. Qed.

Lemma std_malloc_kept (size : Z) (s : Emitter) : kept s (snd (std_malloc size s)).
Proof. unfold std_malloc. destruct (Heap s); unfold kept; repeat split. Qed.

Lemma allocateSpace_kept (Size Alignment : Z) (s : Emitter) :
  kept s (snd (allocateSpace Size Alignment s)).
Proof.
  unfold allocateSpace, memAllocateSpace, JITCodeEmitter_allocateSpace, std_malloc.
  destruct (BufferBegin s =? 0).
  - destruct (Heap s); unfold kept; repeat split.
  - case_if; unfold kept; repeat split.
Qed.

Lemma allocateSpace_pools (Size Alignment : Z) (s : Emitter) :
  let s' := snd (allocateSpace Size Alignment s) in
  ConstPoolAddresses s' = ConstPoolAddresses s /\
  ConstantPoolBase s' = ConstantPoolBase s /\ ConstantPool s' = ConstantPool s /\
  JumpTable s' = JumpTable s /\ JumpTableBase s' = JumpTableBase s.
Proof.
  unfold allocateSpace, memAllocateSpace, JITCodeEmitter_allocateSpace, std_malloc.
  destruct (BufferBegin s =? 0).
  - destruct (Heap s); repeat split.
  - case_if; repeat split.
Qed.

Lemma allocateSpace_open (Size Alignment : Z) (s : Emitter) :
  BufferBegin s <> 0 ->
  allocateSpace Size Alignment s = JITCodeEmitter_allocateSpace Size Alignment s.
Proof.
  intros H. unfold allocateSpace. apply Z.eqb_neq in H. rewrite H. reflexivity.
Qed.

Lemma allocateSpace_buffer_kept (Size Alignment : Z) (s : Emitter) :
  BufferBegin s <> 0 -> buffer_kept s (snd (allocateSpace Size Alignment s)).
Proof.
  intros H. rewrite allocateSpace_open by exact H.
  unfold JITCodeEmitter_allocateSpace.
  case_if; unfold buffer_kept; repeat split.
Qed.

(** ** Properties: constant pool *)

Lemma emitConstantPool_entries_kept (Constants : list MachineConstantPoolEntry)
    (s s' : Emitter) (Offset : Z) :
  emitConstantPool_entries s Constants Offset = Ok s' ->
  kept s s' /\ buffer_kept s s' /\ ConstantPoolBase s' = ConstantPoolBase s.
Proof.
  revert s Offset. induction Constants as [|CPE rest IH]; intros s Offset; simpl.
  - intros [= <-]. split; [apply kept_refl|]. unfold buffer_kept. auto.
  - destruct (isMachineConstantPoolEntry CPE); [discriminate|].
    intros H. apply IH in H. destruct H as (Hk & Hb & Hc).
    split; [|split].
    + eapply kept_trans; [|exact Hk]. unfold kept. repeat split.
    + eapply buffer_kept_trans; [|exact Hb]. unfold buffer_kept. repeat split.
    + rewrite Hc. reflexivity.
Qed.

Lemma emitConstantPool_entries_returns (Constants : list MachineConstantPoolEntry)
    (s : Emitter) (Offset : Z) :
  Forall (fun CPE => isMachineConstantPoolEntry CPE = false) Constants ->
  exists s', emitConstantPool_entries s Constants Offset = Ok s'.
Proof.
  intros H. revert s Offset. induction H as [|CPE rest Hm _ IH]; intros s Offset; simpl.
  - eauto.
  - rewrite Hm. apply IH.
Qed.

Lemma emitConstantPool_returns (MCP : MachineConstantPool) (s : Emitter) :
  plain_pool MCP -> exists s', emitConstantPool MCP s = Ok s'.
Proof.
  unfold plain_pool, emitConstantPool. intros H.
  destruct (getConstants MCP) as [|CPE rest]; [eauto|].
  destruct (allocateSpace _ _ s) as [p s1].
  case_if; [eauto|].
  apply emitConstantPool_entries_returns. exact H.
Qed.

Lemma emitConstantPool_kept (MCP : MachineConstantPool) (s s' : Emitter) :
  emitConstantPool MCP s = Ok s' ->
  kept s s' /\ (BufferBegin s <> 0 -> buffer_kept s s').
Proof.
  unfold emitConstantPool.
  destruct (getConstants MCP) as [|CPE rest] eqn:HC.
  - intros [= <-]. split; [apply kept_refl|]. unfold buffer_kept. auto.
  - pose proof (allocateSpace_kept (GetConstantPoolSizeInBytes MCP)
                  (getConstantPoolAlignment MCP) s) as Hk.
    pose proof (allocateSpace_buffer_kept (GetConstantPoolSizeInBytes MCP)
                  (getConstantPoolAlignment MCP) s) as Hb.
    destruct (allocateSpace _ _ s) as [p s1]. simpl in Hk, Hb.
    set (s2 := set_ConstantPool (Some MCP) (set_ConstantPoolBase p s1)).
    assert (H12 : kept s1 s2 /\ buffer_kept s1 s2)
      by (unfold kept, buffer_kept; repeat split).
    destruct H12 as [Hk2 Hb2].
    destruct (ConstantPoolBase s2 =? 0).
    + intros [= <-]. split; [eapply kept_trans; eassumption|].
      intros Hne. eapply buffer_kept_trans; [apply Hb, Hne|exact Hb2].
    + intros H. apply emitConstantPool_entries_kept in H. destruct H as (Hk3 & Hb3 & _).
      split; [apply (kept_trans s s2 s'); [apply (kept_trans s s1 s2)|]; assumption|].
      intros Hne. eapply buffer_kept_trans; [|exact Hb3].
      eapply buffer_kept_trans; [apply Hb, Hne|exact Hb2].
Qed.

(** C8 (as amended). For a constant pool whose entries have sizes {3,1} and
    alignments {4,1}, the size computed by [GetConstantPoolSizeInBytes] is
    exactly 4 bytes and [emitConstantPool] records the two entries at the
    offsets {0,3} from the base of the pool: the second entry has
    alignment 1, so its offset 3 is not rounded. *)
Theorem C8_pool_3_1_offsets_0_3 (MCP : MachineConstantPool) (s : Emitter) :
  map getTypeAllocSize (getConstants MCP) = [3; 1] ->
  map getAlignment (getConstants MCP) = [4; 1] ->
  map isMachineConstantPoolEntry (getConstants MCP) = [false; false] ->
  GetConstantPoolSizeInBytes MCP = 4 /\
  exists s', emitConstantPool MCP s = Ok s' /\
    (ConstantPoolBase s' <> 0 ->
     ConstPoolAddresses s' =
       ConstPoolAddresses s ++
         [uptr s (ConstantPoolBase s' + 0); uptr s (ConstantPoolBase s' + 3)]).
Proof.
  intros Hsize Halign Hmach.
  destruct (getConstants MCP) as [|e1 [|e2 [|e3 rest]]] eqn:HC; try discriminate.
  simpl in Hsize, Halign, Hmach.
  injection Hsize as Hs1 Hs2. injection Halign as Ha1 Ha2. injection Hmach as Hm1 Hm2.
  split.
  - unfold GetConstantPoolSizeInBytes. rewrite HC. simpl.
    rewrite Hs1, Hs2, Ha1, Ha2. reflexivity.
  - unfold emitConstantPool. rewrite HC.
    pose proof (allocateSpace_kept (GetConstantPoolSizeInBytes MCP)
                  (getConstantPoolAlignment MCP) s) as Hk.
    pose proof (allocateSpace_pools (GetConstantPoolSizeInBytes MCP)
                  (getConstantPoolAlignment MCP) s) as Hp.
    destruct (allocateSpace _ _ s) as [p s1]. simpl in Hk, Hp.
    destruct Hk as (_ & HTM & _). destruct Hp as (HCPA & _).
    case_if_eq Hbase.
    + eexists. split; [reflexivity|]. intros Hne. exfalso. apply Hne.
      apply Z.eqb_eq in Hbase. exact Hbase.
    + simpl. rewrite Hm1, Hm2, Hs1, Ha1, Ha2. simpl.
      eexists. split; [reflexivity|]. intros _. simpl.
      unfold uptr. simpl. rewrite HTM, HCPA, <- app_assoc. reflexivity.
Qed.

(** ** Properties: jump tables *)

(** The entry count of the loops is the number of block references, as
    long as it fits an [unsigned]. *)
Lemma count_entries (JT : list (list nat)) (acc : Z) :
  0 <= acc ->
  acc + Z.of_nat (length (concat JT)) < 2 ^ 32 ->
  fold_left (fun n MBBs => u32 (n + Z.of_nat (length MBBs))) JT acc =
    acc + Z.of_nat (length (concat JT)).
Proof.
  revert acc. induction JT as [|MBBs rest IH]; intros acc Hacc Hlt; simpl in *.
  - lia.
  - rewrite length_app in Hlt. rewrite u32_small by lia.
    rewrite IH by lia. rewrite length_app. lia.
Qed.

Lemma initJumpTableInfo_kept (MJTI : MachineJumpTableInfo) (s : Emitter) :
  kept s (initJumpTableInfo MJTI s) /\
  (BufferBegin s <> 0 -> buffer_kept s (initJumpTableInfo MJTI s)).
Proof.
  assert (Hrefl : kept s s /\ (BufferBegin s <> 0 -> buffer_kept s s))
    by (split; [apply kept_refl|unfold buffer_kept; auto]).
  unfold initJumpTableInfo.
  destruct (hasCustomJumpTables (TM s)); [exact Hrefl|].
  destruct (getJumpTables MJTI) as [|MBBs rest] eqn:HJT;
    [destruct (getEntryKind MJTI); exact Hrefl|].
  set (Size := u32 (_ * _)).
  pose proof (allocateSpace_kept Size (getEntryAlignment MJTI)
                (set_JumpTable (Some MJTI) s)) as Hk.
  pose proof (allocateSpace_buffer_kept Size (getEntryAlignment MJTI)
                (set_JumpTable (Some MJTI) s)) as Hb.
  destruct (allocateSpace Size (getEntryAlignment MJTI) (set_JumpTable (Some MJTI) s))
    as [p s1] eqn:Halloc.
  simpl in Hk, Hb.
  assert (Hres : kept s (set_JumpTableBase p s1) /\
                 (BufferBegin s <> 0 -> buffer_kept s (set_JumpTableBase p s1))).
  { split.
    - unfold kept in *. simpl in *. exact Hk.
    - intros Hne. specialize (Hb Hne). unfold buffer_kept in *. simpl in *. exact Hb. }
  destruct (getEntryKind MJTI); first [exact Hres | exact Hrefl].
Qed.

(** C9. Unless the target has its own jump tables or the entries are
    inline, [initJumpTableInfo] reserves in the open buffer exactly
    (number of block references of all the function's jump tables) x
    (entry size) bytes, starting at the aligned cursor, and needs no block
    location for it; [getJumpTableEntryAddress Index] is the jump-table
    base plus (number of block references of the tables before [Index]) x
    (entry size). The products are taken in the range of [unsigned] and
    the addresses in the range of a pointer. *)
Theorem C9_jump_table_size_and_entry_address (MJTI : MachineJumpTableInfo) (s : Emitter) :
  0 < getEntrySize MJTI ->
  (hasCustomJumpTables (TM s) = false ->
   getEntryKind MJTI <> EK_Inline ->
   getJumpTables MJTI <> [] ->
   BufferBegin s <> 0 ->
   forall N base,
     N = Z.of_nat (length (concat (getJumpTables MJTI))) * getEntrySize MJTI ->
     base = CurBufferPtr (emitAlignment (getEntryAlignment MJTI) s) ->
     N < 2 ^ 32 ->
     N < BufferEnd s - base ->
     JumpTable (initJumpTableInfo MJTI s) = Some MJTI /\
     JumpTableBase (initJumpTableInfo MJTI s) = base /\
     CurBufferPtr (initJumpTableInfo MJTI s) = base + N /\
     MBBLocations (initJumpTableInfo MJTI s) = MBBLocations s) /\
  (JumpTable s = Some MJTI ->
   forall Index preceding,
     (Index < length (getJumpTables MJTI))%nat ->
     preceding = Z.of_nat (length (concat (take Index (getJumpTables MJTI)))) ->
     preceding * getEntrySize MJTI < 2 ^ 32 ->
     0 <= JumpTableBase s ->
     JumpTableBase s + preceding * getEntrySize MJTI < 2 ^ PointerSizeInBits (TM s) ->
     getJumpTableEntryAddress Index s =
       Ok (JumpTableBase s + preceding * getEntrySize MJTI)).
Proof.
  intros Hsize. split.
  - intros Hcustom Hkind HJT Hopen N base -> -> HN Hfits.
    assert (Hcount :
      fold_left (fun n MBBs => u32 (n + Z.of_nat (length MBBs))) (getJumpTables MJTI) 0 =
      Z.of_nat (length (concat (getJumpTables MJTI)))).
    { rewrite count_entries; lia. }
    unfold initJumpTableInfo. rewrite Hcustom.
    destruct (getJumpTables MJTI) as [|MBBs rest] eqn:EJT; [congruence|].
    rewrite Hcount.
    rewrite u32_small by (split; [apply Z.mul_nonneg_nonneg; lia|exact HN]).
    rewrite allocateSpace_open by exact Hopen.
    unfold JITCodeEmitter_allocateSpace.
    change (emitAlignment (getEntryAlignment MJTI) (set_JumpTable (Some MJTI) s))
      with (set_JumpTable (Some MJTI) (emitAlignment (getEntryAlignment MJTI) s)).
    set (sa := emitAlignment (getEntryAlignment MJTI) s) in *.
    change (BufferEnd (set_JumpTable (Some MJTI) sa)) with (BufferEnd s).
    change (CurBufferPtr (set_JumpTable (Some MJTI) sa)) with (CurBufferPtr sa).
    destruct (BufferEnd s - CurBufferPtr sa <=? _) eqn:Hcmp;
      [apply Z.leb_le in Hcmp; lia|].
    destruct (getEntryKind MJTI); try congruence; repeat split.
  - intros HJT Index preceding HIndex -> Hprod Hbase Hptr.
    unfold getJumpTableEntryAddress. rewrite HJT.
    apply Nat.ltb_lt in HIndex. rewrite HIndex.
    assert (Hpre : 0 <= Z.of_nat (length (concat (take Index (getJumpTables MJTI))))) by lia.
    rewrite count_entries by nia.
    rewrite Z.add_0_l.
    rewrite u32_small by (split; [apply Z.mul_nonneg_nonneg; lia|exact Hprod]).
    unfold uptr. rewrite wrap_small; [reflexivity|].
    split; [|exact Hptr]. apply Z.add_nonneg_nonneg; [exact Hbase|].
    apply Z.mul_nonneg_nonneg; lia.
Qed.

(** ** Properties: starting and finishing a function *)

Lemma std_malloc_spec (size : Z) (s : Emitter) :
  fst (std_malloc size s) = hd 0 (Heap s) /\ kept s (snd (std_malloc size s)) /\
  buffer_kept s (snd (std_malloc size s)).
Proof.
  unfold std_malloc. destruct (Heap s); simpl; unfold kept, buffer_kept; repeat split.
Qed.

(** The size of the buffer an attempt opens. *)
Lemma startFunction_inv (F : MachineFunction) (s s' : Emitter) :
  startFunction F s = Ok s' ->
  MBBLocations s' = [] /\
  LabelLocations s' = LabelLocations s /\
  SizeEstimate s' = SizeEstimate s /\
  (exists code,
     EmittedFunctions s' !! getFunction F = Some code /\
     Relocations code =
       Relocations (default EmittedCode_default (EmittedFunctions s !! getFunction F))) /\
  (hd 0 (Heap s) <> 0 ->
   BufferBegin s' = hd 0 (Heap s) /\
   BufferEnd s' - BufferBegin s' =
     if 0 <? SizeEstimate s then SizeEstimate s else 0x1000).
Proof.
  unfold startFunction, startFunctionBody.
  set (ActualSize := if (if 0 <? SizeEstimate s then SizeEstimate s else 0) =? 0
                     then 0x1000
                     else if 0 <? SizeEstimate s then SizeEstimate s else 0).
  assert (HAS : ActualSize = if 0 <? SizeEstimate s then SizeEstimate s else 0x1000).
  { subst ActualSize. destruct (0 <? SizeEstimate s) eqn:Hpos; [|reflexivity].
    apply Z.ltb_lt in Hpos. destruct (SizeEstimate s =? 0) eqn:Hz; [|reflexivity].
    apply Z.eqb_eq in Hz. lia. }
  destruct (std_malloc_spec ActualSize s) as (Hp & Hk0 & Hb0).
  destruct (std_malloc ActualSize s) as [p s0]. simpl in Hp, Hk0, Hb0. subst p.
  set (p := hd 0 (Heap s)) in *.
  set (F_ := getFunction F).
  match goal with |- context [emitConstantPool _ ?sa] => set (sA := sa) end.
  assert (HkA : BufferBegin sA = p /\ BufferEnd sA = p + ActualSize /\
                LabelLocations sA = LabelLocations s0 /\
                SizeEstimate sA = SizeEstimate s0).
  { repeat split. }
  destruct HkA as (HbA & HeA & HlA & HsA).
  destruct (emitConstantPool (getConstantPool F) sA) as [sB| |] eqn:HCP; try discriminate.
  apply emitConstantPool_kept in HCP. destruct HCP as [HkB HbB].
  simpl.
  set (sC := match getJumpTableInfo F with
             | Some MJTI => initJumpTableInfo MJTI sB
             | None => sB
             end).
  assert (HC : kept sB sC /\ (BufferBegin sB <> 0 -> buffer_kept sB sC)).
  { subst sC. destruct (getJumpTableInfo F) as [MJTI|].
    - apply initJumpTableInfo_kept.
    - split; [apply kept_refl|unfold buffer_kept; auto]. }
  destruct HC as [HkC HbC].
  intros [= <-]. simpl.
  destruct HkB as (_ & _ & HsB & _ & HlB & HeB & _).
  destruct HkC as (_ & _ & HsC & _ & HlC & HeC & _).
  destruct Hk0 as (_ & _ & Hs0 & _ & Hl0 & He0 & _).
  split; [reflexivity|]. split; [congruence|]. split; [congruence|]. split.
  - rewrite lookup_alter_eq, HeC, HeB. subst sA. simpl.
    unfold update_code. simpl.
    rewrite !lookup_alter_eq, lookup_insert_eq. simpl.
    eexists. split; [reflexivity|]. simpl. rewrite He0. reflexivity.
  - intros Hne.
    assert (HneA : BufferBegin sA <> 0) by congruence.
    destruct (HbB HneA) as [HbB1 HbB2].
    assert (HneB : BufferBegin sB <> 0) by congruence.
    destruct (HbC HneB) as [HbC1 HbC2].
    split; [congruence|].
    rewrite HbC1, HbC2, HbB1, HbB2, HbA, HeA, HAS. lia.
Qed.

Lemma startFunction_returns (F : MachineFunction) (s : Emitter) :
  plain_pool (getConstantPool F) -> exists s', startFunction F s = Ok s'.
Proof.
  intros Hplain. unfold startFunction, startFunctionBody.
  destruct (std_malloc _ s) as [p s0].
  match goal with |- context [emitConstantPool _ ?sa] =>
    destruct (emitConstantPool_returns (getConstantPool F) sa Hplain) as [sB ->] end.
  simpl. eauto.
Qed.

Lemma emitJumpTable_slots_effects (entry : Z -> Z) (width : Z) (MBBs : list nat)
    (SlotPtr SlotPtr' : Z) (s s' : Emitter) :
  emitJumpTable_slots entry width MBBs SlotPtr s = Ok (SlotPtr', s') ->
  exists effs, s' = set_Effects effs s.
Proof.
  revert SlotPtr s. induction MBBs as [|MBB rest IH]; intros SlotPtr s; simpl.
  - intros [= _ <-]. exists (Effects s). destruct s; reflexivity.
  - destruct (getMachineBasicBlockAddress MBB s) as [a| |]; try discriminate. simpl.
    intros H. apply IH in H. destruct H as [effs ->]. exists effs. reflexivity.
Qed.

Lemma emitJumpTable_tables_effects (entry : Z -> Z -> Z) (width : Z) (JT : list (list nat))
    (SlotPtr : Z) (s s' : Emitter) :
  emitJumpTable_tables entry width JT SlotPtr s = Ok s' ->
  exists effs, s' = set_Effects effs s.
Proof.
  revert SlotPtr s. induction JT as [|MBBs rest IH]; intros SlotPtr s; simpl.
  - intros [= <-]. exists (Effects s). destruct s; reflexivity.
  - destruct (emitJumpTable_slots (entry SlotPtr) width MBBs SlotPtr s)
      as [[p s1]| |] eqn:Hslots; try discriminate. simpl.
    apply emitJumpTable_slots_effects in Hslots. destruct Hslots as [e1 ->].
    intros H. apply IH in H. destruct H as [effs ->]. exists effs. reflexivity.
Qed.

(** Filling the jump table only stores through [SlotPtr]: the cursor and
    every table of the emitter are as before. *)
Lemma emitJumpTableInfo_effects (MJTI : MachineJumpTableInfo) (s s' : Emitter) :
  emitJumpTableInfo MJTI s = Ok s' -> exists effs, s' = set_Effects effs s.
Proof.
  assert (Hid : exists effs, s = set_Effects effs s)
    by (exists (Effects s); destruct s; reflexivity).
  unfold emitJumpTableInfo.
  destruct (hasCustomJumpTables (TM s)); [intros [= <-]; exact Hid|].
  destruct (bool_decide (getJumpTables MJTI = []) || (JumpTableBase s =? 0));
    [intros [= <-]; exact Hid|].
  destruct (getEntryKind MJTI); try discriminate;
    try (intros [= <-]; exact Hid);
    case_if; try discriminate; apply emitJumpTable_tables_effects.
Qed.

Lemma retryWithMoreMemory_spec (F : MachineFunction) (s : Emitter) :
  let s' := retryWithMoreMemory F s in
  SizeEstimate s' = uptr s (2 * (BufferEnd s - BufferBegin s)) /\
  EmittedFunctions s' !! getFunction F = None /\
  ConstPoolAddresses s' = [] /\
  LabelLocations s' = LabelLocations s /\
  MBBLocations s' = MBBLocations s.
Proof.
  unfold retryWithMoreMemory, deallocateMemForFunction, deallocateFunctionBody. simpl.
  destruct (EmittedFunctions s !! getFunction F) eqn:Hfind; simpl.
  - repeat split. apply lookup_delete_eq.
  - repeat split. exact Hfind.
Qed.

(** What a returning [finishFunction] has done, by its answer. *)
Lemma finishFunction_inv (F : MachineFunction) (s s1 : Emitter) (again : bool) :
  finishFunction F s = Ok (again, s1) ->
  LabelLocations s1 = LabelLocations s /\
  ConstPoolAddresses s1 = [] /\
  if again then
    CurBufferPtr s = BufferEnd s /\
    SizeEstimate s1 = uptr s (2 * (BufferEnd s - BufferBegin s)) /\
    EmittedFunctions s1 !! getFunction F = None
  else
    CurBufferPtr s <> BufferEnd s /\
    SizeEstimate s1 = 0 /\ BufferBegin s1 = 0 /\ CurBufferPtr s1 = 0 /\
    MBBLocations s1 = MBBLocations s.
Proof.
  unfold finishFunction, endFunctionBody.
  destruct (CurBufferPtr s =? BufferEnd s) eqn:Hfull.
  - intros [= <- <-]. apply Z.eqb_eq in Hfull.
    destruct (retryWithMoreMemory_spec F s) as (H1 & H2 & H3 & H4 & _).
    repeat split; assumption.
  - apply Z.eqb_neq in Hfull.
    destruct (match getJumpTableInfo F with
              | Some MJTI => emitJumpTableInfo MJTI s
              | None => Ok s
              end) as [s2| |] eqn:HJT; try discriminate.
    assert (Hs2 : exists effs, s2 = set_Effects effs s).
    { destruct (getJumpTableInfo F) as [MJTI|].
      - eapply emitJumpTableInfo_effects. exact HJT.
      - injection HJT as <-. exists (Effects s). destruct s; reflexivity. }
    destruct Hs2 as [effs ->]. simpl.
    unfold set_CurrentCode_Size. simpl.
    destruct (CurrentCode s) as [f|]; try discriminate.
    destruct (EmittedFunctions s !! f) as [code|]; try discriminate. simpl.
    apply Z.eqb_neq in Hfull. rewrite Hfull. apply Z.eqb_neq in Hfull.
    intros [= <- <-]. repeat split. exact Hfull.
Qed.

(** C6. With no overflow estimate pending ([SizeEstimate] is 0) an attempt
    opens a buffer of 4096 bytes, and with one pending a buffer of that
    size; [finishFunction] on a full buffer asks for a retry and sets the
    estimate to twice the size of the buffer of the attempt; when
    [finishFunction] succeeds the estimate is 0 again. *)
Theorem C6_buffer_size_estimate (F : MachineFunction) (s : Emitter) :
  (plain_pool (getConstantPool F) -> hd 0 (Heap s) <> 0 ->
   exists s', startFunction F s = Ok s' /\
     (SizeEstimate s = 0 -> BufferEnd s' - BufferBegin s' = 4096) /\
     (0 < SizeEstimate s -> BufferEnd s' - BufferBegin s' = SizeEstimate s)) /\
  (CurBufferPtr s = BufferEnd s ->
   0 <= 2 * (BufferEnd s - BufferBegin s) < 2 ^ PointerSizeInBits (TM s) ->
   exists s', finishFunction F s = Ok (true, s') /\
     SizeEstimate s' = 2 * (BufferEnd s - BufferBegin s)) /\
  (forall s', finishFunction F s = Ok (true, s') ->
   0 <= 2 * (BufferEnd s - BufferBegin s) < 2 ^ PointerSizeInBits (TM s) ->
   SizeEstimate s' = 2 * (BufferEnd s - BufferBegin s)) /\
  (forall s', finishFunction F s = Ok (false, s') -> SizeEstimate s' = 0).
Proof.
  split; [|split; [|split]].
  - intros Hplain Hheap.
    destruct (startFunction_returns F s Hplain) as [s' Hstart].
    exists s'. split; [exact Hstart|].
    apply startFunction_inv in Hstart.
    destruct Hstart as (_ & _ & _ & _ & Hbuf).
    destruct (Hbuf Hheap) as [_ Hsize]. split.
    + intros Hz. rewrite Hsize, Hz. reflexivity.
    + intros Hpos. rewrite Hsize. apply Z.ltb_lt in Hpos. rewrite Hpos. reflexivity.
  - intros Hfull Hrange.
    assert (Hfin : finishFunction F s = Ok (true, retryWithMoreMemory F s)).
    { unfold finishFunction. apply Z.eqb_eq in Hfull. rewrite Hfull. reflexivity. }
    eexists. split; [exact Hfin|].
    apply finishFunction_inv in Hfin. destruct Hfin as (_ & _ & _ & Hest & _).
    rewrite Hest. apply wrap_small. exact Hrange.
  - intros s' Hfin Hrange.
    apply finishFunction_inv in Hfin. destruct Hfin as (_ & _ & _ & Hest & _).
    rewrite Hest. apply wrap_small. exact Hrange.
  - intros s' Hfin.
    apply finishFunction_inv in Hfin. destruct Hfin as (_ & _ & _ & Hest & _).
    exact Hest.
Qed.

(** C7 (as amended). After an attempt that overflowed, the next
    [startFunction] of the same function begins with an empty block-location
    table and with an empty relocation list in a fresh [EmittedCode]: no
    relocation and no block location of the discarded attempt is left. The
    label locations are not cleared: they are what they were at the end of
    the discarded attempt. *)
Theorem C7_retry_discards_relocations_and_blocks (F : MachineFunction)
    (s s1 s2 : Emitter) :
  finishFunction F s = Ok (true, s1) ->
  startFunction F s1 = Ok s2 ->
  MBBLocations s2 = [] /\
  (exists code, EmittedFunctions s2 !! getFunction F = Some code /\
                Relocations code = []) /\
  LabelLocations s2 = LabelLocations s.
Proof.
  intros Hfin Hstart.
  apply finishFunction_inv in Hfin. destruct Hfin as (Hlab & _ & _ & _ & Hgone).
  apply startFunction_inv in Hstart.
  destruct Hstart as (Hmbb & Hlab2 & _ & (code & Hcode & Hrel) & _).
  split; [exact Hmbb|]. split.
  - exists code. split; [exact Hcode|]. rewrite Hrel, Hgone. reflexivity.
  - congruence.
Qed.

(** ** Properties: the registry, as the claims state them *)

(** C5 (as amended). Once [getGlobalVariableAddress] has returned an
    address for a global, the global has an offset in the registry, the
    address is that offset or-ed with 0xDA000000, and every later call
    returns the same address and leaves the emitter as it is, and so does
    [getGlobalAddress]. The top byte of the address is the marker byte 0xDA
    or-ed with the bits of the offset from bit 24 on: it is exactly 0xDA,
    and the low 24 bits are the offset, when the offset is below 2^24. For
    a defined global that is thread-local or whose initializer only stores,
    the first call does return. *)
Theorem C5_addressOf_idempotent_and_tagged (V : ident) (s : Emitter) :
  (forall fuel a s1,
     getGlobalVariableAddress fuel V s = Ok (a, s1) ->
     exists offset,
       GlobalOffsets s1 !! V = Some offset /\
       a = Z.lor offset 0xDA000000 /\
       getGlobalAddress V s1 = Ok a /\
       (forall fuel', getGlobalVariableAddress (S fuel') V s1 = Ok (a, s1)) /\
       Z.shiftr a 24 = Z.lor (Z.shiftr offset 24) 0xDA /\
       (0 <= offset < 2 ^ 24 -> Z.shiftr a 24 = 0xDA /\ Z.land a 0xFFFFFF = offset)) /\
  (forall GV,
     TheModule (engine s) V = GV_Variable GV ->
     isDefined GV = true ->
     isThreadLocal GV = true \/ stores_only (getInitializer GV) = true ->
     exists a s1, getGlobalVariableAddress 1 V s = Ok (a, s1)).
Proof.
  split.
  - intros fuel a s1 Hcall.
    apply getGlobalVariableAddress_records in Hcall.
    destruct Hcall as (offset & Hfind & ->).
    exists offset. split; [exact Hfind|]. split; [reflexivity|]. split; [|split; [|split]].
    + unfold getGlobalAddress. rewrite Hfind. reflexivity.
    + intros fuel'. apply getGlobalVariableAddress_found. exact Hfind.
    + rewrite Z.shiftr_lor. reflexivity.
    + intros Hlow. split; [apply marker_top_byte|apply marker_low_part]; exact Hlow.
  - intros GV HV Hdef Hinit. eapply getGlobalVariableAddress_returns; eassumption.
Qed.

(** C10. The address of a global, found in the registry or just assigned,
    is its arena offset or-ed with 0xDA000000. Offsets below 2^24 are told apart by their addresses and
    come back when the marker bits are cleared; the offsets 0x02000000 and
    0x0A000000, which overlap the marker, give one and the same address. *)
Theorem C10_tagged_address_is_offset_or_marker (s : Emitter) (V1 V2 : ident) (o1 o2 : Z) :
  GlobalOffsets s !! V1 = Some o1 ->
  GlobalOffsets s !! V2 = Some o2 ->
  (getGlobalAddress V1 s = Ok (Z.lor o1 0xDA000000) /\
   (forall fuel, getGlobalVariableAddress (S fuel) V1 s = Ok (Z.lor o1 0xDA000000, s)) /\
   forall fuel V s0 a s1,
     getGlobalVariableAddress fuel V s0 = Ok (a, s1) ->
     exists offset, GlobalOffsets s1 !! V = Some offset /\ a = Z.lor offset 0xDA000000) /\
  (0 <= o1 < 2 ^ 24 -> 0 <= o2 < 2 ^ 24 ->
   (getGlobalAddress V1 s = getGlobalAddress V2 s <-> o1 = o2) /\
   Z.ldiff (Z.lor o1 0xDA000000) 0xDA000000 = o1) /\
  (let s' := set_GlobalOffsets (<[1%positive := 0x02000000]>
                                 (<[2%positive := 0x0A000000]> ∅)) s in
   2 ^ 24 <= 0x02000000 /\
   getGlobalAddress 1%positive s' = getGlobalAddress 2%positive s').
Proof.
  intros H1 H2. split; [|split].
  - split; [|split].
    + unfold getGlobalAddress. rewrite H1. reflexivity.
    + intros fuel. apply getGlobalVariableAddress_found. exact H1.
    + intros fuel V s0 a s1. apply getGlobalVariableAddress_records.
  - intros Hb1 Hb2. split; [|apply strip_marker; exact Hb1].
    unfold getGlobalAddress. rewrite H1, H2. split.
    + intros [= Heq].
      rewrite <- (strip_marker o1 Hb1), <- (strip_marker o2 Hb2), Heq. reflexivity.
    + intros ->. reflexivity.
  - split; [lia|]. reflexivity.
Qed.

(** C2, on the code. A fresh defined global gets its slot, then the
    initializer runs on a state in which the global has no offset yet, and
    only the state the initializer returns receives the mapping: the
    mapping is not recorded before the initializer is called. So the
    look-up an initializer makes of its own global does not find an
    assigned address, starts the allocation over, and the call returns at
    no nesting depth; a call that does return has recorded the offset it
    answers with. *)
Theorem C2_offset_recorded_after_initializer (V : ident) (GV : GlobalVariable)
    (s : Emitter) :
  GlobalOffsets s !! V = None ->
  TheModule (engine s) V = GV_Variable GV ->
  isDefined GV = true ->
  isThreadLocal GV = false ->
  (let offset := RoundUpToAlignment (Z.of_nat (length (Globals s))) (PreferredAlignment GV) in
   let s_slot := Globals_memset offset 0 (TypeAllocSize GV)
                   (Globals_set_size (offset + TypeAllocSize GV) s) in
   GlobalOffsets s_slot !! V = None /\
   forall fuel,
     getGlobalVariableAddress (S fuel) V s =
       (s' ← InitializeMemory (getGlobalVariableAddress fuel) (getInitializer GV)
               (Z.to_nat offset) s_slot;
        Ok (Z.lor offset 0xDA000000,
            set_GlobalOffsets (<[V := offset]> (GlobalOffsets s')) s'))) /\
  (first_lookup (getInitializer GV) = Some V ->
   forall fuel, getGlobalVariableAddress fuel V s = OutOfFuel) /\
  (forall fuel a s1,
     getGlobalVariableAddress fuel V s = Ok (a, s1) ->
     exists offset, GlobalOffsets s1 !! V = Some offset /\ a = Z.lor offset 0xDA000000).
Proof.
  intros Hfind HV Hdef Htl. split; [|split].
  - split; [exact Hfind|]. intros fuel. simpl. rewrite Hfind, HV.
    unfold isDefined in Hdef.
    destruct (isDeclaration GV || hasAvailableExternallyLinkage GV); [discriminate|].
    rewrite Htl. reflexivity.
  - intros Hfirst fuel.
    eapply getGlobalVariableAddress_self_reference; eassumption.
  - intros fuel a s1. apply getGlobalVariableAddress_records.
Qed.

(** ** Properties: resolving the relocations *)

Lemma resolveRelocation_external (fuel : nat) (MR : MachineRelocation) (s : Emitter)
    (name : string) :
  letTargetResolve MR = false ->
  getTarget MR = isExternalSymbol name ->
  resolveRelocation fuel MR s = Fatal Abort.
Proof. intros Hltr Hkind. unfold resolveRelocation. rewrite Hltr, Hkind. reflexivity. Qed.

Lemma resolveRelocation_list_external (fuel : nat) (MRs : list MachineRelocation)
    (MR : MachineRelocation) (name : string) (s : Emitter) :
  In MR MRs ->
  letTargetResolve MR = false ->
  getTarget MR = isExternalSymbol name ->
  is_Ok (resolveRelocation_list fuel MRs s) = false.
Proof.
  intros Hin Hltr Hkind. revert s.
  induction MRs as [|MR0 rest IH]; intros s; [destruct Hin|].
  simpl. destruct Hin as [->|Hin].
  - rewrite (resolveRelocation_external fuel MR s name Hltr Hkind). reflexivity.
  - destruct (resolveRelocation fuel MR0 s) as [[MR0' s0]| |]; try reflexivity.
    simpl. specialize (IH Hin s0).
    destruct (resolveRelocation_list fuel rest s0) as [[rest' s1]| |];
      [discriminate|reflexivity|reflexivity].
Qed.

Lemma resolveRelocations_loop_fails (fuel : nat) (codes : list (ident * EmittedCode))
    (F : ident) (code : EmittedCode) (s : Emitter) :
  In (F, code) codes ->
  (forall s0, is_Ok (resolveRelocations_function fuel F code s0) = false) ->
  is_Ok (resolveRelocations_loop fuel codes s) = false.
Proof.
  intros Hin Hfail. revert s.
  induction codes as [|[F0 code0] rest IH]; intros s; [destruct Hin|].
  simpl. destruct Hin as [[= -> ->]|Hin].
  - specialize (Hfail s).
    destruct (resolveRelocations_function fuel F code s); [discriminate|reflexivity..].
  - destruct (resolveRelocations_function fuel F0 code0 s) as [s0| |]; try reflexivity.
    simpl. apply IH. exact Hin.
Qed.

(** C3 (as amended). An external-symbol relocation that the target does
    not resolve itself makes [resolveRelocations] abort when it is reached,
    before any lookup and whatever the symbol table holds: the pass never
    completes for a unit that has such a relocation, so the relocation is
    neither resolved nor patched. *)
Theorem C3_external_symbol_aborts (fuel : nat) (s : Emitter) (MR : MachineRelocation)
    (name : string) :
  letTargetResolve MR = false ->
  getTarget MR = isExternalSymbol name ->
  resolveRelocation fuel MR s = Fatal Abort /\
  forall F code,
    EmittedFunctions s !! F = Some code ->
    In MR (Relocations code) ->
    is_Ok (resolveRelocations fuel s) = false.
Proof.
  intros Hltr Hkind. split; [eapply resolveRelocation_external; eassumption|].
  intros F code Hfind Hin. unfold resolveRelocations.
  apply (resolveRelocations_loop_fails fuel _ F code).
  - apply list_elem_of_In, elem_of_map_to_list. exact Hfind.
  - intros s0. unfold resolveRelocations_function.
    destruct (Relocations code) as [|MR0 rest] eqn:HR; [destruct Hin|].
    pose proof (resolveRelocation_list_external fuel (MR0 :: rest) MR name s0
                  Hin Hltr Hkind) as Hfail.
    destruct (resolveRelocation_list fuel (MR0 :: rest) s0) as [[MRs s1]| |];
      [discriminate|reflexivity|reflexivity].
Qed.

(** ** The claims on sample units *)

Lemma C8_pool_3_1_witness :
  GetConstantPoolSizeInBytes pool_3_1 = 4 /\
  exists s', emitConstantPool pool_3_1 open_buffer = Ok s' /\
    (ConstantPoolBase s' <> 0 ->
     ConstPoolAddresses s' =
       ConstPoolAddresses open_buffer ++
         [uptr open_buffer (ConstantPoolBase s' + 0);
          uptr open_buffer (ConstantPoolBase s' + 3)]).
Proof.
  apply (C8_pool_3_1_offsets_0_3 pool_3_1 open_buffer); reflexivity.
Defined.

(** C8, the claim as stated: for sizes {3,1} and alignments {4,1} the code
    lays the entries out at {0,3} in 4 bytes, not at {0,4} in 5 or more. *)
Lemma C8_pool_3_1_counterexample :
  GetConstantPoolSizeInBytes pool_3_1 = 4 /\
  ~ 5 <= GetConstantPoolSizeInBytes pool_3_1 /\
  (s ← startFunction (sample_function 10%positive pool_3_1) (fresh [0x10000]);
   Ok (map (fun a => a - ConstantPoolBase s) (ConstPoolAddresses s))) = Ok [0; 3] /\
  (s ← startFunction (sample_function 10%positive pool_3_1) (fresh [0x10000]);
   Ok (map (fun a => a - ConstantPoolBase s) (ConstPoolAddresses s))) <> Ok [0; 4].
Proof.
  split; [reflexivity|]. split; [vm_compute; congruence|].
  split; [vm_compute; reflexivity|]. vm_compute. congruence.
Qed.

Lemma C9_jump_table_witness :
  let s := open_buffer in
  let s' := initJumpTableInfo sample_tables s in
  (BufferBegin s <> 0 /\ 5 * 8 < BufferEnd s - 0x10000) /\
  (JumpTable s' = Some sample_tables /\ JumpTableBase s' = 0x10000 /\
   CurBufferPtr s' = 0x10000 + 5 * 8 /\ MBBLocations s' = MBBLocations s) /\
  getJumpTableEntryAddress 1 s' = Ok (JumpTableBase s' + 3 * getEntrySize sample_tables).
Proof.
  intros s s'.
  assert (Hsize : 0 < getEntrySize sample_tables) by reflexivity.
  split; [split; [vm_compute; congruence|reflexivity]|]. split.
  - apply (proj1 (C9_jump_table_size_and_entry_address sample_tables s Hsize));
      first [reflexivity | discriminate | (vm_compute; congruence)].
  - apply (proj2 (C9_jump_table_size_and_entry_address sample_tables s' Hsize));
      first [reflexivity | (vm_compute; congruence) | (simpl; lia)].
Defined.

Lemma C6_buffer_size_witness :
  let F := sample_function 10%positive no_pool in
  (SizeEstimate (fresh [0x10000]) = 0 /\
   exists s', startFunction F (fresh [0x10000]) = Ok s' /\
              BufferEnd s' - BufferBegin s' = 4096) /\
  (CurBufferPtr full_buffer = BufferEnd full_buffer /\
   BufferEnd full_buffer - BufferBegin full_buffer = 4096 /\
   exists s', finishFunction F full_buffer = Ok (true, s') /\ SizeEstimate s' = 8192) /\
  (exists s' s'', finishFunction F open_buffer = Ok (false, s') /\ SizeEstimate s' = 0 /\
                  finishFunction F full_buffer = Ok (true, s'') /\ SizeEstimate s'' = 8192).
Proof.
  intros F.
  destruct (C6_buffer_size_estimate F (fresh [0x10000])) as (Hstart & _).
  destruct (C6_buffer_size_estimate F full_buffer) as (_ & Hfull & Hretry & _).
  destruct (C6_buffer_size_estimate F open_buffer) as (_ & _ & _ & Hdone).
  assert (Hcur : CurBufferPtr full_buffer = BufferEnd full_buffer)
    by (vm_compute; reflexivity).
  assert (Hrange : 0 <= 2 * (BufferEnd full_buffer - BufferBegin full_buffer)
                   < 2 ^ PointerSizeInBits (TM full_buffer))
    by (vm_compute; split; congruence).
  split; [|split].
  - split; [reflexivity|].
    assert (Hplain : plain_pool (getConstantPool F)) by (unfold plain_pool; constructor).
    assert (Hheap : hd 0 (Heap (fresh [0x10000])) <> 0) by (vm_compute; congruence).
    destruct (Hstart Hplain Hheap) as (s' & Hs' & Hfirst & _).
    exists s'. split; [exact Hs'|]. apply Hfirst. reflexivity.
  - split; [exact Hcur|]. split; [vm_compute; reflexivity|].
    destruct (Hfull Hcur Hrange) as (s' & Hs' & Hest).
    exists s'. split; [exact Hs'|]. rewrite Hest. vm_compute. reflexivity.
  - eexists. eexists.
    assert (Hfin : finishFunction F open_buffer =
                   Ok (false, state_or (finishFunction F open_buffer) open_buffer))
      by (vm_compute; reflexivity).
    assert (Hfin' : finishFunction F full_buffer =
                    Ok (true, state_or (finishFunction F full_buffer) full_buffer))
      by (vm_compute; reflexivity).
    split; [exact Hfin|]. split; [exact (Hdone _ Hfin)|].
    split; [exact Hfin'|]. rewrite (Hretry _ Hfin' Hrange). vm_compute. reflexivity.
Defined.

Lemma C7_retry_witness :
  let F := sample_function 10%positive no_pool in
  let s1 := state_or (finishFunction F full_buffer) full_buffer in
  let s2 := emitter_or (startFunction F s1) s1 in
  finishFunction F full_buffer = Ok (true, s1) /\
  startFunction F s1 = Ok s2 /\
  MBBLocations s2 = [] /\
  (exists code, EmittedFunctions s2 !! getFunction F = Some code /\
                Relocations code = []) /\
  LabelLocations s2 = LabelLocations full_buffer.
Proof.
  intros F s1 s2.
  assert (Hfin : finishFunction F full_buffer = Ok (true, s1))
    by (vm_compute; reflexivity).
  assert (Hstart : startFunction F s1 = Ok s2) by (vm_compute; reflexivity).
  split; [exact Hfin|]. split; [exact Hstart|].
  exact (C7_retry_discards_relocations_and_blocks F full_buffer s1 s2 Hfin Hstart).
Defined.

(** C7, the claim as stated: the label 7, recorded at 0x10000 in the first
    attempt (buffer at 0x10000, 4096 bytes, filled), is still in the label
    table when the second attempt has started in its buffer at 0x20000;
    the block and the relocation of the first attempt are gone. *)
Lemma C7_label_survives_counterexample :
  let F := sample_function 10%positive no_pool in
  (s ← startFunction F (fresh [0x10000; 0x20000]);
   s ← emitInstructions body_too_long s;
   '(again, s1) ← finishFunction F s;
   s2 ← startFunction F s1;
   Ok (LabelLocations s !! 7%positive, again, BufferBegin s2,
       LabelLocations s2 !! 7%positive, MBBLocations s2,
       Relocations <$> EmittedFunctions s2 !! 10%positive))
  = Ok (Some 0x10000, true, 0x20000, Some 0x10000, [], Some []).
Proof. vm_compute. reflexivity. Qed.

Lemma C5_addressOf_witness :
  let s := fresh [] in
  let s1 := state_or (getGlobalVariableAddress 1 2%positive s) s in
  getGlobalVariableAddress 1 2%positive s = Ok (0xDA000000, s1) /\
  (exists offset,
     GlobalOffsets s1 !! 2%positive = Some offset /\
     0xDA000000 = Z.lor offset 0xDA000000 /\
     getGlobalAddress 2%positive s1 = Ok 0xDA000000 /\
     (forall fuel', getGlobalVariableAddress (S fuel') 2%positive s1 = Ok (0xDA000000, s1)) /\
     Z.shiftr 0xDA000000 24 = Z.lor (Z.shiftr offset 24) 0xDA /\
     (0 <= offset < 2 ^ 24 ->
      Z.shiftr 0xDA000000 24 = 0xDA /\ Z.land 0xDA000000 0xFFFFFF = offset)) /\
  exists a s1', getGlobalVariableAddress 1 2%positive s = Ok (a, s1').
Proof.
  intros s s1.
  assert (Hcall : getGlobalVariableAddress 1 2%positive s = Ok (0xDA000000, s1))
    by (vm_compute; reflexivity).
  destruct (C5_addressOf_idempotent_and_tagged 2%positive s) as [Hsame Hreturns].
  split; [exact Hcall|]. split; [exact (Hsame 1%nat _ _ Hcall)|].
  apply (Hreturns counter); [reflexivity|reflexivity|right; reflexivity].
Defined.

(** C5, the claim as stated: in the unit of [scratch] and [counter],
    [scratch] gets the offset 0 and fills 16 MiB of the arena, so [counter]
    gets the offset 0x1000000; its address, the same at every call, is
    0xDB000000, and the top byte of that is 0xDB, not the marker. *)
Lemma C5_tag_byte_counterexample :
  exists s1 s2,
    getGlobalVariableAddress 1 1%positive (scratch_fresh []) = Ok (0xDA000000, s1) /\
    getGlobalVariableAddress 1 2%positive s1 = Ok (0xDB000000, s2) /\
    (forall fuel, getGlobalVariableAddress (S fuel) 2%positive s2 = Ok (0xDB000000, s2)) /\
    GlobalOffsets s2 !! 2%positive = Some 0x1000000 /\
    Z.shiftr 0xDB000000 24 = 0xDB /\
    Z.shiftr 0xDB000000 24 <> 0xDA.
Proof.
  destruct (getGlobalVariableAddress_fresh 0 1%positive scratch (scratch_fresh [])
              eq_refl eq_refl eq_refl (or_intror eq_refl))
    as (s1 & Hfirst & Hoff1 & Heng1 & Hlen1).
  assert (Hsize : Z.of_nat (length (Globals s1)) = 0x1000000).
  { rewrite Hlen1. apply Z2Nat.id. vm_compute. congruence. }
  assert (Hnone : GlobalOffsets s1 !! 2%positive = None).
  { rewrite Hoff1. rewrite lookup_insert_ne by congruence. reflexivity. }
  assert (HV : TheModule (engine s1) 2%positive = GV_Variable counter).
  { rewrite Heng1. reflexivity. }
  destruct (getGlobalVariableAddress_fresh 0 2%positive counter s1
              Hnone HV eq_refl (or_intror eq_refl))
    as (s2 & Hsecond & Hoff2 & _ & _).
  rewrite Hsize in Hsecond, Hoff2.
  assert (Hround : RoundUpToAlignment 0x1000000 (PreferredAlignment counter) = 0x1000000)
    by (vm_compute; reflexivity).
  rewrite Hround in Hsecond, Hoff2.
  assert (Hfound : GlobalOffsets s2 !! 2%positive = Some 0x1000000).
  { rewrite Hoff2. apply lookup_insert_eq. }
  exists s1, s2.
  split; [exact Hfirst|]. split; [exact Hsecond|]. split; [|split; [exact Hfound|]].
  - intros fuel.
    exact (getGlobalVariableAddress_found fuel 2%positive s2 0x1000000 Hfound).
  - split; [reflexivity|]. vm_compute. congruence.
Qed.

Lemma C10_tagged_address_witness :
  let s := set_GlobalOffsets (<[1%positive := 0]> (<[2%positive := 8]> ∅)) (fresh []) in
  (getGlobalAddress 1%positive s = Ok 0xDA000000 /\
   getGlobalAddress 2%positive s = Ok 0xDA000008) /\
  (getGlobalAddress 1%positive s = getGlobalAddress 2%positive s <-> 0 = 8) /\
  Z.ldiff (Z.lor 0 0xDA000000) 0xDA000000 = 0.
Proof.
  intros s.
  destruct (C10_tagged_address_is_offset_or_marker s 1%positive 2%positive 0 8)
    as (_ & Hlow & _); [reflexivity|reflexivity|].
  split; [split; reflexivity|]. apply Hlow; lia.
Defined.

Lemma C2_self_reference_witness :
  let s := fresh [] in
  (GlobalOffsets s !! 1%positive = None /\
   TheModule (engine s) 1%positive = GV_Variable self_pointer /\
   first_lookup (getInitializer self_pointer) = Some 1%positive) /\
  (forall fuel, getGlobalVariableAddress fuel 1%positive s = OutOfFuel) /\
  (forall fuel a s1,
     getGlobalVariableAddress fuel 1%positive s = Ok (a, s1) ->
     exists offset, GlobalOffsets s1 !! 1%positive = Some offset /\
                    a = Z.lor offset 0xDA000000).
Proof.
  intros s.
  destruct (C2_offset_recorded_after_initializer 1%positive self_pointer s)
    as (_ & Hloop & Hrec); try reflexivity.
  split; [repeat split|]. split; [apply Hloop; reflexivity|exact Hrec].
Defined.

(** The unit of C2: for [void *self = &self;] the lookup made from inside
    the initializer does not find an assigned address; the call does not
    return at any nesting depth, while the global [counter] of the same
    unit gets its address at once. *)
Lemma getGlobalVariableAddress_self_pointer :
  (~ exists fuel a s1,
       getGlobalVariableAddress fuel 1%positive (fresh []) = Ok (a, s1)) /\
  is_Ok (getGlobalVariableAddress 1 2%positive (fresh [])) = true.
Proof.
  split; [|reflexivity].
  intros (fuel & a & s1 & Hcall).
  rewrite (getGlobalVariableAddress_self_reference fuel 1%positive self_pointer) in Hcall;
    [discriminate|reflexivity..].
Qed.

Lemma C3_external_symbol_witness :
  let MR := reloc (isExternalSymbol "puts") in
  let code := default EmittedCode_default (EmittedFunctions unit_calling_puts !! 10%positive) in
  (EmittedFunctions unit_calling_puts !! 10%positive = Some code /\
   In MR (Relocations code)) /\
  resolveRelocation 1 MR unit_calling_puts = Fatal Abort /\
  is_Ok (resolveRelocations 1 unit_calling_puts) = false.
Proof.
  intros MR code.
  assert (Hfind : EmittedFunctions unit_calling_puts !! 10%positive = Some code)
    by (vm_compute; reflexivity).
  assert (Hin : In MR (Relocations code)) by (vm_compute; left; reflexivity).
  destruct (C3_external_symbol_aborts 1 unit_calling_puts MR "puts")
    as [Habort Hpass]; [reflexivity|reflexivity|].
  split; [split; assumption|]. split; [exact Habort|].
  exact (Hpass 10%positive code Hfind Hin).
Defined.

(** C3, the claim as stated: [puts] is in the symbol table of the engine,
    and the pass over the unit that calls it aborts all the same. *)
Lemma C3_known_symbol_counterexample :
  getPointerToNamedFunction sample_engine "puts" false = 0x7f0000001000 /\
  (s ← runOnMachineFunction 1 (sample_function 10%positive no_pool)
         body_call_puts (fresh [0x10000]);
   resolveRelocations 1 s) = Fatal Abort.
Proof. split; vm_compute; reflexivity. Qed.

(** A function that finished leaves no constant address behind. *)
Lemma getConstantPoolEntryAddress_after_finish (F : MachineFunction) (s s' : Emitter)
    (ConstantNum : nat) :
  finishFunction F s = Ok (false, s') ->
  is_Ok (getConstantPoolEntryAddress ConstantNum s') = false.
Proof.
  intros Hfin. apply finishFunction_inv in Hfin. destruct Hfin as (_ & Hnil & _).
  unfold getConstantPoolEntryAddress. rewrite Hnil.
  destruct (ConstantPool s') as [MCP|]; [|reflexivity].
  destruct (_ <? _)%nat; reflexivity.
Qed.

(** C1, on the code: the function loads its constant 0, which
    [emitConstantPool] put at 0x10000 and which can be looked up while the
    function is being emitted; [finishFunction] succeeds and clears the
    address list, and the pass that resolves the relocation afterwards
    indexes the empty list. *)
Theorem C1_constant_addresses_cleared_before_resolution :
  let F := sample_function 10%positive pool_one in
  (s ← startFunction F (fresh [0x10000]);
   s ← emitInstructions body_load_constant s;
   Ok (ConstPoolAddresses s, getConstantPoolEntryAddress 0 s))
  = Ok ([0x10000], Ok 0x10000) /\
  (s ← runOnMachineFunction 1 F body_load_constant (fresh [0x10000]);
   Ok (ConstPoolAddresses s, getConstantPoolEntryAddress 0 s))
  = Ok ([], Fatal (OutOfBounds "ConstPoolAddresses")) /\
  (s ← runOnMachineFunction 1 F body_load_constant (fresh [0x10000]);
   resolveRelocations 1 s) = Fatal (OutOfBounds "ConstPoolAddresses").
Proof. repeat split; vm_compute; reflexivity. Qed.

(** The location a block was given is what its lookup returns, while the
    table is not cleared. *)
Lemma getMachineBasicBlockAddress_recorded (MBB : nat) (s : Emitter) :
  CurBufferPtr s <> 0 ->
  getMachineBasicBlockAddress MBB (StartMachineBasicBlock MBB s) = Ok (CurBufferPtr s).
Proof.
  intros Hpc. unfold getMachineBasicBlockAddress, StartMachineBasicBlock. simpl.
  rewrite list_lookup_insert_eq.
  - apply Z.eqb_neq in Hpc. unfold getCurrentPCValue. rewrite Hpc. reflexivity.
  - destruct (length (MBBLocations s) <=? MBB)%nat eqn:Hlen.
    + rewrite length_resize. lia.
    + apply Nat.leb_gt in Hlen. exact Hlen.
Qed.

(** C4, on the code: function 10 jumps to its block 0, recorded at 0x10000
    in its buffer; resolved alone, the relocation gets 0x10000. When
    function 11 is emitted next (buffer at 0x20000, its block 0 at
    0x20002), the pass resolves the relocation of function 10 to 0x20002,
    the block of function 11. *)
Theorem C4_block_relocation_takes_last_function_table :
  let Fa := sample_function 10%positive no_pool in
  let Fb := sample_function 11%positive no_pool in
  (s ← runOnMachineFunction 1 Fa body_jump_to_entry (fresh [0x10000; 0x20000]);
   Ok (FunctionBody <$> EmittedFunctions s !! 10%positive,
       getMachineBasicBlockAddress 0 s))
  = Ok (Some 0x10000, Ok 0x10000) /\
  (s ← runOnMachineFunction 1 Fa body_jump_to_entry (fresh [0x10000; 0x20000]);
   s ← resolveRelocations 1 s;
   Ok (map getTarget <$> (Relocations <$> EmittedFunctions s !! 10%positive)))
  = Ok (Some [isResult 0x10000]) /\
  (s ← runOnMachineFunction 1 Fa body_jump_to_entry (fresh [0x10000; 0x20000]);
   s ← runOnMachineFunction 1 Fb body_padded s;
   s ← resolveRelocations 1 s;
   Ok (map getTarget <$> (Relocations <$> EmittedFunctions s !! 10%positive)))
  = Ok (Some [isResult 0x20002]).
Proof. repeat split; vm_compute; reflexivity. Qed.

(** ** Further properties: block and label locations *)

(** X1. A block started at a non-null cursor is found again at that cursor:
    [getMachineBasicBlockAddress] after [StartMachineBasicBlock] returns the
    program counter of the start. Starting a block never shortens the table
    and leaves the address of every other recorded block as it was. *)
Theorem X1_block_location_round_trip (MBB : nat) (s : Emitter) :
  CurBufferPtr s <> 0 ->
  getMachineBasicBlockAddress MBB (StartMachineBasicBlock MBB s) = Ok (CurBufferPtr s) /\
  (length (MBBLocations s) <= length (MBBLocations (StartMachineBasicBlock MBB s)))%nat /\
  (MBB < length (MBBLocations (StartMachineBasicBlock MBB s)))%nat /\
  forall other a,
    other <> MBB ->
    getMachineBasicBlockAddress other s = Ok a ->
    getMachineBasicBlockAddress other (StartMachineBasicBlock MBB s) = Ok a.
Proof.
  intros Hpc. split; [apply getMachineBasicBlockAddress_recorded; exact Hpc|].
  unfold StartMachineBasicBlock, getMachineBasicBlockAddress. simpl.
  rewrite length_insert.
  destruct (length (MBBLocations s) <=? MBB)%nat eqn:Hlen.
  - apply Nat.leb_le in Hlen. rewrite length_resize.
    split; [lia|]. split; [lia|].
    intros other a Hne Hother.
    destruct (MBBLocations s !! other) as [b|] eqn:Hfind; [|discriminate].
    rewrite list_lookup_insert_ne by congruence.
    apply lookup_lt_Some in Hfind as Hlt.
    rewrite lookup_resize by lia. rewrite Hfind. exact Hother.
  - apply Nat.leb_gt in Hlen. split; [lia|]. split; [lia|].
    intros other a Hne Hother.
    rewrite list_lookup_insert_ne by congruence. exact Hother.
Qed.

(** X2. [getMachineBasicBlockAddress] answers exactly for the blocks whose
    table entry is present and not null: a block started while the cursor is
    null reads as not emitted, and right after [startFunction] no block of
    any number can be looked up. *)
Theorem X2_block_not_emitted (MBB : nat) (s : Emitter) :
  (forall a, getMachineBasicBlockAddress MBB s = Ok a <->
             MBBLocations s !! MBB = Some a /\ a <> 0) /\
  (CurBufferPtr s = 0 ->
   getMachineBasicBlockAddress MBB (StartMachineBasicBlock MBB s) =
     Fatal (AssertionFailed "MBB not emitted!")) /\
  (forall F s', startFunction F s = Ok s' ->
   getMachineBasicBlockAddress MBB s' = Fatal (AssertionFailed "MBB not emitted!")).
Proof.
  split; [|split].
  - intros a. unfold getMachineBasicBlockAddress.
    destruct (MBBLocations s !! MBB) as [b|]; [|split; [discriminate|intros [? _]; discriminate]].
    destruct (b =? 0) eqn:Hz.
    + apply Z.eqb_eq in Hz. subst b.
      split; [discriminate|]. intros [[= <-] Hne]. congruence.
    + apply Z.eqb_neq in Hz. split.
      * intros [= <-]. split; [reflexivity|exact Hz].
      * intros [[= <-] _]. reflexivity.
  - intros Hpc. unfold getMachineBasicBlockAddress, StartMachineBasicBlock. simpl.
    rewrite list_lookup_insert_eq.
    + unfold getCurrentPCValue. rewrite Hpc. reflexivity.
    + destruct (length (MBBLocations s) <=? MBB)%nat eqn:Hlen.
      * rewrite length_resize. lia.
      * apply Nat.leb_gt in Hlen. exact Hlen.
  - intros F s' Hstart. apply startFunction_inv in Hstart.
    destruct Hstart as (Hnil & _). unfold getMachineBasicBlockAddress.
    rewrite Hnil. reflexivity.
Qed.

(** X3. A label is found at the cursor of its last [emitLabel], whatever
    that cursor is (emitting it again at another cursor replaces the
    location); emitting a label leaves the other labels alone, and a label
    never emitted is an assertion failure. *)
Theorem X3_label_location_round_trip (Label : ident) (s : Emitter) :
  getLabelAddress Label (emitLabel Label s) = Ok (CurBufferPtr s) /\
  (forall other, other <> Label ->
     getLabelAddress other (emitLabel Label s) = getLabelAddress other s) /\
  (LabelLocations s !! Label = None ->
   getLabelAddress Label s = Fatal (AssertionFailed "Label not emitted!")) /\
  (forall pc,
     getLabelAddress Label (emitLabel Label (set_CurBufferPtr pc (emitLabel Label s))) =
       Ok pc).
Proof.
  split; [|split; [|split]].
  - unfold getLabelAddress, emitLabel. simpl. rewrite lookup_insert_eq. reflexivity.
  - intros other Hne. unfold getLabelAddress, emitLabel. simpl.
    rewrite lookup_insert_ne by congruence. reflexivity.
  - intros Hnone. unfold getLabelAddress. rewrite Hnone. reflexivity.
  - intros pc. unfold getLabelAddress, emitLabel. simpl.
    rewrite lookup_insert_eq. reflexivity.
Qed.

(** ** Further properties: releasing a function *)

(** X4. [deallocateMemForFunction] removes the entry of the function and
    nothing else: the function is absent afterwards, every other function
    keeps its entry, for a function that was never emitted the emitter is
    unchanged, and doing it twice is doing it once. [onDelete] is the same
    operation. *)
Theorem X4_deallocateMemForFunction_removes_one_entry (F : ident) (s : Emitter) :
  EmittedFunctions (deallocateMemForFunction F s) !! F = None /\
  (forall G, G <> F ->
     EmittedFunctions (deallocateMemForFunction F s) !! G = EmittedFunctions s !! G) /\
  (EmittedFunctions s !! F = None -> deallocateMemForFunction F s = s) /\
  deallocateMemForFunction F (deallocateMemForFunction F s) = deallocateMemForFunction F s /\
  onDelete F s = deallocateMemForFunction F s.
Proof.
  unfold onDelete, deallocateMemForFunction, deallocateFunctionBody.
  destruct (EmittedFunctions s !! F) as [code|] eqn:Hfind; simpl.
  - rewrite lookup_delete_eq.
    split; [reflexivity|]. split; [|split; [discriminate|split; reflexivity]].
    intros G Hne. apply lookup_delete_ne. congruence.
  - rewrite Hfind. repeat split.
Qed.

(** ** Further properties: constant pool layout *)

(** [(x + (a - 1)) & ~(a - 1)] on [unsigned], for a power of two [a]: the
    least multiple of [a] that is not below [x]. *)
Lemma align_mask_rounds_up (x k : Z) :
  0 <= k < 32 -> 0 <= x -> x + 2 ^ k <= 2 ^ 32 ->
  let AlignMask := u32 (2 ^ k - 1) in
  let o := Z.land (u32 (x + AlignMask)) (not32 AlignMask) in
  o mod 2 ^ k = 0 /\ x <= o < x + 2 ^ k.
Proof.
  intros Hk Hx Hfit AlignMask o.
  assert (Hpow : 0 < 2 ^ k) by (apply Z.pow_pos_nonneg; lia).
  assert (Hmask : AlignMask = 2 ^ k - 1) by (apply u32_small; lia).
  assert (Ho : o = (x + (2 ^ k - 1)) / 2 ^ k * 2 ^ k).
  { subst o. rewrite Hmask. rewrite u32_small by lia.
    unfold not32, u32, wrap. rewrite <- Z.land_ones by lia.
    rewrite Z.land_assoc.
    rewrite (Z.land_comm (x + (2 ^ k - 1)) (Z.lnot (2 ^ k - 1))).
    rewrite <- Z.land_assoc. rewrite (Z.land_ones (x + (2 ^ k - 1))) by lia.
    rewrite (Z.mod_small (x + (2 ^ k - 1))) by lia.
    rewrite Z.land_comm, <- Z.ldiff_land.
    replace (2 ^ k - 1) with (Z.ones k) at 2 by (rewrite Z.ones_equiv; lia).
    rewrite Z.ldiff_ones_r by lia.
    rewrite Z.shiftl_mul_pow2, Z.shiftr_div_pow2 by lia. reflexivity. }
  pose proof (Z.div_mod (x + (2 ^ k - 1)) (2 ^ k)) as Hdm.
  pose proof (Z.mod_pos_bound (x + (2 ^ k - 1)) (2 ^ k) Hpow) as Hb.
  split.
  - rewrite Ho. apply Z.mod_mul. lia.
  - rewrite Ho. lia.
Qed.

Lemma pool_room_nonneg (Constants : list MachineConstantPoolEntry) :
  Forall entry_ok Constants -> 0 <= pool_room Constants.
Proof.
  induction 1 as [|CPE rest [(k & Hk & Halign) Hsize] _ IH]; simpl; [lia|].
  assert (0 < 2 ^ k) by (apply Z.pow_pos_nonneg; lia). lia.
Qed.

(** The loop of [emitConstantPool]: the addresses it pushes are the pool
    base plus offsets that lay the entries out, ending where the loop of
    [GetConstantPoolSizeInBytes] ends. *)
Lemma emitConstantPool_entries_layout (Constants : list MachineConstantPoolEntry)
    (s s' : Emitter) (Offset : Z) :
  Forall entry_ok Constants ->
  0 <= Offset ->
  Offset + pool_room Constants < 2 ^ 32 ->
  emitConstantPool_entries s Constants Offset = Ok s' ->
  exists offs,
    ConstPoolAddresses s' =
      ConstPoolAddresses s ++ map (fun o => uptr s (ConstantPoolBase s + o)) offs /\
    laid_out Offset Constants offs
      (fold_left
         (fun Size CPE =>
            let AlignMask := u32 (getAlignment CPE - 1) in
            let Size := Z.land (u32 (Size + AlignMask)) (not32 AlignMask) in
            u32 (Size + getTypeAllocSize CPE))
         Constants Offset).
Proof.
  intros Hok. revert s Offset.
  induction Hok as [|CPE rest [(k & Hk & Halign) Hsize] Hrest IH];
    intros s Offset Hoff Hroom; simpl.
  - intros [= <-]. exists []. simpl. rewrite app_nil_r. split; reflexivity.
  - simpl in Hroom. apply pool_room_nonneg in Hrest.
    assert (Hpow : 0 < 2 ^ k) by (apply Z.pow_pos_nonneg; lia).
    destruct (align_mask_rounds_up Offset k Hk Hoff ltac:(lia)) as [Hmod Hrange].
    rewrite Halign.
    set (o := Z.land (u32 (Offset + u32 (2 ^ k - 1))) (not32 (u32 (2 ^ k - 1)))) in *.
    destruct (isMachineConstantPoolEntry CPE); [discriminate|].
    rewrite (u32_small (o + getTypeAllocSize CPE)) by lia.
    intros Hloop. apply IH in Hloop; [|lia|lia].
    destruct Hloop as (offs & Haddrs & Hlaid).
    exists (o :: offs). split.
    + rewrite Haddrs. simpl. rewrite <- app_assoc. reflexivity.
    + simpl. split; [lia|]. split; [exact Hmod|exact Hlaid].
Qed.

Lemma emitConstantPool_entries_pool (Constants : list MachineConstantPoolEntry)
    (s s' : Emitter) (Offset : Z) :
  emitConstantPool_entries s Constants Offset = Ok s' ->
  ConstantPool s' = ConstantPool s.
Proof.
  revert s Offset. induction Constants as [|CPE rest IH]; intros s Offset; simpl.
  - intros [= <-]. reflexivity.
  - destruct (isMachineConstantPoolEntry CPE); [discriminate|].
    intros H. apply IH in H. exact H.
Qed.

Lemma laid_out_length (Constants : list MachineConstantPoolEntry) (offs : list Z)
    (Off End : Z) :
  laid_out Off Constants offs End -> length offs = length Constants.
Proof.
  revert Off offs. induction Constants as [|CPE rest IH]; intros Off [|o offs]; simpl;
    try tauto.
  intros (_ & _ & H). f_equal. eapply IH. exact H.
Qed.

(** X5. For a pool whose alignments are powers of two and whose layout
    fits an [unsigned], [emitConstantPool] with a non-null base records one
    address per entry, in order: the base plus an offset that is a multiple
    of the alignment of the entry and not before the end of the entry in
    front of it, the last entry ending exactly at
    [GetConstantPoolSizeInBytes], the size that was allocated. Starting
    from an empty address list, [getConstantPoolEntryAddress] then returns
    these addresses. *)
Theorem X5_constant_pool_layout (MCP : MachineConstantPool) (s s' : Emitter) :
  Forall entry_ok (getConstants MCP) ->
  pool_room (getConstants MCP) < 2 ^ 32 ->
  emitConstantPool MCP s = Ok s' ->
  ConstantPoolBase s' <> 0 ->
  getConstants MCP <> [] ->
  exists offs,
    ConstPoolAddresses s' =
      ConstPoolAddresses s ++ map (fun o => uptr s (ConstantPoolBase s' + o)) offs /\
    laid_out 0 (getConstants MCP) offs (GetConstantPoolSizeInBytes MCP) /\
    (ConstPoolAddresses s = [] ->
     forall i o, offs !! i = Some o ->
       getConstantPoolEntryAddress i s' = Ok (uptr s (ConstantPoolBase s' + o))).
Proof.
  intros Hok Hroom Hemit Hbase Hne.
  unfold emitConstantPool in Hemit.
  destruct (getConstants MCP) as [|CPE rest] eqn:HC; [congruence|].
  pose proof (allocateSpace_kept (GetConstantPoolSizeInBytes MCP)
                (getConstantPoolAlignment MCP) s) as Hk.
  pose proof (allocateSpace_pools (GetConstantPoolSizeInBytes MCP)
                (getConstantPoolAlignment MCP) s) as Hp.
  destruct (allocateSpace _ _ s) as [p s1]. simpl in Hk, Hp.
  destruct Hk as (_ & HTM & _). destruct Hp as (HCPA & _).
  set (s2 := set_ConstantPool (Some MCP) (set_ConstantPoolBase p s1)) in *.
  destruct (ConstantPoolBase s2 =? 0) eqn:Hz.
  - injection Hemit as <-. apply Z.eqb_eq in Hz. congruence.
  - pose proof (emitConstantPool_entries_pool _ _ _ _ Hemit) as Hpool.
    pose proof Hemit as Hkept. apply emitConstantPool_entries_kept in Hkept.
    destruct Hkept as ((_ & HTM' & _) & _ & Hsame).
    apply emitConstantPool_entries_layout in Hemit; [|exact Hok|lia|lia].
    destruct Hemit as (offs & Haddrs & Hlaid).
    exists offs. rewrite Hsame.
    assert (Huptr : forall x, uptr s2 x = uptr s x) by (intros x; unfold uptr; simpl; rewrite HTM; reflexivity).
    split; [|split].
    + rewrite Haddrs. simpl. rewrite HCPA. apply f_equal, map_ext. intros o. apply Huptr.
    + unfold GetConstantPoolSizeInBytes. rewrite HC. exact Hlaid.
    + intros Hnil i o Hi.
      unfold getConstantPoolEntryAddress.
      assert (HCP : ConstantPool s' = Some MCP).
      { clear -Hpool. exact Hpool. }
      rewrite HCP, HC.
      apply laid_out_length in Hlaid.
      apply lookup_lt_Some in Hi as Hlt. rewrite Hlaid in Hlt.
      apply Nat.ltb_lt in Hlt. rewrite Hlt.
      rewrite Haddrs. simpl. rewrite HCPA, Hnil. simpl.
      rewrite list_lookup_fmap, Hi. simpl. rewrite Huptr. reflexivity.
Qed.

Lemma emitConstantPool_entries_machine (Constants : list MachineConstantPoolEntry)
    (s : Emitter) (Offset : Z) :
  Exists (fun CPE => isMachineConstantPoolEntry CPE = true) Constants ->
  emitConstantPool_entries s Constants Offset =
    Fatal (ReportFatalError
      "Initialize memory with machine specific constant poolentry has not been implemented!").
Proof.
  intros H. revert s Offset.
  induction Constants as [|CPE rest IH]; intros s Offset; [inversion H|].
  simpl. destruct (isMachineConstantPoolEntry CPE) eqn:Hm; [reflexivity|].
  apply IH. inversion H as [? ? Hhead|? ? Htail]; subst; [congruence|exact Htail].
Qed.

(** X6. [emitConstantPool] fails, with the fatal error about machine
    specific entries, exactly when the pool has such an entry and the
    allocation of the pool gave a non-null base; when the allocation
    overflowed (null base) or no entry is machine specific it returns. *)
Theorem X6_constant_pool_failure (MCP : MachineConstantPool) (s : Emitter) :
  (fst (allocateSpace (GetConstantPoolSizeInBytes MCP)
          (getConstantPoolAlignment MCP) s) <> 0 ->
   Exists (fun CPE => isMachineConstantPoolEntry CPE = true) (getConstants MCP) ->
   emitConstantPool MCP s =
     Fatal (ReportFatalError
       "Initialize memory with machine specific constant poolentry has not been implemented!")) /\
  (fst (allocateSpace (GetConstantPoolSizeInBytes MCP)
          (getConstantPoolAlignment MCP) s) = 0 \/ plain_pool MCP ->
   is_Ok (emitConstantPool MCP s) = true).
Proof.
  split.
  - intros Hbase Hmach. unfold emitConstantPool.
    destruct (getConstants MCP) as [|CPE rest] eqn:HC; [inversion Hmach|].
    destruct (allocateSpace _ _ s) as [p s1]. simpl in Hbase.
    rewrite emitConstantPool_entries_machine by exact Hmach. simpl.
    apply Z.eqb_neq in Hbase. rewrite Hbase. reflexivity.
  - intros [Hbase|Hplain].
    + unfold emitConstantPool.
      destruct (getConstants MCP) as [|CPE rest]; [reflexivity|].
      destruct (allocateSpace _ _ s) as [p s1]. simpl in Hbase. subst p. reflexivity.
    + destruct (emitConstantPool_returns MCP s Hplain) as [s' ->]. reflexivity.
Qed.

(** ** Further properties: the entry of the function being emitted *)

Lemma startFunction_entry (F : MachineFunction) (s s' : Emitter) :
  startFunction F s = Ok s' ->
  CurrentCode s' = Some (getFunction F) /\
  (exists code,
     EmittedFunctions s' !! getFunction F = Some code /\
     Function_ code = Some (getFunction F) /\
     FunctionBody code = hd 0 (Heap s) /\
     Code code = CurBufferPtr s' /\
     Relocations code =
       Relocations (default EmittedCode_default (EmittedFunctions s !! getFunction F))) /\
  (forall G, G <> getFunction F -> EmittedFunctions s' !! G = EmittedFunctions s !! G).
Proof.
  unfold startFunction, startFunctionBody.
  match goal with |- context [std_malloc ?a s] =>
    destruct (std_malloc_spec a s) as (Hp & Hk0 & _);
    destruct (std_malloc a s) as [p s0] end.
  simpl in Hp, Hk0. subst p.
  match goal with |- context [emitConstantPool _ ?sa] => set (sA := sa) end.
  destruct (emitConstantPool (getConstantPool F) sA) as [sB| |] eqn:HCP; try discriminate.
  apply emitConstantPool_kept in HCP. destruct HCP as [HkB _].
  simpl.
  set (sC := match getJumpTableInfo F with
             | Some MJTI => initJumpTableInfo MJTI sB
             | None => sB
             end).
  assert (HkC : kept sB sC).
  { subst sC. destruct (getJumpTableInfo F) as [MJTI|]; [|apply kept_refl].
    apply initJumpTableInfo_kept. }
  intros [= <-]. simpl.
  destruct HkB as (_ & _ & _ & _ & _ & HeB & HcB & _).
  destruct HkC as (_ & _ & _ & _ & _ & HeC & HcC & _).
  destruct Hk0 as (_ & _ & _ & _ & _ & He0 & _).
  assert (HeA : EmittedFunctions sC = EmittedFunctions sA) by congruence.
  split; [rewrite HcC, HcB; reflexivity|]. split.
  - rewrite lookup_alter_eq, HeA. subst sA. simpl. unfold update_code. simpl.
    rewrite !lookup_alter_eq, lookup_insert_eq. simpl.
    eexists. split; [reflexivity|]. simpl. rewrite He0. repeat split.
  - intros G Hne. rewrite lookup_alter_ne by congruence. rewrite HeA.
    subst sA. simpl. unfold update_code. simpl.
    rewrite !lookup_alter_ne by congruence. rewrite lookup_insert_ne by congruence.
    rewrite He0. reflexivity.
Qed.

Lemma set_Relocations_same (code : EmittedCode) :
  set_Relocations (Relocations code ++ []) code = code.
Proof. destruct code. unfold set_Relocations. simpl. rewrite app_nil_r. reflexivity. Qed.

(** What a body does to the entry of the current function. *)
Lemma emitInstructions_entry (body : list Emission) (s : Emitter)
    (F : ident) (code : EmittedCode) :
  CurrentCode s = Some F ->
  EmittedFunctions s !! F = Some code ->
  exists s',
    emitInstructions body s = Ok s' /\
    EmittedFunctions s' !! F =
      Some (set_Relocations (Relocations code ++ relocations_of body) code) /\
    (forall G, G <> F -> EmittedFunctions s' !! G = EmittedFunctions s !! G) /\
    CurrentCode s' = Some F /\
    BufferBegin s' = BufferBegin s /\ BufferEnd s' = BufferEnd s /\
    SizeEstimate s' = SizeEstimate s /\ Heap s' = Heap s.
Proof.
  revert s code. induction body as [|e rest IH]; intros s code Hcur Hfind.
  - exists s. simpl. rewrite set_Relocations_same. repeat split; assumption.
  - assert (Hstep : exists s1 code1,
              emit e s = Ok s1 /\ CurrentCode s1 = Some F /\
              EmittedFunctions s1 !! F = Some code1 /\
              code1 = set_Relocations (Relocations code ++ relocations_of [e]) code /\
              (forall G, G <> F -> EmittedFunctions s1 !! G = EmittedFunctions s !! G) /\
              BufferBegin s1 = BufferBegin s /\ BufferEnd s1 = BufferEnd s /\
              SizeEstimate s1 = SizeEstimate s /\ Heap s1 = Heap s).
    { destruct e as [B|MR|MBB|Label]; simpl.
      - exists (emitByte B s), code. unfold emitByte.
        destruct (CurBufferPtr s =? BufferEnd s); simpl;
          rewrite set_Relocations_same; repeat split; assumption.
      - unfold addRelocation. rewrite Hcur, Hfind.
        eexists. eexists. split; [reflexivity|]. simpl.
        split; [exact Hcur|]. split; [apply lookup_insert_eq|].
        split; [reflexivity|]. split; [|repeat split].
        intros G Hne. apply lookup_insert_ne. congruence.
      - exists (StartMachineBasicBlock MBB s), code. simpl.
        rewrite set_Relocations_same. repeat split; assumption.
      - exists (emitLabel Label s), code. simpl.
        rewrite set_Relocations_same. repeat split; assumption. }
    destruct Hstep as (s1 & code1 & Hemit & Hcur1 & Hfind1 & -> & Hoth1 & Hb1 & He1 & Hs1 & Hh1).
    destruct (IH s1 _ Hcur1 Hfind1) as (s' & Hrun & Hfind' & Hoth' & Hcur' & Hb' & He' & Hs' & Hh').
    exists s'. simpl. rewrite Hemit. simpl.
    split; [exact Hrun|]. split.
    + rewrite Hfind'. f_equal. destruct code. unfold set_Relocations. simpl.
      rewrite <- app_assoc. f_equal. f_equal.
      destruct e; reflexivity.
    + split; [intros G Hne; rewrite Hoth', Hoth1 by exact Hne; reflexivity|].
      repeat split; congruence.
Qed.

(** The entry of the current function after a [finishFunction] that
    succeeded. *)
Lemma finishFunction_entry (F : MachineFunction) (s s1 : Emitter) :
  finishFunction F s = Ok (false, s1) ->
  exists f code,
    CurrentCode s = Some f /\ EmittedFunctions s !! f = Some code /\
    EmittedFunctions s1 !! f = Some (set_Size (CurBufferPtr s - Code code) code) /\
    (forall G, G <> f -> EmittedFunctions s1 !! G = EmittedFunctions s !! G) /\
    BufferEnd s1 = BufferEnd s /\ CurrentCode s1 = Some f.
Proof.
  unfold finishFunction, endFunctionBody.
  destruct (CurBufferPtr s =? BufferEnd s) eqn:Hfull; [discriminate|].
  destruct (match getJumpTableInfo F with
            | Some MJTI => emitJumpTableInfo MJTI s
            | None => Ok s
            end) as [s2| |] eqn:HJT; try discriminate.
  assert (Hs2 : exists effs, s2 = set_Effects effs s).
  { destruct (getJumpTableInfo F) as [MJTI|].
    - eapply emitJumpTableInfo_effects. exact HJT.
    - injection HJT as <-. exists (Effects s). destruct s; reflexivity. }
  destruct Hs2 as [effs ->]. simpl.
  unfold set_CurrentCode_Size. simpl.
  destruct (CurrentCode s) as [f|] eqn:Hcur; try discriminate.
  destruct (EmittedFunctions s !! f) as [code|] eqn:Hfind; try discriminate. simpl.
  rewrite Hfull. intros [= <-]. simpl.
  exists f, code. split; [reflexivity|]. split; [exact Hfind|].
  split; [rewrite lookup_alter_eq, Hfind; reflexivity|].
  split; [intros G Hne; apply lookup_alter_ne; congruence|]. split; [reflexivity|exact Hcur].
Qed.

(** X8. [finishFunction] asks for another attempt exactly when the cursor
    is at the end of the buffer on entry (the second test of the cursor in
    its body never fires: neither the jump-table fill nor [endFunctionBody]
    moves the cursor), and on a full buffer it always returns, without
    filling the jump table: nothing is stored. *)
Theorem X8_finishFunction_retries_iff_buffer_full (F : MachineFunction) (s : Emitter) :
  (forall again s1,
     finishFunction F s = Ok (again, s1) ->
     (again = true <-> CurBufferPtr s = BufferEnd s)) /\
  (CurBufferPtr s = BufferEnd s ->
   exists s1, finishFunction F s = Ok (true, s1) /\ Effects s1 = Effects s /\
              MBBLocations s1 = MBBLocations s /\ Heap s1 = Heap s).
Proof.
  split.
  - intros again s1 Hfin. apply finishFunction_inv in Hfin.
    destruct Hfin as (_ & _ & Hcase). destruct again.
    + destruct Hcase as (Hfull & _). split; [intros _; exact Hfull|reflexivity].
    + destruct Hcase as (Hfree & _). split; [discriminate|intros Hfull; congruence].
  - intros Hfull. unfold finishFunction. apply Z.eqb_eq in Hfull. rewrite Hfull.
    eexists. split; [reflexivity|].
    unfold retryWithMoreMemory, deallocateMemForFunction, deallocateFunctionBody,
      endFunctionBody. simpl.
    destruct (EmittedFunctions s !! getFunction F); repeat split.
Qed.

(** X9. A [finishFunction] that succeeds writes into the entry of the
    current function the size of the code, cursor minus code start, and
    changes nothing else of any entry; it nulls [BufferBegin] and the
    cursor but leaves [BufferEnd] as it was. *)
Theorem X9_finishFunction_records_code_size (F : MachineFunction) (s s1 : Emitter) :
  finishFunction F s = Ok (false, s1) ->
  (exists f code,
     CurrentCode s = Some f /\ EmittedFunctions s !! f = Some code /\
     EmittedFunctions s1 !! f = Some (set_Size (CurBufferPtr s - Code code) code) /\
     forall G, G <> f -> EmittedFunctions s1 !! G = EmittedFunctions s !! G) /\
  BufferBegin s1 = 0 /\ CurBufferPtr s1 = 0 /\ BufferEnd s1 = BufferEnd s.
Proof.
  intros Hfin.
  destruct (finishFunction_entry F s s1 Hfin) as (f & code & Hcur & Hfind & Hnew & Hoth & Hend & _).
  apply finishFunction_inv in Hfin. destruct Hfin as (_ & _ & _ & _ & Hb & Hc & _).
  split; [exists f, code; repeat split; assumption|]. repeat split; assumption.
Qed.

Lemma emitInstructions_no_current (body : list Emission) (s : Emitter)
    (MR : MachineRelocation) :
  CurrentCode s = None ->
  In (AddRelocation MR) body ->
  is_Ok (emitInstructions body s) = false.
Proof.
  revert s. induction body as [|e rest IH]; intros s Hcur Hin; [destruct Hin|].
  simpl. destruct Hin as [->|Hin].
  - simpl. unfold addRelocation. rewrite Hcur. reflexivity.
  - destruct e as [B|MR0|MBB|Label]; simpl.
    + apply IH; [|exact Hin]. unfold emitByte. case_if; exact Hcur.
    + unfold addRelocation. rewrite Hcur. reflexivity.
    + apply IH; [exact Hcur|exact Hin].
    + apply IH; [exact Hcur|exact Hin].
Qed.

(** X7. While a function is being emitted (its entry exists and is the
    current one), every emission call returns; the body's relocations are
    appended to the entry in the order of the body and nothing else of the
    entry changes, the entries of the other functions are as before, and
    the buffer bounds, the current function and the size estimate are
    kept. With no current function a body that records a relocation does
    not return. *)
Theorem X7_emission_appends_relocations_in_order (body : list Emission) (s : Emitter) :
  (forall F code,
     CurrentCode s = Some F ->
     EmittedFunctions s !! F = Some code ->
     exists s',
       emitInstructions body s = Ok s' /\
       EmittedFunctions s' !! F =
         Some (set_Relocations (Relocations code ++ relocations_of body) code) /\
       (forall G, G <> F -> EmittedFunctions s' !! G = EmittedFunctions s !! G) /\
       CurrentCode s' = Some F /\
       BufferBegin s' = BufferBegin s /\ BufferEnd s' = BufferEnd s /\
       SizeEstimate s' = SizeEstimate s /\ Heap s' = Heap s) /\
  (forall MR,
     CurrentCode s = None -> In (AddRelocation MR) body ->
     is_Ok (emitInstructions body s) = false).
Proof.
  split.
  - intros F code. apply emitInstructions_entry.
  - intros MR. apply emitInstructions_no_current.
Qed.

Lemma finishFunction_retry_state (F : MachineFunction) (s s1 : Emitter) :
  finishFunction F s = Ok (true, s1) -> s1 = retryWithMoreMemory F s.
Proof.
  intros Hfin. pose proof Hfin as Hinv. apply finishFunction_inv in Hinv.
  destruct Hinv as (_ & _ & Hfull & _).
  unfold finishFunction in Hfin. apply Z.eqb_eq in Hfull. rewrite Hfull in Hfin.
  injection Hfin as <-. reflexivity.
Qed.

Lemma retryWithMoreMemory_others (F : MachineFunction) (s : Emitter) :
  Heap (retryWithMoreMemory F s) = Heap s /\
  forall G, G <> getFunction F ->
    EmittedFunctions (retryWithMoreMemory F s) !! G = EmittedFunctions s !! G.
Proof.
  unfold retryWithMoreMemory, deallocateMemForFunction, deallocateFunctionBody. simpl.
  destruct (EmittedFunctions s !! getFunction F); simpl; split; try reflexivity.
  intros G Hne. apply lookup_delete_ne. congruence.
Qed.

(** X10. The attempt that follows an overflow gets a buffer twice the size
    of the one that overflowed (malloc not failing, the doubling in the
    range of a pointer); when the overflowed buffer was empty, begin and
    end equal, the estimate is 0 and the next attempt opens the default
    4096 bytes. *)
Theorem X10_retry_opens_double_buffer (F : MachineFunction) (s s1 s2 : Emitter) :
  finishFunction F s = Ok (true, s1) ->
  startFunction F s1 = Ok s2 ->
  hd 0 (Heap s) <> 0 ->
  0 <= 2 * (BufferEnd s - BufferBegin s) < 2 ^ PointerSizeInBits (TM s) ->
  BufferBegin s2 = hd 0 (Heap s) /\
  BufferEnd s2 - BufferBegin s2 =
    if 0 <? BufferEnd s - BufferBegin s
    then 2 * (BufferEnd s - BufferBegin s)
    else 4096.
Proof.
  intros Hfin Hstart Hheap Hrange.
  pose proof (finishFunction_retry_state F s s1 Hfin) as ->.
  destruct (retryWithMoreMemory_others F s) as [Hh _].
  destruct (retryWithMoreMemory_spec F s) as (Hest & _).
  apply startFunction_inv in Hstart. destruct Hstart as (_ & _ & _ & _ & Hbuf).
  rewrite Hh in Hbuf. destruct (Hbuf Hheap) as [Hbegin Hsize].
  split; [exact Hbegin|]. rewrite Hsize, Hest.
  unfold uptr. rewrite wrap_small by exact Hrange.
  destruct (0 <? BufferEnd s - BufferBegin s) eqn:Hpos.
  - apply Z.ltb_lt in Hpos.
    assert (H2 : (0 <? 2 * (BufferEnd s - BufferBegin s)) = true) by (apply Z.ltb_lt; lia).
    rewrite H2. reflexivity.
  - apply Z.ltb_ge in Hpos.
    assert (H2 : (0 <? 2 * (BufferEnd s - BufferBegin s)) = false) by (apply Z.ltb_ge; lia).
    rewrite H2. reflexivity.
Qed.

(** One attempt, by its answer. *)
Lemma emitAttempt_inv (F : MachineFunction) (body : list Emission) (s s' : Emitter)
    (again : bool) :
  emitAttempt F body s = Ok (again, s') ->
  (forall G, G <> getFunction F -> EmittedFunctions s' !! G = EmittedFunctions s !! G) /\
  ConstPoolAddresses s' = [] /\
  if again then EmittedFunctions s' !! getFunction F = None
  else
    SizeEstimate s' = 0 /\ BufferBegin s' = 0 /\
    exists code sz,
      EmittedFunctions s' !! getFunction F = Some (set_Size sz code) /\
      Relocations code =
        Relocations (default EmittedCode_default (EmittedFunctions s !! getFunction F)) ++
          relocations_of body /\
      Function_ code = Some (getFunction F) /\
      FunctionBody code = hd 0 (Heap s).
Proof.
  unfold emitAttempt.
  destruct (startFunction F s) as [s1| |] eqn:Hstart; try discriminate. simpl.
  apply startFunction_entry in Hstart.
  destruct Hstart as (Hcur1 & (code1 & Hfind1 & Hfun1 & Hbody1 & _ & Hrel1) & Hoth1).
  destruct (emitInstructions_entry body s1 _ code1 Hcur1 Hfind1)
    as (s2 & Hrun & Hfind2 & Hoth2 & Hcur2 & _).
  rewrite Hrun. simpl. intros Hfin.
  pose proof Hfin as Hinv. apply finishFunction_inv in Hinv.
  destruct Hinv as (_ & Hnil & Hcase).
  destruct again.
  - pose proof (finishFunction_retry_state F s2 s' Hfin) as ->.
    destruct (retryWithMoreMemory_others F s2) as [_ Hoth3].
    destruct Hcase as (_ & _ & Hgone).
    split; [|split; [exact Hnil|exact Hgone]].
    intros G Hne. rewrite Hoth3, Hoth2, Hoth1 by exact Hne. reflexivity.
  - destruct (finishFunction_entry F s2 s' Hfin)
      as (f & code2 & Hcf & Hf2 & Hnew & Hoth3 & _).
    rewrite Hcur2 in Hcf. injection Hcf as <-.
    rewrite Hfind2 in Hf2. injection Hf2 as <-.
    destruct Hcase as (_ & Hest & Hbegin & _).
    split; [|split; [exact Hnil|split; [exact Hest|split; [exact Hbegin|]]]].
    + intros G Hne. rewrite Hoth3, Hoth2, Hoth1 by exact Hne. reflexivity.
    + eexists. eexists. split; [exact Hnew|].
      simpl. rewrite Hrel1. repeat split; assumption.
Qed.

(** X11. An attempt that finishes leaves in the entry of the function the
    relocations the entry had before the attempt followed by those of the
    body, in order: exactly those of the body for a function without an
    entry, and an accumulated list when a function that already has an
    entry is emitted again. The entry names the function and the buffer
    malloc returned, the constant address list is empty again, and the
    entries of the other functions are untouched. *)
Theorem X11_finished_attempt_entry (F : MachineFunction) (body : list Emission)
    (s s' : Emitter) :
  emitAttempt F body s = Ok (false, s') ->
  (exists code,
     EmittedFunctions s' !! getFunction F = Some code /\
     Relocations code =
       Relocations (default EmittedCode_default (EmittedFunctions s !! getFunction F)) ++
         relocations_of body /\
     Function_ code = Some (getFunction F) /\
     FunctionBody code = hd 0 (Heap s)) /\
  (forall G, G <> getFunction F -> EmittedFunctions s' !! G = EmittedFunctions s !! G) /\
  ConstPoolAddresses s' = [] /\ SizeEstimate s' = 0 /\ BufferBegin s' = 0.
Proof.
  intros Hrun. apply emitAttempt_inv in Hrun.
  destruct Hrun as (Hoth & Hnil & Hest & Hbegin & code & sz & Hfind & Hrel & Hfun & Hbody).
  split; [|repeat split; assumption].
  eexists. split; [exact Hfind|]. simpl. repeat split; assumption.
Qed.

(** X12. The retry loop is transparent: when [runOnMachineFunction]
    returns for a function that had no entry, the entry holds exactly the
    relocations of the body, once and in order, however many attempts
    overflowed; the size estimate is back to 0, no buffer is open, the
    constant address list is empty and the entries of the other functions
    are untouched. *)
Theorem X12_retry_loop_is_transparent (fuel : nat) (F : MachineFunction)
    (body : list Emission) (s s' : Emitter) :
  EmittedFunctions s !! getFunction F = None ->
  runOnMachineFunction fuel F body s = Ok s' ->
  (exists code,
     EmittedFunctions s' !! getFunction F = Some code /\
     Relocations code = relocations_of body /\
     Function_ code = Some (getFunction F)) /\
  (forall G, G <> getFunction F -> EmittedFunctions s' !! G = EmittedFunctions s !! G) /\
  SizeEstimate s' = 0 /\ BufferBegin s' = 0 /\ ConstPoolAddresses s' = [].
Proof.
  revert s. induction fuel as [|fuel IH]; intros s Hnone; [discriminate|].
  simpl. destruct (emitAttempt F body s) as [[again s1]| |] eqn:Hatt; try discriminate.
  simpl. apply emitAttempt_inv in Hatt. destruct Hatt as (Hoth & Hnil & Hcase).
  destruct again.
  - intros Hrun. apply IH in Hrun; [|exact Hcase].
    destruct Hrun as (Hentry & Hoth' & Hrest).
    split; [exact Hentry|]. split; [|exact Hrest].
    intros G Hne. rewrite Hoth', Hoth by exact Hne. reflexivity.
  - intros [= <-].
    destruct Hcase as (Hest & Hbegin & code & sz & Hfind & Hrel & Hfun & _).
    rewrite Hnone in Hrel. simpl in Hrel.
    split; [|repeat split; assumption].
    eexists. split; [exact Hfind|]. simpl. split; assumption.
Qed.

(** ** Further properties: the registry *)

Lemma registry_extends_refl (s : Emitter) : registry_extends s s.
Proof. unfold registry_extends. repeat split; auto. Qed.

Lemma registry_extends_trans (s1 s2 s3 : Emitter) :
  registry_extends s1 s2 -> registry_extends s2 s3 -> registry_extends s1 s3.
Proof.
  unfold registry_extends. intros (E1 & O1 & D1 & T1) (E2 & O2 & D2 & T2).
  repeat split; try congruence; auto.
Qed.

Lemma registry_extends_Globals (g : list Z) (s : Emitter) :
  registry_extends s (set_Globals g s).
Proof. unfold registry_extends, registry_defined. repeat split; auto. Qed.

Lemma InitializeMemory_extends (addressOf : ident -> Emitter -> result (Z * Emitter))
    (Init : Initializer) (Dest : nat) (s s' : Emitter) :
  (forall V s0 a s1, addressOf V s0 = Ok (a, s1) -> registry_extends s0 s1) ->
  InitializeMemory addressOf Init Dest s = Ok s' ->
  registry_extends s s'.
Proof.
  intros Hcall. revert s.
  induction Init as [|off byte k IH|V k IH]; intros s; simpl.
  - intros [= <-]. apply registry_extends_refl.
  - intros H. apply IH in H.
    eapply registry_extends_trans; [apply registry_extends_Globals|exact H].
  - destruct (addressOf V s) as [[a s1]| |] eqn:Hlook; try discriminate. simpl.
    intros H. apply IH in H. apply Hcall in Hlook.
    eapply registry_extends_trans; eassumption.
Qed.

Lemma getGlobalVariableAddress_extends (fuel : nat) (V : ident) (s s1 : Emitter) (a : Z) :
  getGlobalVariableAddress fuel V s = Ok (a, s1) -> registry_extends s s1.
Proof.
  revert V s s1 a. induction fuel as [|fuel IH]; intros V s s1 a; [discriminate|].
  simpl. destruct (GlobalOffsets s !! V) as [o|] eqn:Hfind.
  - intros [= _ <-]. apply registry_extends_refl.
  - destruct (TheModule (engine s) V) as [GV| |] eqn:HV; try discriminate.
    destruct (isDeclaration GV || hasAvailableExternallyLinkage GV) eqn:Hdef;
      [discriminate|].
    set (s_slot := Globals_memset _ 0 _ (Globals_set_size _ s)).
    assert (Hslot : registry_extends s s_slot).
    { subst s_slot. unfold Globals_memset, Globals_set_size.
      eapply registry_extends_trans; apply registry_extends_Globals. }
    match goal with |- context [mbind _ ?r] => destruct r as [s2| |] eqn:Hinit end;
      try discriminate.
    simpl. intros [= _ <-].
    assert (H2 : registry_extends s_slot s2).
    { destruct (isThreadLocal GV).
      - injection Hinit as <-. apply registry_extends_refl.
      - eapply InitializeMemory_extends; [|exact Hinit]. intros W s0 b s3. apply IH. }
    pose proof (registry_extends_trans _ _ _ Hslot H2) as (HE & HO & HD & HT).
    unfold registry_extends. simpl. split; [exact HE|]. split; [|split; [|exact HT]].
    + intros W o HW. rewrite lookup_insert_ne; [apply HO; exact HW|].
      intros ->. congruence.
    + intros Hreg. specialize (HD Hreg). unfold registry_defined in *. simpl.
      intros W o HW. destruct (decide (W = V)) as [->|Hne].
      * rewrite HE. exists GV. split; [exact HV|]. unfold isDefined. rewrite Hdef. reflexivity.
      * rewrite lookup_insert_ne in HW by congruence. exact (HD W o HW).
Qed.

(** X13. [getPointerToGlobal] gives the null pointer for every function,
    whatever the far-stub flag, and the emitter is unchanged; for an alias
    it gives the address already assigned to the aliasee and fails as
    unreachable when the aliasee has none, even if it is a defined
    variable: an alias never allocates. [getPointerToGVIndirectSym] is the
    same lookup. So a relocation to a function, direct or indirect, is
    resolved to the null pointer. *)
Theorem X13_pointer_to_function_and_alias (fuel : nat) (V : ident) (Reference : Z)
    (MayNeedFarStub : bool) (s : Emitter) :
  (TheModule (engine s) V = GV_Function ->
   getPointerToGlobal fuel V Reference MayNeedFarStub s = Ok (0, s)) /\
  (forall aliasee o,
     TheModule (engine s) V = GV_Alias aliasee ->
     GlobalOffsets s !! aliasee = Some o ->
     getPointerToGlobal fuel V Reference MayNeedFarStub s = Ok (Z.lor o 0xDA000000, s)) /\
  (forall aliasee,
     TheModule (engine s) V = GV_Alias aliasee ->
     GlobalOffsets s !! aliasee = None ->
     getPointerToGlobal fuel V Reference MayNeedFarStub s =
       Fatal (Unreachable "Global hasn't had an address allocated yet!")) /\
  getPointerToGVIndirectSym fuel V Reference s =
    getPointerToGlobal fuel V Reference MayNeedFarStub s /\
  (forall MR,
     TheModule (engine s) V = GV_Function ->
     letTargetResolve MR = false ->
     getTarget MR = isGlobalValue V \/ getTarget MR = isIndirectSymbol V ->
     resolveRelocation fuel MR s = Ok (setResultPointer MR 0, s)).
Proof.
  unfold resolveRelocation, getPointerToGVIndirectSym, getPointerToGlobal, getGlobalAddress.
  split; [|split; [|split; [|split]]].
  - intros ->. reflexivity.
  - intros aliasee o -> ->. reflexivity.
  - intros aliasee -> ->. reflexivity.
  - reflexivity.
  - intros MR HV Hltr [Hkind|Hkind]; rewrite Hltr, Hkind, HV; reflexivity.
Qed.

(** X14. The registry only grows. A call of [getGlobalVariableAddress]
    that returns, with whatever its initializers looked up on the way,
    leaves every offset that was assigned before the call as it was, so an
    address handed out earlier stays valid; it adds only global variables
    defined in the unit; and it sends nothing to the patcher or the
    disassembler. *)
Theorem X14_registry_only_grows (fuel : nat) (V : ident) (s s1 : Emitter) (a : Z) :
  getGlobalVariableAddress fuel V s = Ok (a, s1) ->
  (forall W o, GlobalOffsets s !! W = Some o ->
     GlobalOffsets s1 !! W = Some o /\ getGlobalAddress W s1 = getGlobalAddress W s) /\
  (registry_defined s -> registry_defined s1) /\
  engine s1 = engine s /\ Effects s1 = Effects s.
Proof.
  intros Hcall. apply getGlobalVariableAddress_extends in Hcall.
  destruct Hcall as (HE & HO & HD & HT).
  split; [|split; [exact HD|split; [exact HE|exact HT]]].
  intros W o HW. split; [apply HO; exact HW|].
  unfold getGlobalAddress. rewrite (HO W o HW), HW. reflexivity.
Qed.

(** X15. A global variable without a definition in the unit (a declaration
    or available-externally) and without an offset is refused on every
    path, at every nesting depth: [getGlobalVariableAddress],
    [getPointerToGlobal], [getPointerToGVIndirectSym] and the resolution of
    a relocation to it end in the fatal error, and no state results. *)
Theorem X15_external_global_refused (fuel : nat) (V : ident) (GV : GlobalVariable)
    (s : Emitter) :
  GlobalOffsets s !! V = None ->
  TheModule (engine s) V = GV_Variable GV ->
  isDefined GV = false ->
  let refusal : failure :=
    ReportFatalError "Could not resolve external global address: " in
  getGlobalVariableAddress (S fuel) V s = Fatal refusal /\
  (forall Reference MayNeedFarStub,
     getPointerToGlobal (S fuel) V Reference MayNeedFarStub s = Fatal refusal /\
     getPointerToGVIndirectSym (S fuel) V Reference s = Fatal refusal) /\
  (forall MR,
     letTargetResolve MR = false ->
     getTarget MR = isGlobalValue V \/ getTarget MR = isIndirectSymbol V ->
     resolveRelocation (S fuel) MR s = Fatal refusal).
Proof.
  intros Hfind HV Hdef refusal.
  assert (Hcall : getGlobalVariableAddress (S fuel) V s = Fatal refusal).
  { simpl. rewrite Hfind, HV. unfold isDefined in Hdef.
    destruct (isDeclaration GV || hasAvailableExternallyLinkage GV);
      [reflexivity|discriminate]. }
  assert (Hptr : forall Reference MayNeedFarStub,
            getPointerToGlobal (S fuel) V Reference MayNeedFarStub s = Fatal refusal).
  { intros R b. unfold getPointerToGlobal. rewrite HV. exact Hcall. }
  split; [exact Hcall|]. split.
  - intros R b. split; [apply Hptr|]. unfold getPointerToGVIndirectSym. apply Hptr.
  - intros MR Hltr [Hkind|Hkind]; unfold resolveRelocation; rewrite Hltr, Hkind.
    + rewrite Hptr. reflexivity.
    + unfold getPointerToGVIndirectSym. rewrite Hptr. reflexivity.
Qed.

Lemma RoundUpToAlignment_spec (Value Align : Z) :
  0 < Align -> 0 <= Value -> Value + Align <= 2 ^ 64 ->
  RoundUpToAlignment Value Align mod Align = 0 /\
  Value <= RoundUpToAlignment Value Align < Value + Align.
Proof.
  intros HA HV Hfit. unfold RoundUpToAlignment.
  rewrite (wrap_small 64 (Value + Align - 1)) by lia.
  pose proof (Z.div_mod (Value + Align - 1) Align ltac:(lia)) as Hdm.
  pose proof (Z.mod_pos_bound (Value + Align - 1) Align HA) as Hb.
  assert (Hq : (Value + Align - 1) / Align * Align =
               Value + Align - 1 - (Value + Align - 1) mod Align) by lia.
  rewrite wrap_small by lia. split.
  - apply Z.mod_mul. lia.
  - lia.
Qed.

(** X16. A defined global variable without an offset, thread-local or with
    an initializer that only stores, gets a slot at the end of the arena:
    its offset is the least multiple of its preferred alignment that is not
    below the old arena size, the arena ends exactly at offset plus its
    size, the bytes the arena already had are not touched, the registry
    gains exactly this one mapping, and for a thread-local global the slot
    is all zero. *)
Theorem X16_fresh_global_slot (fuel : nat) (V : ident) (GV : GlobalVariable)
    (s : Emitter) :
  GlobalOffsets s !! V = None ->
  TheModule (engine s) V = GV_Variable GV ->
  isDefined GV = true ->
  isThreadLocal GV = true \/ stores_only (getInitializer GV) = true ->
  0 < PreferredAlignment GV ->
  0 <= TypeAllocSize GV ->
  Z.of_nat (length (Globals s)) + PreferredAlignment GV <= 2 ^ 64 ->
  exists offset s1,
    getGlobalVariableAddress (S fuel) V s = Ok (Z.lor offset 0xDA000000, s1) /\
    offset mod PreferredAlignment GV = 0 /\
    Z.of_nat (length (Globals s)) <= offset <
      Z.of_nat (length (Globals s)) + PreferredAlignment GV /\
    GlobalOffsets s1 = <[V := offset]> (GlobalOffsets s) /\
    Z.of_nat (length (Globals s1)) = offset + TypeAllocSize GV /\
    (forall i, (i < length (Globals s))%nat -> Globals s1 !! i = Globals s !! i) /\
    (isThreadLocal GV = true ->
     forall i, offset <= Z.of_nat i < offset + TypeAllocSize GV ->
               Globals s1 !! i = Some 0).
Proof.
  intros Hfind HV Hdef Hinit HA HS Hfit.
  destruct (RoundUpToAlignment_spec (Z.of_nat (length (Globals s)))
              (PreferredAlignment GV) HA ltac:(lia) Hfit) as [Hmod Hrange].
  set (offset := RoundUpToAlignment (Z.of_nat (length (Globals s)))
                   (PreferredAlignment GV)) in *.
  set (g_slot := list_inserts (Z.to_nat offset) (replicate (Z.to_nat (TypeAllocSize GV)) 0)
                   (resize (Z.to_nat (offset + TypeAllocSize GV)) 0 (Globals s))).
  assert (Hlen : length g_slot = Z.to_nat (offset + TypeAllocSize GV)).
  { subst g_slot. rewrite length_inserts, length_resize. reflexivity. }
  assert (Hlow : forall i, (i < length (Globals s))%nat -> g_slot !! i = Globals s !! i).
  { intros i Hi. subst g_slot. rewrite list_lookup_inserts_lt by lia.
    apply lookup_resize; lia. }
  assert (Hzero : forall i, offset <= Z.of_nat i < offset + TypeAllocSize GV ->
                            g_slot !! i = Some 0).
  { intros i Hi. subst g_slot.
    rewrite list_lookup_inserts.
    - apply lookup_replicate_2. lia.
    - rewrite length_replicate. lia.
    - rewrite length_resize. lia. }
  exists offset. simpl. rewrite Hfind, HV. unfold isDefined in Hdef.
  destruct (isDeclaration GV || hasAvailableExternallyLinkage GV); [discriminate|].
  fold offset. unfold Globals_memset, Globals_set_size. simpl. fold g_slot.
  destruct (isThreadLocal GV) eqn:Htl.
  - eexists. simpl. split; [reflexivity|]. simpl.
    split; [exact Hmod|]. split; [exact Hrange|]. split; [reflexivity|].
    split; [rewrite Hlen; lia|]. split; [exact Hlow|]. intros _. exact Hzero.
  - destruct Hinit as [?|Hinit]; [discriminate|].
    match goal with |- context [InitializeMemory ?f ?i ?d ?s0] =>
      destruct (InitializeMemory_stores_only_spec f i d s0 Hinit) as (g & Hrun & Hg & Hglow) end.
    rewrite Hrun. simpl in Hg, Hglow. eexists. simpl. split; [reflexivity|]. simpl.
    split; [exact Hmod|]. split; [exact Hrange|]. split; [reflexivity|].
    split; [rewrite Hg, Hlen; lia|]. split; [|discriminate].
    intros i Hi. rewrite Hglow by lia. apply Hlow. exact Hi.
Qed.

(** ** Further properties: filling the jump tables *)

Lemma slot_stores_app (SlotPtr width : Z) (xs ys : list Z) :
  slot_stores SlotPtr width (xs ++ ys) =
    slot_stores SlotPtr width xs ++
    slot_stores (SlotPtr + width * Z.of_nat (length xs)) width ys.
Proof.
  revert SlotPtr. induction xs as [|x xs IH]; intros SlotPtr; simpl.
  - f_equal. lia.
  - f_equal. rewrite IH. f_equal. f_equal. lia.
Qed.

Lemma block_addresses_app (L : list Z) (xs ys : list nat) :
  block_addresses L (xs ++ ys) =
    match block_addresses L xs, block_addresses L ys with
    | Some a, Some b => Some (a ++ b)
    | _, _ => None
    end.
Proof.
  induction xs as [|x xs IH]; simpl.
  - destruct (block_addresses L ys); reflexivity.
  - destruct (L !! x) as [a|]; [|reflexivity].
    destruct (a =? 0); [reflexivity|]. rewrite IH.
    destruct (block_addresses L xs), (block_addresses L ys); reflexivity.
Qed.

Lemma emitJumpTable_slots_fill (entry : Z -> Z) (width : Z) (MBBs : list nat)
    (SlotPtr : Z) (s : Emitter) :
  emitJumpTable_slots entry width MBBs SlotPtr s =
    match block_addresses (MBBLocations s) MBBs with
    | Some addrs =>
      Ok (SlotPtr + width * Z.of_nat (length MBBs),
          set_Effects (Effects s ++ slot_stores SlotPtr width (map entry addrs)) s)
    | None => Fatal (AssertionFailed "MBB not emitted!")
    end.
Proof.
  revert SlotPtr s. induction MBBs as [|MBB rest IH]; intros SlotPtr s.
  - simpl. rewrite app_nil_r. f_equal. f_equal; [lia|destruct s; reflexivity].
  - simpl. unfold getMachineBasicBlockAddress.
    destruct (MBBLocations s !! MBB) as [a|]; [|reflexivity].
    destruct (a =? 0); [reflexivity|]. simpl.
    rewrite IH. simpl.
    destruct (block_addresses (MBBLocations s) rest) as [addrs|]; [|reflexivity].
    simpl. f_equal. f_equal; [lia|].
    unfold set_Effects. simpl. rewrite <- app_assoc. reflexivity.
Qed.

Lemma emitJumpTable_tables_fill (width : Z) (JT : list (list nat)) (SlotPtr : Z)
    (s : Emitter) :
  emitJumpTable_tables (fun _ MBBAddr => MBBAddr) width JT SlotPtr s =
    match block_addresses (MBBLocations s) (concat JT) with
    | Some addrs => Ok (set_Effects (Effects s ++ slot_stores SlotPtr width addrs) s)
    | None => Fatal (AssertionFailed "MBB not emitted!")
    end.
Proof.
  revert SlotPtr s. induction JT as [|MBBs rest IH]; intros SlotPtr s.
  - simpl. rewrite app_nil_r. f_equal. destruct s; reflexivity.
  - simpl. rewrite emitJumpTable_slots_fill, block_addresses_app.
    destruct (block_addresses (MBBLocations s) MBBs) as [a|] eqn:Ha; [|reflexivity].
    simpl. rewrite IH. simpl.
    destruct (block_addresses (MBBLocations s) (concat rest)) as [b|]; [|reflexivity].
    f_equal. unfold set_Effects. simpl. rewrite map_id, slot_stores_app, <- app_assoc.
    assert (Hlen : length a = length MBBs).
    { clear -Ha. revert a Ha. induction MBBs as [|m r IHr]; intros a Ha; simpl in Ha.
      - injection Ha as <-. reflexivity.
      - destruct (MBBLocations s !! m) as [x|]; [|discriminate].
        destruct (x =? 0); [discriminate|].
        destruct (block_addresses (MBBLocations s) r) as [a'|]; [|discriminate].
        injection Ha as <-. simpl. f_equal. apply IHr. reflexivity. }
    rewrite Hlen. reflexivity.
Qed.

(** X17. For a jump table info of kind block-address with pointer-sized
    entries, once storage was reserved, [emitJumpTableInfo] stores the
    recorded address of every referenced block, table after table and
    block after block, into consecutive pointer-sized slots from
    [JumpTableBase] on, and changes nothing else; if one referenced block
    was never recorded (or recorded at a null cursor) it stops with the
    assertion failure and nothing results. *)
Theorem X17_jump_table_fill_block_addresses (MJTI : MachineJumpTableInfo) (s : Emitter) :
  hasCustomJumpTables (TM s) = false ->
  getJumpTables MJTI <> [] ->
  JumpTableBase s <> 0 ->
  getEntryKind MJTI = EK_BlockAddress ->
  getEntrySize MJTI = PointerSizeInBits (TM s) / 8 ->
  emitJumpTableInfo MJTI s =
    match block_addresses (MBBLocations s) (concat (getJumpTables MJTI)) with
    | Some addrs =>
      Ok (set_Effects
            (Effects s ++
             slot_stores (JumpTableBase s) (PointerSizeInBits (TM s) / 8) addrs) s)
    | None => Fatal (AssertionFailed "MBB not emitted!")
    end.
Proof.
  intros Hcustom HJT Hbase Hkind Hsize. unfold emitJumpTableInfo.
  rewrite Hcustom, Hkind, Hsize, Z.eqb_refl.
  rewrite bool_decide_eq_false_2 by exact HJT.
  apply Z.eqb_neq in Hbase. rewrite Hbase. simpl.
  apply emitJumpTable_tables_fill.
Qed.

(** [emitJumpTableInfo] does nothing at all when the target has its own
    jump tables, when there is no table, when the reservation failed (null
    [JumpTableBase], the overflow case) or when the entries are inline;
    otherwise an entry size that is not the one of the kind, and the kind
    GPRel64, make it fail. *)
Lemma emitJumpTableInfo_guards (MJTI : MachineJumpTableInfo) (s : Emitter) :
  (hasCustomJumpTables (TM s) = true \/ getJumpTables MJTI = [] \/
   JumpTableBase s = 0 \/ getEntryKind MJTI = EK_Inline ->
   emitJumpTableInfo MJTI s = Ok s) /\
  (hasCustomJumpTables (TM s) = false -> getJumpTables MJTI <> [] ->
   JumpTableBase s <> 0 ->
   (getEntryKind MJTI = EK_GPRel64BlockAddress ->
    emitJumpTableInfo MJTI s =
      Fatal (Unreachable "JT Info emission not implemented for GPRel64BlockAddress yet.")) /\
   (getEntryKind MJTI = EK_BlockAddress ->
    getEntrySize MJTI <> PointerSizeInBits (TM s) / 8 ->
    emitJumpTableInfo MJTI s = Fatal (AssertionFailed "Cross JIT'ing?")) /\
   (getEntryKind MJTI = EK_Custom32 \/ getEntryKind MJTI = EK_GPRel32BlockAddress \/
    getEntryKind MJTI = EK_LabelDifference32 ->
    getEntrySize MJTI <> 4 ->
    emitJumpTableInfo MJTI s = Fatal (AssertionFailed "Cross JIT'ing?"))).
Proof.
  unfold emitJumpTableInfo. split.
  - intros Hguard. destruct (hasCustomJumpTables (TM s)); [reflexivity|].
    destruct Hguard as [?|[HJT|[Hbase|Hkind]]]; [discriminate| | |].
    + rewrite bool_decide_eq_true_2 by exact HJT. reflexivity.
    + rewrite Hbase. simpl. rewrite orb_true_r. reflexivity.
    + rewrite Hkind. case_if; reflexivity.
  - intros Hcustom HJT Hbase. rewrite Hcustom.
    rewrite bool_decide_eq_false_2 by exact HJT.
    apply Z.eqb_neq in Hbase. rewrite Hbase. simpl.
    split; [intros ->; reflexivity|]. split.
    + intros -> Hsize. apply Z.eqb_neq in Hsize. rewrite Hsize. reflexivity.
    + intros Hkind Hsize. apply Z.eqb_neq in Hsize.
      destruct Hkind as [->|[->| ->]]; rewrite Hsize; reflexivity.
Qed.

Lemma slot_stores_lookup (SlotPtr width : Z) (vals : list Z) (i : nat) (v : Z) :
  vals !! i = Some v ->
  slot_stores SlotPtr width vals !! i = Some (Store (SlotPtr + width * Z.of_nat i) v).
Proof.
  revert SlotPtr i. induction vals as [|x vals IH]; intros SlotPtr [|i]; simpl;
    try discriminate.
  - intros [= ->]. do 2 f_equal. lia.
  - intros H. change (slot_stores (SlotPtr + width) width vals !! i =
                      Some (Store (SlotPtr + width * Z.of_nat (S i)) v)).
    rewrite (IH _ _ H). do 2 f_equal. lia.
Qed.

Lemma block_addresses_lookup (L : list Z) (MBBs : list nat) (addrs : list Z)
    (i : nat) (MBB : nat) :
  block_addresses L MBBs = Some addrs ->
  MBBs !! i = Some MBB ->
  exists a, addrs !! i = Some a /\ L !! MBB = Some a /\ a <> 0.
Proof.
  revert addrs i. induction MBBs as [|m rest IH]; intros addrs i; simpl; [discriminate|].
  destruct (L !! m) as [x|] eqn:Hm; [|discriminate].
  destruct (x =? 0) eqn:Hz; [discriminate|].
  destruct (block_addresses L rest) as [r|]; [|discriminate].
  intros [= <-]. destruct i as [|i]; simpl.
  - intros [= <-]. exists x. apply Z.eqb_neq in Hz. auto.
  - intros Hi. apply (IH r i eq_refl Hi).
Qed.

Lemma concat_lookup_table (JT : list (list nat)) (Index j : nat) (MBBs : list nat)
    (MBB : nat) :
  JT !! Index = Some MBBs -> MBBs !! j = Some MBB ->
  concat JT !! (length (concat (take Index JT)) + j)%nat = Some MBB.
Proof.
  intros HI Hj.
  replace (concat JT)
    with (concat (take Index JT) ++ MBBs ++ concat (drop (S Index) JT)).
  2: { rewrite <- (take_drop_middle JT Index MBBs HI) at 3.
       rewrite concat_app. reflexivity. }
  rewrite lookup_app_r by lia.
  replace (length (concat (take Index JT)) + j - length (concat (take Index JT)))%nat
    with j by lia.
  apply lookup_app_l_Some. exact Hj.
Qed.

(** The address of a table, when the sums stay in range. *)
Lemma getJumpTableEntryAddress_value (MJTI : MachineJumpTableInfo) (t : Emitter)
    (Index : nat) :
  JumpTable t = Some MJTI ->
  (Index < length (getJumpTables MJTI))%nat ->
  0 < getEntrySize MJTI ->
  0 < JumpTableBase t ->
  Z.of_nat (length (concat (take Index (getJumpTables MJTI)))) * getEntrySize MJTI < 2 ^ 32 ->
  JumpTableBase t +
    Z.of_nat (length (concat (take Index (getJumpTables MJTI)))) * getEntrySize MJTI
    < 2 ^ PointerSizeInBits (TM t) ->
  getJumpTableEntryAddress Index t =
    Ok (JumpTableBase t +
        Z.of_nat (length (concat (take Index (getJumpTables MJTI)))) * getEntrySize MJTI).
Proof.
  intros HJT Hlt Hpos Hbase Hprod Hptr.
  set (preceding := Z.of_nat (length (concat (take Index (getJumpTables MJTI))))) in *.
  unfold getJumpTableEntryAddress. rewrite HJT.
  apply Nat.ltb_lt in Hlt. rewrite Hlt.
  rewrite count_entries by (subst preceding; nia). rewrite Z.add_0_l.
  fold preceding.
  rewrite u32_small by (split; [subst preceding; nia|exact Hprod]).
  unfold uptr. rewrite wrap_small; [reflexivity|]. subst preceding. nia.
Qed.

(** X18. A table is written where its relocations resolve, as long as the
    jump-table info and base of the emitter are still those of the fill.
    For block-address tables that were filled, [getJumpTableEntryAddress
    Index] is the jump-table base plus (block references of the tables
    before [Index]) x (entry size); the slot stored for block number [j] of
    table [Index] is that address plus [j] x (entry size) and holds the
    recorded location of the block; and in every state whose [JumpTable]
    and [JumpTableBase] are these, [resolveRelocation] gives a jump-table
    relocation for [Index] this address as its result pointer. Nothing is
    said of a state in which a later function has installed its own jump
    tables. *)
Theorem X18_jump_table_entry_address_matches_fill (MJTI : MachineJumpTableInfo)
    (s s' : Emitter) (Index j : nat) (MBBs : list nat) (MBB : nat) :
  hasCustomJumpTables (TM s) = false ->
  getEntryKind MJTI = EK_BlockAddress ->
  getEntrySize MJTI = PointerSizeInBits (TM s) / 8 ->
  0 < getEntrySize MJTI ->
  JumpTable s = Some MJTI ->
  0 < JumpTableBase s ->
  Z.of_nat (length (concat (take Index (getJumpTables MJTI)))) * getEntrySize MJTI < 2 ^ 32 ->
  JumpTableBase s +
    Z.of_nat (length (concat (take Index (getJumpTables MJTI)))) * getEntrySize MJTI
    < 2 ^ PointerSizeInBits (TM s) ->
  emitJumpTableInfo MJTI s = Ok s' ->
  getJumpTables MJTI !! Index = Some MBBs ->
  MBBs !! j = Some MBB ->
  exists p a,
    getJumpTableEntryAddress Index s = Ok p /\
    p = JumpTableBase s +
        Z.of_nat (length (concat (take Index (getJumpTables MJTI)))) * getEntrySize MJTI /\
    MBBLocations s !! MBB = Some a /\
    In (Store (p + getEntrySize MJTI * Z.of_nat j) a) (Effects s') /\
    forall (fuel : nat) (MR : MachineRelocation) (t : Emitter),
      letTargetResolve MR = false ->
      getTarget MR = isJumpTableIndex Index ->
      JumpTable t = Some MJTI ->
      JumpTableBase t = JumpTableBase s ->
      TM t = TM s ->
      resolveRelocation fuel MR t = Ok (setResultPointer MR p, t).
Proof.
  intros Hcustom Hkind Hsize Hpos HJT Hbase Hprod Hptr Hfill HI Hj.
  set (preceding := Z.of_nat (length (concat (take Index (getJumpTables MJTI))))) in *.
  assert (Hne : getJumpTables MJTI <> []) by (intros E; rewrite E in HI; discriminate).
  apply lookup_lt_Some in HI as Hlt.
  assert (Haddr : getJumpTableEntryAddress Index s =
                  Ok (JumpTableBase s + preceding * getEntrySize MJTI))
    by (apply getJumpTableEntryAddress_value; assumption).
  unfold emitJumpTableInfo in Hfill.
  rewrite Hcustom, Hkind, Hsize, Z.eqb_refl in Hfill.
  rewrite bool_decide_eq_false_2 in Hfill by exact Hne.
  assert (Hb : (JumpTableBase s =? 0) = false) by (apply Z.eqb_neq; lia).
  rewrite Hb in Hfill. simpl in Hfill.
  rewrite emitJumpTable_tables_fill in Hfill.
  destruct (block_addresses (MBBLocations s) (concat (getJumpTables MJTI)))
    as [addrs|] eqn:Hblocks; [|discriminate].
  injection Hfill as <-.
  pose proof (concat_lookup_table _ _ _ _ _ HI Hj) as Hcat.
  destruct (block_addresses_lookup _ _ _ _ _ Hblocks Hcat) as (a & Ha & HL & _).
  exists (JumpTableBase s + preceding * getEntrySize MJTI), a.
  split; [exact Haddr|]. split; [reflexivity|]. split; [exact HL|]. split.
  - simpl. apply in_or_app. right.
    apply (slot_stores_lookup (JumpTableBase s) (PointerSizeInBits (TM s) / 8)) in Ha.
    apply list_elem_of_In, list_elem_of_lookup. eexists.
    rewrite Ha. do 2 f_equal. rewrite Hsize. subst preceding. lia.
  - intros fuel MR t Hlet Htarget HJTt Hbaset HTMt.
    unfold resolveRelocation. rewrite Hlet, Htarget.
    rewrite (getJumpTableEntryAddress_value MJTI t Index HJTt Hlt Hpos)
      by (rewrite ?Hbaset, ?HTMt; assumption).
    rewrite Hbaset. reflexivity.
Qed.

(** ** Further properties: the pass over the emitted functions *)

Lemma set_identity (s : Emitter) :
  set_GlobalOffsets (GlobalOffsets s) (set_Globals (Globals s) s) = s.
Proof. destruct s; reflexivity. Qed.

Lemma InitializeMemory_frame (addressOf : ident -> Emitter -> result (Z * Emitter))
    (Init : Initializer) (Dest : nat) (s s' : Emitter) :
  (forall V s0 a s1, addressOf V s0 = Ok (a, s1) ->
     exists g o, s1 = set_GlobalOffsets o (set_Globals g s0)) ->
  InitializeMemory addressOf Init Dest s = Ok s' ->
  exists g o, s' = set_GlobalOffsets o (set_Globals g s).
Proof.
  intros Hcall. revert s.
  induction Init as [|off byte k IH|V k IH]; intros s; simpl.
  - intros [= <-]. exists (Globals s), (GlobalOffsets s). symmetry. apply set_identity.
  - intros H. apply IH in H. destruct H as (g & o & ->). exists g, o. reflexivity.
  - destruct (addressOf V s) as [[a s1]| |] eqn:Hlook; try discriminate. simpl.
    apply Hcall in Hlook. destruct Hlook as (g1 & o1 & ->).
    intros H. apply IH in H. destruct H as (g & o & ->). exists g, o. reflexivity.
Qed.

(** The registry calls write the arena and the offsets and nothing else. *)
Lemma getGlobalVariableAddress_frame (fuel : nat) (V : ident) (s s1 : Emitter) (a : Z) :
  getGlobalVariableAddress fuel V s = Ok (a, s1) ->
  exists g o, s1 = set_GlobalOffsets o (set_Globals g s).
Proof.
  revert V s s1 a. induction fuel as [|fuel IH]; intros V s s1 a; [discriminate|].
  simpl. destruct (GlobalOffsets s !! V) as [o|].
  - intros [= _ <-]. exists (Globals s), (GlobalOffsets s). symmetry. apply set_identity.
  - destruct (TheModule (engine s) V) as [GV| |]; try discriminate.
    destruct (isDeclaration GV || hasAvailableExternallyLinkage GV); [discriminate|].
    match goal with |- context [mbind _ ?r] => destruct r as [s2| |] eqn:Hinit end;
      try discriminate.
    simpl. intros [= _ <-].
    destruct (isThreadLocal GV).
    + injection Hinit as <-. eexists. eexists. reflexivity.
    + apply InitializeMemory_frame in Hinit; [|intros W s0 b s3; apply IH].
      destruct Hinit as (g & o & ->). eexists. eexists. reflexivity.
Qed.

Lemma resolveRelocation_frame (fuel : nat) (MR MR' : MachineRelocation) (s s' : Emitter) :
  resolveRelocation fuel MR s = Ok (MR', s') ->
  resolved_from MR MR' /\ exists g o, s' = set_GlobalOffsets o (set_Globals g s).
Proof.
  assert (Hid : exists g o, s = set_GlobalOffsets o (set_Globals g s))
    by (exists (Globals s), (GlobalOffsets s); symmetry; apply set_identity).
  unfold resolveRelocation, resolved_from.
  destruct (letTargetResolve MR); [intros [= <- <-]; split; [reflexivity|exact Hid]|].
  destruct (getTarget MR) as [name|V|V|MBB|idx|idx|idx|ptr]; simpl; try discriminate.
  - unfold getPointerToGlobal.
    destruct (TheModule (engine s) V) as [GV|aliasee|].
    + destruct (getGlobalVariableAddress fuel V s) as [[a s1]| |] eqn:Hcall;
        try discriminate.
      simpl. intros [= <- <-]. split; [eauto|].
      eapply getGlobalVariableAddress_frame. exact Hcall.
    + destruct (getGlobalAddress aliasee s) as [a| |]; try discriminate.
      simpl. intros [= <- <-]. split; [eauto|exact Hid].
    + simpl. intros [= <- <-]. split; [eauto|exact Hid].
  - unfold getPointerToGVIndirectSym, getPointerToGlobal.
    destruct (TheModule (engine s) V) as [GV|aliasee|].
    + destruct (getGlobalVariableAddress fuel V s) as [[a s1]| |] eqn:Hcall;
        try discriminate.
      simpl. intros [= <- <-]. split; [eauto|].
      eapply getGlobalVariableAddress_frame. exact Hcall.
    + destruct (getGlobalAddress aliasee s) as [a| |]; try discriminate.
      simpl. intros [= <- <-]. split; [eauto|exact Hid].
    + simpl. intros [= <- <-]. split; [eauto|exact Hid].
  - destruct (getMachineBasicBlockAddress MBB s) as [a| |]; try discriminate.
    simpl. intros [= <- <-]. split; [eauto|exact Hid].
  - destruct (getConstantPoolEntryAddress idx s) as [a| |]; try discriminate.
    simpl. intros [= <- <-]. split; [eauto|exact Hid].
  - destruct (getJumpTableEntryAddress idx s) as [a| |]; try discriminate.
    simpl. intros [= <- <-]. split; [eauto|exact Hid].
Qed.

Lemma resolveRelocation_list_frame (fuel : nat) (MRs MRs' : list MachineRelocation)
    (s s' : Emitter) :
  resolveRelocation_list fuel MRs s = Ok (MRs', s') ->
  Forall2 resolved_from MRs MRs' /\ exists g o, s' = set_GlobalOffsets o (set_Globals g s).
Proof.
  revert MRs' s. induction MRs as [|MR rest IH]; intros MRs' s; simpl.
  - intros [= <- <-]. split; [constructor|].
    exists (Globals s), (GlobalOffsets s). symmetry. apply set_identity.
  - destruct (resolveRelocation fuel MR s) as [[MR1 s1]| |] eqn:H1; try discriminate.
    simpl. destruct (resolveRelocation_list fuel rest s1) as [[rest1 s2]| |] eqn:H2;
      try discriminate.
    simpl. intros [= <- <-].
    apply resolveRelocation_frame in H1. destruct H1 as (Hr1 & g1 & o1 & ->).
    apply IH in H2. destruct H2 as (Hr2 & g2 & o2 & ->).
    split; [constructor; assumption|]. exists g2, o2. reflexivity.
Qed.

Lemma resolveRelocations_function_step (fuel : nat) (F : ident) (code : EmittedCode)
    (s s' : Emitter) :
  EmittedFunctions s !! F = Some code ->
  resolveRelocations_function fuel F code s = Ok s' ->
  exists MRs,
    Forall2 resolved_from (Relocations code) MRs /\
    EmittedFunctions s' !! F = Some (set_Relocations MRs code) /\
    (forall G, G <> F -> EmittedFunctions s' !! G = EmittedFunctions s !! G) /\
    Effects s' = Effects s ++ function_trace code MRs.
Proof.
  intros Hfind. unfold resolveRelocations_function, function_trace.
  destruct (Relocations code) as [|MR rest] eqn:HR.
  - simpl. intros [= <-]. exists []. split; [constructor|]. simpl.
    split; [|split; [reflexivity|reflexivity]].
    rewrite Hfind. f_equal. destruct code. simpl in HR. subst. reflexivity.
  - destruct (resolveRelocation_list fuel (MR :: rest) s) as [[MRs s1]| |] eqn:Hlist;
      try discriminate.
    apply resolveRelocation_list_frame in Hlist. destruct Hlist as (Hres & g & o & ->).
    simpl. intros [= <-]. exists MRs. split; [exact Hres|]. simpl.
    split; [rewrite lookup_alter_eq, Hfind; reflexivity|].
    split; [|rewrite <- app_assoc; reflexivity].
    intros G Hne. apply lookup_alter_ne. congruence.
Qed.

Lemma resolveRelocations_loop_spec (fuel : nat) (codes : list (ident * EmittedCode))
    (s s' : Emitter) :
  NoDup (codes.*1) ->
  (forall F code, In (F, code) codes -> EmittedFunctions s !! F = Some code) ->
  resolveRelocations_loop fuel codes s = Ok s' ->
  (forall G, ~ In G (codes.*1) -> EmittedFunctions s' !! G = EmittedFunctions s !! G) /\
  exists results,
    Forall2 (fun fc MRs =>
               Forall2 resolved_from (Relocations fc.2) MRs /\
               EmittedFunctions s' !! fc.1 = Some (set_Relocations MRs fc.2))
            codes results /\
    Effects s' =
      Effects s ++ concat (zip_with (fun fc MRs => function_trace fc.2 MRs) codes results).
Proof.
  revert s. induction codes as [|[F code] rest IH]; intros s Hnodup Hsnap; simpl.
  - intros [= <-]. split; [reflexivity|]. exists []. split; [constructor|].
    simpl. rewrite app_nil_r. reflexivity.
  - destruct (resolveRelocations_function fuel F code s) as [s1| |] eqn:Hstep;
      try discriminate.
    simpl. intros Hloop.
    apply resolveRelocations_function_step in Hstep; [|apply Hsnap; left; reflexivity].
    destruct Hstep as (MRs & Hres & HF & Hoth & Heff).
    simpl in Hnodup. apply NoDup_cons in Hnodup. destruct Hnodup as [HnotF Hnodup].
    rewrite list_elem_of_In in HnotF.
    assert (Hsnap1 : forall G c, In (G, c) rest -> EmittedFunctions s1 !! G = Some c).
    { intros G c Hin. rewrite Hoth; [apply Hsnap; right; exact Hin|].
      intros ->. apply HnotF. apply in_map_iff. exists (F, c). split; [reflexivity|exact Hin]. }
    destruct (IH s1 Hnodup Hsnap1 Hloop) as (Hout & results & Hall & Htrace).
    split.
    + intros G HG. rewrite Hout by (intros Hin; apply HG; right; exact Hin).
      apply Hoth. intros ->. apply HG. left. reflexivity.
    + exists (MRs :: results). split.
      * constructor; [|exact Hall]. simpl. split; [exact Hres|].
        rewrite Hout by exact HnotF. exact HF.
      * rewrite Htrace, Heff. simpl. rewrite <- app_assoc. reflexivity.
Qed.

(** X19. A pass of [resolveRelocations] that returns has, for every
    emitted function in the order of the visit, given a result pointer to
    each relocation that is not left to the target and left the others
    untouched, kept the function body, code start and size of the entry,
    and sent out exactly one call of the patcher with the whole relocation
    list (none for a function without relocations) followed by one call of
    the disassembler; it neither adds nor removes a function. *)
Theorem X19_pass_resolves_every_function_once (fuel : nat) (s s' : Emitter) :
  resolveRelocations fuel s = Ok s' ->
  (forall G, EmittedFunctions s !! G = None -> EmittedFunctions s' !! G = None) /\
  exists results,
    Forall2 (fun fc MRs =>
               Forall2 resolved_from (Relocations fc.2) MRs /\
               EmittedFunctions s' !! fc.1 = Some (set_Relocations MRs fc.2))
            (map_to_list (EmittedFunctions s)) results /\
    Effects s' =
      Effects s ++
      concat (zip_with (fun fc MRs => function_trace fc.2 MRs)
                (map_to_list (EmittedFunctions s)) results).
Proof.
  unfold resolveRelocations. intros Hloop.
  apply resolveRelocations_loop_spec in Hloop.
  - destruct Hloop as [Hout Hres]. split; [|exact Hres].
    intros G HG. rewrite Hout; [exact HG|].
    intros Hin. apply in_map_iff in Hin. destruct Hin as ([G' c] & HG' & Hin).
    simpl in HG'. subst G'.
    apply list_elem_of_In, elem_of_map_to_list in Hin. congruence.
  - apply NoDup_fst_map_to_list.
  - intros F code Hin. apply list_elem_of_In, elem_of_map_to_list in Hin. exact Hin.
Qed.

Lemma resolveRelocation_list_target_resolved (fuel : nat) (MRs : list MachineRelocation)
    (s : Emitter) :
  (forall MR, In MR MRs -> letTargetResolve MR = true) ->
  resolveRelocation_list fuel MRs s = Ok (MRs, s).
Proof.
  induction MRs as [|MR rest IH]; intros Hall; [reflexivity|].
  simpl. unfold resolveRelocation. rewrite (Hall MR) by (left; reflexivity). simpl.
  rewrite IH by (intros MR' Hin; apply Hall; right; exact Hin). reflexivity.
Qed.

Lemma update_code_same (F : ident) (code : EmittedCode) (s : Emitter) :
  EmittedFunctions s !! F = Some code ->
  update_code F (set_Relocations (Relocations code)) s = s.
Proof.
  intros Hfind. unfold update_code. rewrite alter_id.
  - destruct s; reflexivity.
  - intros x Hx. rewrite Hfind in Hx. injection Hx as <-. destruct code; reflexivity.
Qed.

Lemma resolveRelocations_loop_target_resolved (fuel : nat)
    (codes : list (ident * EmittedCode)) (s : Emitter) :
  (forall F code, In (F, code) codes -> EmittedFunctions s !! F = Some code) ->
  (forall F code MR, In (F, code) codes -> In MR (Relocations code) ->
                     letTargetResolve MR = true) ->
  resolveRelocations_loop fuel codes s =
    Ok (set_Effects
          (Effects s ++
           concat (map (fun fc => function_trace fc.2 (Relocations fc.2)) codes)) s).
Proof.
  revert s. induction codes as [|[F code] rest IH]; intros s Hsnap Hall; simpl.
  - rewrite app_nil_r. f_equal. destruct s; reflexivity.
  - assert (Hstep : resolveRelocations_function fuel F code s =
                    Ok (set_Effects (Effects s ++ function_trace code (Relocations code)) s)).
    { unfold resolveRelocations_function, function_trace.
      destruct (Relocations code) as [|MR MRs] eqn:HR; [reflexivity|].
      rewrite resolveRelocation_list_target_resolved.
      - simpl. rewrite <- HR. rewrite update_code_same by (apply Hsnap; left; reflexivity).
        unfold emit_effect, set_Effects. simpl. rewrite <- app_assoc. reflexivity.
      - intros MR' Hin. apply (Hall F code); [left; reflexivity|rewrite HR; exact Hin]. }
    rewrite Hstep. simpl. rewrite IH.
    + f_equal. unfold set_Effects. simpl. rewrite <- app_assoc. reflexivity.
    + intros G c Hin. simpl. apply Hsnap. right. exact Hin.
    + intros G c MR Hin. apply (Hall G c MR). right. exact Hin.
Qed.

(** The condition on the relocations, as a check over the emitted
    functions. *)
Lemma all_target_resolved_check (s : Emitter) :
  forallb (fun fc : ident * EmittedCode => forallb letTargetResolve (Relocations fc.2))
          (map_to_list (EmittedFunctions s)) = true ->
  all_target_resolved s.
Proof.
  intros Hcheck F code MR Hfind Hin.
  rewrite forallb_forall in Hcheck.
  assert (Hcode : In (F, code) (map_to_list (EmittedFunctions s)))
    by (apply list_elem_of_In, elem_of_map_to_list; exact Hfind).
  specialize (Hcheck (F, code) Hcode). simpl in Hcheck.
  rewrite forallb_forall in Hcheck. exact (Hcheck MR Hin).
Qed.

(** X20. When every relocation of every emitted function is left to the
    target, the pass returns at any fuel and changes nothing but the trace:
    no relocation gets a result pointer, the registry and the arena are not
    consulted or written, and each function is handed to the patcher (if it
    has relocations) with its list as recorded and then to the
    disassembler. In particular a unit without relocations always
    resolves. *)
Theorem X20_pass_with_target_resolved_relocations (fuel : nat) (s : Emitter) :
  all_target_resolved s ->
  resolveRelocations fuel s =
    Ok (set_Effects
          (Effects s ++
           concat (map (fun fc => function_trace fc.2 (Relocations fc.2))
                     (map_to_list (EmittedFunctions s)))) s).
Proof.
  intros Hall. unfold resolveRelocations.
  apply resolveRelocations_loop_target_resolved.
  - intros F code Hin. apply list_elem_of_In, elem_of_map_to_list in Hin. exact Hin.
  - intros F code MR Hin. apply list_elem_of_In, elem_of_map_to_list in Hin.
    apply (Hall F code MR Hin).
Qed.

(** The table after a block start: the block is at the cursor, the other
    entries are kept. *)
Lemma StartMachineBasicBlock_table (MBB : nat) (s : Emitter) :
  MBBLocations (StartMachineBasicBlock MBB s) !! MBB = Some (getCurrentPCValue s) /\
  forall other a, other <> MBB -> MBBLocations s !! other = Some a ->
                  MBBLocations (StartMachineBasicBlock MBB s) !! other = Some a.
Proof.
  unfold StartMachineBasicBlock. simpl.
  destruct (length (MBBLocations s) <=? MBB)%nat eqn:Hlen.
  - apply Nat.leb_le in Hlen. split.
    + apply list_lookup_insert_eq. rewrite length_resize. lia.
    + intros other a Hne Ha. rewrite list_lookup_insert_ne by congruence.
      apply lookup_lt_Some in Ha as Hlt. rewrite lookup_resize by lia. exact Ha.
  - apply Nat.leb_gt in Hlen. split.
    + apply list_lookup_insert_eq. exact Hlen.
    + intros other a Hne Ha. rewrite list_lookup_insert_ne by congruence. exact Ha.
Qed.

(** X21. Overflow is sticky: once the cursor is at the end of the buffer,
    whatever body is emitted afterwards returns, stores nothing and leaves
    the cursor there (blocks and labels are then recorded at the end of the
    buffer), and the [finishFunction] that follows asks for another
    attempt. *)
Theorem X21_overflow_is_sticky (F : MachineFunction) (body : list Emission) (s : Emitter)
    (f : ident) (code : EmittedCode) :
  CurBufferPtr s = BufferEnd s ->
  CurrentCode s = Some f ->
  EmittedFunctions s !! f = Some code ->
  exists s' s'',
    emitInstructions body s = Ok s' /\
    CurBufferPtr s' = BufferEnd s /\ BufferEnd s' = BufferEnd s /\
    Effects s' = Effects s /\
    (forall MBB, In (StartMBB MBB) body -> MBBLocations s' !! MBB = Some (BufferEnd s)) /\
    finishFunction F s' = Ok (true, s'').
Proof.
  intros Hfull Hcur Hfind.
  assert (Hrun : exists s',
            emitInstructions body s = Ok s' /\
            CurBufferPtr s' = BufferEnd s /\ BufferEnd s' = BufferEnd s /\
            Effects s' = Effects s /\
            (forall MBB,
               MBBLocations s !! MBB = Some (BufferEnd s) \/ In (StartMBB MBB) body ->
               MBBLocations s' !! MBB = Some (BufferEnd s))).
  { clear F. revert s code Hfull Hcur Hfind.
    induction body as [|e rest IH]; intros s code Hfull Hcur Hfind.
    - exists s. simpl. repeat split; try reflexivity; try assumption.
      intros MBB [Ha|[]]. exact Ha.
    - assert (Hstep : exists s1 code1,
                emit e s = Ok s1 /\ CurBufferPtr s1 = BufferEnd s /\
                BufferEnd s1 = BufferEnd s /\ Effects s1 = Effects s /\
                CurrentCode s1 = Some f /\ EmittedFunctions s1 !! f = Some code1 /\
                (forall MBB,
                   MBBLocations s !! MBB = Some (BufferEnd s) \/ e = StartMBB MBB ->
                   MBBLocations s1 !! MBB = Some (BufferEnd s))).
      { destruct e as [B|MR|MBB|Label]; simpl.
        - exists s, code. unfold emitByte. apply Z.eqb_eq in Hfull as Hb. rewrite Hb.
          repeat split; try assumption; try reflexivity.
          intros M [HM|[=]]. exact HM.
        - unfold addRelocation. rewrite Hcur, Hfind.
          eexists. eexists. split; [reflexivity|]. simpl.
          repeat split; try assumption.
          + apply lookup_insert_eq.
          + intros M [HM|[=]]. exact HM.
        - exists (StartMachineBasicBlock MBB s), code. split; [reflexivity|].
          destruct (StartMachineBasicBlock_table MBB s) as (Hnew & Hkeep).
          repeat split; try assumption.
          intros M [HM|[= ->]].
          + destruct (decide (M = MBB)) as [->|Hne].
            * rewrite Hnew. unfold getCurrentPCValue. rewrite Hfull. reflexivity.
            * apply Hkeep; assumption.
          + rewrite Hnew. unfold getCurrentPCValue. rewrite Hfull. reflexivity.
        - exists (emitLabel Label s), code. simpl.
          repeat split; try assumption.
          intros M [HM|[=]]. exact HM. }
      destruct Hstep as (s1 & code1 & Hemit & Hc1 & He1 & Hf1 & Hcur1 & Hfind1 & Hmbb1).
      assert (Hfull1 : CurBufferPtr s1 = BufferEnd s1) by congruence.
      destruct (IH s1 code1 Hfull1 Hcur1 Hfind1) as (s' & Hrun & Hc' & He' & Hf' & Hmbb').
      rewrite He1 in Hc', He', Hmbb'.
      exists s'. simpl. rewrite Hemit. simpl.
      split; [exact Hrun|]. split; [exact Hc'|]. split; [exact He'|].
      split; [congruence|].
      intros MBB [Ha|[->|Hin]].
      + apply Hmbb'. left. apply Hmbb1. left. exact Ha.
      + apply Hmbb'. left. apply Hmbb1. right. reflexivity.
      + apply Hmbb'. right. exact Hin. }
  destruct Hrun as (s' & Hrun & Hc & He & Hf & Hnew).
  exists s'. eexists. split; [exact Hrun|]. split; [exact Hc|]. split; [exact He|].
  split; [exact Hf|]. split; [intros MBB Hin; apply Hnew; right; exact Hin|].
  unfold finishFunction. rewrite Hc, He, Z.eqb_refl. reflexivity.
Qed.

(** ** Further properties: allocation without a buffer, relative jump tables *)

(** X22. With no buffer open, [allocateSpace] takes a block of exactly
    [Size] bytes from malloc, makes it the buffer and returns its start
    without advancing the cursor: the space it hands out is not reserved,
    and the next allocation whose alignment the block satisfies, of any
    smaller size, returns the same address again. *)
Theorem X22_allocateSpace_without_buffer (Size Alignment : Z) (s : Emitter) :
  BufferBegin s = 0 ->
  let p := hd 0 (Heap s) in
  let s1 := snd (allocateSpace Size Alignment s) in
  fst (allocateSpace Size Alignment s) = p /\
  BufferBegin s1 = p /\ CurBufferPtr s1 = p /\ BufferEnd s1 = p + Size /\
  Heap s1 = tl (Heap s) /\
  (forall Size2 Alignment2,
     0 < p -> 0 < Alignment2 -> p mod Alignment2 = 0 -> p + Alignment2 <= 2 ^ 64 ->
     0 <= Size2 < Size ->
     fst (allocateSpace Size2 Alignment2 s1) = p /\
     BufferBegin (snd (allocateSpace Size2 Alignment2 s1)) = p /\
     BufferEnd (snd (allocateSpace Size2 Alignment2 s1)) = p + Size).
Proof.
  intros Hnull p s1.
  assert (Hs1 : s1 = set_BufferEnd (p + Size)
                       (set_CurBufferPtr p (set_BufferBegin p (set_Heap (tl (Heap s)) s)))).
  { unfold s1, p, allocateSpace, memAllocateSpace, std_malloc. rewrite Hnull. simpl.
    destruct (Heap s) as [|q rest] eqn:Hheap; simpl; [|reflexivity].
    destruct s; simpl in Hheap; subst; reflexivity. }
  assert (Hfst : fst (allocateSpace Size Alignment s) = p).
  { unfold p, allocateSpace, memAllocateSpace, std_malloc. rewrite Hnull. simpl.
    destruct (Heap s); reflexivity. }
  split; [exact Hfst|].
  rewrite Hs1. simpl.
  split; [reflexivity|]. split; [reflexivity|]. split; [reflexivity|].
  split; [reflexivity|].
  intros Size2 Alignment2 Hp HA Hmod Hfit HS.
  unfold allocateSpace. simpl.
  destruct (Z.eqb_spec p 0) as [->|_]; [lia|].
  unfold JITCodeEmitter_allocateSpace, emitAlignment. simpl.
  destruct (Z.eqb_spec Alignment2 0) as [->|_]; [lia|].
  destruct (RoundUpToAlignment_spec p Alignment2 HA ltac:(lia) Hfit) as [Hr Hb].
  assert (Hround : RoundUpToAlignment p Alignment2 = p).
  { apply Z.mod_divide in Hr; [|lia]. apply Z.mod_divide in Hmod; [|lia].
    destruct Hr as [k Hk]. destruct Hmod as [m Hm].
    assert (Hkm : k = m) by nia. rewrite Hk, Hm, Hkm. reflexivity. }
  rewrite Hround. rewrite Z.min_l by lia.
  destruct (Z.leb_spec (p + Size - p) Size2); [lia|]. simpl. auto.
Qed.

Lemma map_lookup_Some {A B : Type} (f : A -> B) (l : list A) (i : nat) (a : A) :
  l !! i = Some a -> map f l !! i = Some (f a).
Proof.
  revert i. induction l as [|x l IH]; intros [|i]; simpl; try discriminate.
  - intros [= ->]. reflexivity.
  - apply IH.
Qed.

(** A fill that returns has only added stores; the block table is the one
    it read. *)
Lemma emitJumpTable_tables_grows (entry : Z -> Z -> Z) (width : Z) (JT : list (list nat))
    (SlotPtr : Z) (s s' : Emitter) :
  emitJumpTable_tables entry width JT SlotPtr s = Ok s' ->
  exists stores, s' = set_Effects (Effects s ++ stores) s.
Proof.
  revert SlotPtr s. induction JT as [|MBBs rest IH]; intros SlotPtr s; simpl.
  - intros [= <-]. exists []. rewrite app_nil_r. destruct s; reflexivity.
  - rewrite emitJumpTable_slots_fill.
    destruct (block_addresses (MBBLocations s) MBBs) as [addrs|]; [|discriminate].
    simpl. intros H. apply IH in H. destruct H as [more ->]. simpl.
    eexists. unfold set_Effects. simpl. rewrite <- app_assoc. reflexivity.
Qed.

(** The slot of block number [j] of table [Index]: its entry is computed
    against the address at which the table [Index] itself starts. *)
Lemma emitJumpTable_tables_store (entry : Z -> Z -> Z) (width : Z) (JT : list (list nat))
    (SlotPtr : Z) (s s' : Emitter) (Index j : nat) (MBBs : list nat) (MBB : nat) :
  emitJumpTable_tables entry width JT SlotPtr s = Ok s' ->
  JT !! Index = Some MBBs -> MBBs !! j = Some MBB ->
  let table := SlotPtr + width * Z.of_nat (length (concat (take Index JT))) in
  exists a, MBBLocations s !! MBB = Some a /\ a <> 0 /\
            In (Store (table + width * Z.of_nat j) (entry table a)) (Effects s').
Proof.
  revert SlotPtr s Index. induction JT as [|T rest IH]; intros SlotPtr s Index; simpl;
    [intros _ HI; destruct Index; discriminate|].
  rewrite emitJumpTable_slots_fill.
  destruct (block_addresses (MBBLocations s) T) as [addrs|] eqn:Hblocks; [|discriminate].
  simpl. intros Hrest HI Hj. destruct Index as [|Index]; simpl in HI.
  - injection HI as ->. simpl.
    destruct (block_addresses_lookup _ _ _ _ _ Hblocks Hj) as (a & Ha & HL & Hnz).
    exists a. split; [exact HL|]. split; [exact Hnz|].
    apply emitJumpTable_tables_grows in Hrest. destruct Hrest as [more ->]. simpl.
    apply in_or_app. left. apply in_or_app. right.
    apply list_elem_of_In, list_elem_of_lookup. exists j.
    rewrite (slot_stores_lookup SlotPtr width _ j (entry SlotPtr a))
      by (apply map_lookup_Some; exact Ha).
    do 2 f_equal; [lia|f_equal; lia].
  - destruct (IH _ _ _ Hrest HI Hj) as (a & HL & Hnz & Hin).
    exists a. split; [exact HL|]. split; [exact Hnz|].
    simpl. rewrite length_app, Nat2Z.inj_add.
    replace (SlotPtr + width * (Z.of_nat (length T) +
               Z.of_nat (length (concat (take Index rest)))))
      with (SlotPtr + width * Z.of_nat (length T) +
            width * Z.of_nat (length (concat (take Index rest)))) by lia.
    exact Hin.
Qed.

(** X23. For the 32-bit relative kinds (custom, GP-relative, label
    difference) a fill that returns had 4-byte entries, and the slot of
    block number [j] of table [Index], at the start of that table plus
    4 x [j], holds what the target's hook makes of the recorded location of
    the block and of the start of that same table (not of the start of the
    whole jump-table area). The fill changes nothing but the stores. *)
Theorem X23_relative_jump_table_entries (MJTI : MachineJumpTableInfo) (s s' : Emitter)
    (Index j : nat) (MBBs : list nat) (MBB : nat) :
  hasCustomJumpTables (TM s) = false ->
  getEntryKind MJTI = EK_Custom32 \/ getEntryKind MJTI = EK_GPRel32BlockAddress \/
    getEntryKind MJTI = EK_LabelDifference32 ->
  JumpTableBase s <> 0 ->
  emitJumpTableInfo MJTI s = Ok s' ->
  getJumpTables MJTI !! Index = Some MBBs ->
  MBBs !! j = Some MBB ->
  let table :=
    JumpTableBase s + 4 * Z.of_nat (length (concat (take Index (getJumpTables MJTI)))) in
  getEntrySize MJTI = 4 /\
  (exists stores, s' = set_Effects (Effects s ++ stores) s) /\
  exists a,
    MBBLocations s !! MBB = Some a /\ a <> 0 /\
    In (Store (table + 4 * Z.of_nat j) (getPICJumpTableEntry (TM s) a table)) (Effects s').
Proof.
  intros Hcustom Hkind Hbase Hfill HI Hj table.
  assert (Hne : getJumpTables MJTI <> []) by (intros E; rewrite E in HI; discriminate).
  unfold emitJumpTableInfo in Hfill. rewrite Hcustom in Hfill.
  rewrite bool_decide_eq_false_2 in Hfill by exact Hne.
  apply Z.eqb_neq in Hbase. rewrite Hbase in Hfill. simpl in Hfill.
  assert (Hloop : (getEntrySize MJTI =? 4) = true /\
            emitJumpTable_tables
              (fun Base MBBAddr => getPICJumpTableEntry (TM s) MBBAddr Base)
              4 (getJumpTables MJTI) (JumpTableBase s) s = Ok s').
  { destruct Hkind as [Hk|[Hk|Hk]]; rewrite Hk in Hfill;
      destruct (getEntrySize MJTI =? 4); try discriminate; split; auto. }
  destruct Hloop as [Hsize Hloop]. apply Z.eqb_eq in Hsize.
  split; [exact Hsize|].
  split; [exact (emitJumpTable_tables_grows _ _ _ _ _ _ Hloop)|].
  exact (emitJumpTable_tables_store _ _ _ _ _ _ _ _ _ _ Hloop HI Hj).
Qed.

(** X24. [JumpTable] and [JumpTableBase] are members of the emitter, set
    by [initJumpTableInfo] for each function that has jump tables, and the
    pass reads them after all functions. Function 12 (buffer at 0x10000)
    writes its table 1 at 0x10018 and, resolved alone, its relocation for
    table 1 gets 0x10018. When function 13, with two tables of one block,
    is emitted next (buffer at 0x20000), the pass resolves the relocation
    of function 12 to 0x20008, the table 1 of function 13. *)
Theorem X24_jump_table_relocation_takes_last_function_table :
  (s ← runOnMachineFunction 1 function_with_tables body_switch (fresh [0x10000; 0x20000]);
   s' ← resolveRelocations 1 s;
   Ok (Effects s, map getTarget <$> (Relocations <$> EmittedFunctions s' !! 12%positive)))
  = Ok ([Store 0x10030 0xFF; Store 0x10031 2; Store 0x10032 3; Store 0x10033 0xC3;
         Store 0x10000 0x10030; Store 0x10008 0x10031; Store 0x10010 0x10032;
         Store 0x10018 0x10031; Store 0x10020 0x10033],
        Some [isResult 0x10018]) /\
  (s ← runOnMachineFunction 1 function_with_tables body_switch (fresh [0x10000; 0x20000]);
   s ← runOnMachineFunction 1 function_with_small_tables body_one_block s;
   s' ← resolveRelocations 1 s;
   Ok (JumpTableBase s, JumpTable s,
       map getTarget <$> (Relocations <$> EmittedFunctions s' !! 12%positive)))
  = Ok (0x20000, Some small_tables, Some [isResult 0x20008]).
Proof. split; vm_compute; reflexivity. Qed.

(** ** The further properties on sample units *)

Lemma X1_block_location_witness :
  CurBufferPtr open_buffer <> 0 /\
  getMachineBasicBlockAddress 3 (StartMachineBasicBlock 3 open_buffer) =
    Ok (CurBufferPtr open_buffer).
Proof.
  assert (Hpc : CurBufferPtr open_buffer <> 0) by (vm_compute; congruence).
  split; [exact Hpc|].
  exact (proj1 (X1_block_location_round_trip 3 open_buffer Hpc)).
Defined.

Lemma X2_block_not_emitted_witness :
  CurBufferPtr (fresh [0x10000]) = 0 /\
  getMachineBasicBlockAddress 0 (StartMachineBasicBlock 0 (fresh [0x10000])) =
    Fatal (AssertionFailed "MBB not emitted!") /\
  getMachineBasicBlockAddress 0 open_buffer = Fatal (AssertionFailed "MBB not emitted!").
Proof.
  destruct (X2_block_not_emitted 0 (fresh [0x10000])) as (_ & Hnull & Hstart).
  split; [reflexivity|]. split; [apply Hnull; reflexivity|].
  apply (Hstart (sample_function 10%positive no_pool) open_buffer).
  vm_compute. reflexivity.
Defined.

Lemma X3_label_location_witness :
  getLabelAddress 7%positive (emitLabel 7%positive open_buffer) = Ok (CurBufferPtr open_buffer) /\
  getLabelAddress 8%positive (emitLabel 7%positive open_buffer) =
    getLabelAddress 8%positive open_buffer /\
  getLabelAddress 7%positive open_buffer = Fatal (AssertionFailed "Label not emitted!").
Proof.
  destruct (X3_label_location_round_trip 7%positive open_buffer)
    as (Hfound & Hother & Hmissing & _).
  split; [exact Hfound|]. split; [apply Hother; discriminate|].
  apply Hmissing. vm_compute. reflexivity.
Defined.

Lemma X4_deallocate_witness :
  EmittedFunctions (deallocateMemForFunction 10%positive unit_calling_puts) !! 10%positive
    = None /\
  EmittedFunctions unit_calling_puts !! 11%positive = None /\
  deallocateMemForFunction 11%positive unit_calling_puts = unit_calling_puts.
Proof.
  destruct (X4_deallocateMemForFunction_removes_one_entry 10%positive unit_calling_puts)
    as (Hgone & _).
  destruct (X4_deallocateMemForFunction_removes_one_entry 11%positive unit_calling_puts)
    as (_ & _ & Hnoop & _).
  assert (Hnone : EmittedFunctions unit_calling_puts !! 11%positive = None)
    by (vm_compute; reflexivity).
  split; [exact Hgone|]. split; [exact Hnone|exact (Hnoop Hnone)].
Defined.

Lemma X5_constant_pool_layout_witness :
  let s' := emitter_or (emitConstantPool pool_aligned open_buffer) open_buffer in
  emitConstantPool pool_aligned open_buffer = Ok s' /\
  exists offs,
    laid_out 0 (getConstants pool_aligned) offs (GetConstantPoolSizeInBytes pool_aligned) /\
    forall i o, offs !! i = Some o ->
      getConstantPoolEntryAddress i s' = Ok (uptr open_buffer (ConstantPoolBase s' + o)).
Proof.
  intros s'.
  assert (Hemit : emitConstantPool pool_aligned open_buffer = Ok s')
    by (vm_compute; reflexivity).
  assert (Hok : Forall entry_ok (getConstants pool_aligned)).
  { repeat constructor; simpl; try lia.
    - exists 2. split; [lia|reflexivity].
    - exists 3. split; [lia|reflexivity].
    - exists 0. split; [lia|reflexivity]. }
  assert (Hroom : pool_room (getConstants pool_aligned) < 2 ^ 32) by (vm_compute; reflexivity).
  assert (Hbase : ConstantPoolBase s' <> 0) by (vm_compute; congruence).
  assert (Hne : getConstants pool_aligned <> []) by discriminate.
  split; [exact Hemit|].
  destruct (X5_constant_pool_layout pool_aligned open_buffer s' Hok Hroom Hemit Hbase Hne)
    as (offs & _ & Hlaid & Hlookup).
  exists offs. split; [exact Hlaid|]. apply Hlookup. reflexivity.
Defined.

Lemma X6_constant_pool_failure_witness :
  is_Ok (emitConstantPool pool_machine open_buffer) = false /\
  is_Ok (emitConstantPool pool_aligned open_buffer) = true.
Proof.
  destruct (X6_constant_pool_failure pool_machine open_buffer) as [Hfail _].
  destruct (X6_constant_pool_failure pool_aligned open_buffer) as [_ Hok].
  split.
  - rewrite Hfail; [reflexivity|vm_compute; congruence|].
    apply Exists_cons_hd. reflexivity.
  - apply Hok. right. unfold plain_pool. repeat constructor.
Defined.

Lemma X7_emission_witness :
  let code := default EmittedCode_default (EmittedFunctions open_buffer !! 10%positive) in
  (CurrentCode open_buffer = Some 10%positive /\
   EmittedFunctions open_buffer !! 10%positive = Some code) /\
  exists s',
    emitInstructions body_call_puts open_buffer = Ok s' /\
    EmittedFunctions s' !! 10%positive =
      Some (set_Relocations (Relocations code ++ relocations_of body_call_puts) code).
Proof.
  intros code.
  assert (Hcur : CurrentCode open_buffer = Some 10%positive) by (vm_compute; reflexivity).
  assert (Hfind : EmittedFunctions open_buffer !! 10%positive = Some code)
    by (vm_compute; reflexivity).
  split; [split; assumption|].
  destruct (proj1 (X7_emission_appends_relocations_in_order body_call_puts open_buffer)
              10%positive code Hcur Hfind) as (s' & Hrun & Hentry & _).
  exists s'. split; assumption.
Defined.

Lemma X8_finishFunction_retry_witness :
  let F := sample_function 10%positive no_pool in
  CurBufferPtr filled_buffer = BufferEnd filled_buffer /\
  (exists s1, finishFunction F filled_buffer = Ok (true, s1) /\
              Effects s1 = Effects filled_buffer /\
              MBBLocations s1 = MBBLocations filled_buffer /\ Heap s1 = Heap filled_buffer) /\
  (forall again s1, finishFunction F call_emitted = Ok (again, s1) ->
     (again = true <-> CurBufferPtr call_emitted = BufferEnd call_emitted)).
Proof.
  intros F.
  assert (Hfull : CurBufferPtr filled_buffer = BufferEnd filled_buffer)
    by (vm_compute; reflexivity).
  split; [exact Hfull|]. split.
  - exact (proj2 (X8_finishFunction_retries_iff_buffer_full F filled_buffer) Hfull).
  - exact (proj1 (X8_finishFunction_retries_iff_buffer_full F call_emitted)).
Defined.

Lemma X9_finishFunction_size_witness :
  let F := sample_function 10%positive no_pool in
  let s1 := state_or (finishFunction F call_emitted) call_emitted in
  finishFunction F call_emitted = Ok (false, s1) /\
  BufferBegin s1 = 0 /\ CurBufferPtr s1 = 0 /\ BufferEnd s1 = BufferEnd call_emitted.
Proof.
  intros F s1.
  assert (Hfin : finishFunction F call_emitted = Ok (false, s1))
    by (vm_compute; reflexivity).
  split; [exact Hfin|].
  exact (proj2 (X9_finishFunction_records_code_size F call_emitted s1 Hfin)).
Defined.

Lemma X10_retry_double_witness :
  let F := sample_function 10%positive no_pool in
  let s1 := state_or (finishFunction F filled_buffer) filled_buffer in
  let s2 := emitter_or (startFunction F s1) s1 in
  finishFunction F filled_buffer = Ok (true, s1) /\
  startFunction F s1 = Ok s2 /\
  BufferBegin s2 = hd 0 (Heap filled_buffer) /\
  BufferEnd s2 - BufferBegin s2 =
    if 0 <? BufferEnd filled_buffer - BufferBegin filled_buffer
    then 2 * (BufferEnd filled_buffer - BufferBegin filled_buffer)
    else 4096.
Proof.
  intros F s1 s2.
  assert (Hfin : finishFunction F filled_buffer = Ok (true, s1)) by (vm_compute; reflexivity).
  assert (Hstart : startFunction F s1 = Ok s2) by (vm_compute; reflexivity).
  assert (Hheap : hd 0 (Heap filled_buffer) <> 0) by (vm_compute; congruence).
  assert (Hrange : 0 <= 2 * (BufferEnd filled_buffer - BufferBegin filled_buffer)
                   < 2 ^ PointerSizeInBits (TM filled_buffer))
    by (vm_compute; split; congruence).
  split; [exact Hfin|]. split; [exact Hstart|].
  exact (X10_retry_opens_double_buffer F filled_buffer s1 s2 Hfin Hstart Hheap Hrange).
Defined.

Lemma X11_finished_attempt_witness :
  let F := sample_function 10%positive no_pool in
  let s' := state_or (emitAttempt F body_call_puts (fresh [0x10000])) (fresh []) in
  emitAttempt F body_call_puts (fresh [0x10000]) = Ok (false, s') /\
  exists code,
    EmittedFunctions s' !! getFunction F = Some code /\
    Relocations code =
      Relocations (default EmittedCode_default
                     (EmittedFunctions (fresh [0x10000]) !! getFunction F)) ++
        relocations_of body_call_puts /\
    Function_ code = Some (getFunction F) /\
    FunctionBody code = hd 0 (Heap (fresh [0x10000])).
Proof.
  intros F s'.
  assert (Hrun : emitAttempt F body_call_puts (fresh [0x10000]) = Ok (false, s'))
    by (vm_compute; reflexivity).
  split; [exact Hrun|].
  exact (proj1 (X11_finished_attempt_entry F body_call_puts (fresh [0x10000]) s' Hrun)).
Defined.

Lemma X12_retry_loop_witness :
  let F := sample_function 10%positive no_pool in
  let s := retrying [0x10000; 0x20000] in
  let s' := emitter_or (runOnMachineFunction 2 F body_sixteen s) s in
  EmittedFunctions s !! getFunction F = None /\
  runOnMachineFunction 2 F body_sixteen s = Ok s' /\
  runOnMachineFunction 1 F body_sixteen s = OutOfFuel /\
  exists code,
    EmittedFunctions s' !! getFunction F = Some code /\
    Relocations code = relocations_of body_sixteen /\
    Function_ code = Some (getFunction F).
Proof.
  intros F s s'.
  assert (Hnone : EmittedFunctions s !! getFunction F = None) by (vm_compute; reflexivity).
  assert (Hrun : runOnMachineFunction 2 F body_sixteen s = Ok s')
    by (vm_compute; reflexivity).
  split; [exact Hnone|]. split; [exact Hrun|]. split; [vm_compute; reflexivity|].
  exact (proj1 (X12_retry_loop_is_transparent 2 F body_sixteen s s' Hnone Hrun)).
Defined.

Lemma X13_pointer_witness :
  getPointerToGlobal 1 9%positive 0 true (unit_fresh []) = Ok (0, unit_fresh []) /\
  getPointerToGlobal 1 3%positive 0 false with_counter = Ok (0xDA000000, with_counter) /\
  getPointerToGlobal 1 3%positive 0 false (unit_fresh []) =
    Fatal (Unreachable "Global hasn't had an address allocated yet!") /\
  resolveRelocation 1 (reloc (isGlobalValue 9%positive)) (unit_fresh []) =
    Ok (setResultPointer (reloc (isGlobalValue 9%positive)) 0, unit_fresh []).
Proof.
  destruct (X13_pointer_to_function_and_alias 1 9%positive 0 true (unit_fresh []))
    as (Hfun & _ & _ & _ & Hreloc).
  destruct (X13_pointer_to_function_and_alias 1 3%positive 0 false with_counter)
    as (_ & Halias & _).
  destruct (X13_pointer_to_function_and_alias 1 3%positive 0 false (unit_fresh []))
    as (_ & _ & Hmissing & _).
  split; [apply Hfun; reflexivity|].
  split; [apply (Halias 2%positive 0); reflexivity|].
  split; [apply (Hmissing 2%positive); reflexivity|].
  apply Hreloc; [reflexivity|reflexivity|left; reflexivity].
Defined.

Lemma X14_registry_grows_witness :
  let s1 := state_or (getGlobalVariableAddress 2 5%positive with_tls) with_tls in
  GlobalOffsets with_tls !! 4%positive = Some 0 /\
  getGlobalVariableAddress 2 5%positive with_tls = Ok (0xDA000008, s1) /\
  GlobalOffsets s1 !! 4%positive = Some 0 /\
  getGlobalAddress 4%positive s1 = getGlobalAddress 4%positive with_tls /\
  GlobalOffsets s1 !! 2%positive = Some 16.
Proof.
  intros s1.
  assert (Hold : GlobalOffsets with_tls !! 4%positive = Some 0) by (vm_compute; reflexivity).
  assert (Hcall : getGlobalVariableAddress 2 5%positive with_tls = Ok (0xDA000008, s1))
    by (vm_compute; reflexivity).
  destruct (X14_registry_only_grows 2 5%positive with_tls s1 _ Hcall) as (Hkeep & _).
  destruct (Hkeep 4%positive 0 Hold) as [Hsame Haddr].
  split; [exact Hold|]. split; [exact Hcall|]. split; [exact Hsame|].
  split; [exact Haddr|]. vm_compute. reflexivity.
Defined.

Lemma X15_external_global_witness :
  (GlobalOffsets (unit_fresh []) !! 1%positive = None /\
   isDefined external_counter = false) /\
  getGlobalVariableAddress 3 1%positive (unit_fresh []) =
    Fatal (ReportFatalError "Could not resolve external global address: ") /\
  resolveRelocation 3 (reloc (isIndirectSymbol 1%positive)) (unit_fresh []) =
    Fatal (ReportFatalError "Could not resolve external global address: ").
Proof.
  destruct (X15_external_global_refused 2 1%positive external_counter (unit_fresh [])
              eq_refl eq_refl eq_refl) as (Hcall & _ & Hreloc).
  split; [split; reflexivity|]. split; [exact Hcall|].
  apply Hreloc; [reflexivity|right; reflexivity].
Defined.

Lemma X16_fresh_slot_witness :
  exists offset s1,
    getGlobalVariableAddress 1 4%positive with_counter = Ok (Z.lor offset 0xDA000000, s1) /\
    offset mod PreferredAlignment tls_slot = 0 /\
    Z.of_nat (length (Globals with_counter)) <= offset <
      Z.of_nat (length (Globals with_counter)) + PreferredAlignment tls_slot /\
    GlobalOffsets s1 = <[4%positive := offset]> (GlobalOffsets with_counter) /\
    Z.of_nat (length (Globals s1)) = offset + TypeAllocSize tls_slot.
Proof.
  assert (H1 : GlobalOffsets with_counter !! 4%positive = None) by (vm_compute; reflexivity).
  assert (H2 : TheModule (engine with_counter) 4%positive = GV_Variable tls_slot)
    by (vm_compute; reflexivity).
  assert (H3 : isDefined tls_slot = true) by reflexivity.
  assert (H4 : isThreadLocal tls_slot = true \/ stores_only (getInitializer tls_slot) = true)
    by (left; reflexivity).
  assert (H5 : 0 < PreferredAlignment tls_slot) by reflexivity.
  assert (H6 : 0 <= TypeAllocSize tls_slot) by (vm_compute; congruence).
  assert (H7 : Z.of_nat (length (Globals with_counter)) + PreferredAlignment tls_slot
               <= 2 ^ 64) by (vm_compute; congruence).
  destruct (X16_fresh_global_slot 0 4%positive tls_slot with_counter H1 H2 H3 H4 H5 H6 H7)
    as (offset & s1 & Hcall & Hmod & Hrange & Hreg & Hlen & _).
  exists offset, s1. repeat split; try assumption; apply Hrange.
Defined.

Lemma X17_jump_table_fill_witness :
  emitJumpTableInfo sample_tables tables_emitted =
    match block_addresses (MBBLocations tables_emitted)
            (concat (getJumpTables sample_tables)) with
    | Some addrs =>
      Ok (set_Effects
            (Effects tables_emitted ++
             slot_stores (JumpTableBase tables_emitted)
               (PointerSizeInBits (TM tables_emitted) / 8) addrs) tables_emitted)
    | None => Fatal (AssertionFailed "MBB not emitted!")
    end /\
  block_addresses (MBBLocations tables_emitted) (concat (getJumpTables sample_tables)) =
    Some [0x10030; 0x10031; 0x10032; 0x10031; 0x10033].
Proof.
  split; [|vm_compute; reflexivity].
  apply X17_jump_table_fill_block_addresses.
  - vm_compute. reflexivity.
  - discriminate.
  - vm_compute. congruence.
  - reflexivity.
  - vm_compute. reflexivity.
Defined.

Lemma X18_jump_table_address_witness :
  let s' := emitter_or (emitJumpTableInfo sample_tables tables_emitted) tables_emitted in
  let MR := reloc (isJumpTableIndex 1) in
  emitJumpTableInfo sample_tables tables_emitted = Ok s' /\
  exists p a,
    getJumpTableEntryAddress 1 tables_emitted = Ok p /\
    p = JumpTableBase tables_emitted +
        Z.of_nat (length (concat (take 1 (getJumpTables sample_tables)))) *
          getEntrySize sample_tables /\
    MBBLocations tables_emitted !! 3%nat = Some a /\
    In (Store (p + getEntrySize sample_tables * Z.of_nat 1) a) (Effects s') /\
    resolveRelocation 0 MR s' = Ok (setResultPointer MR p, s').
Proof.
  intros s' MR.
  assert (Hfill : emitJumpTableInfo sample_tables tables_emitted = Ok s')
    by (vm_compute; reflexivity).
  assert (Hcustom : hasCustomJumpTables (TM tables_emitted) = false)
    by (vm_compute; reflexivity).
  assert (Hsize : getEntrySize sample_tables = PointerSizeInBits (TM tables_emitted) / 8)
    by (vm_compute; reflexivity).
  assert (Hpos : 0 < getEntrySize sample_tables) by (vm_compute; reflexivity).
  assert (HJT : JumpTable tables_emitted = Some sample_tables) by (vm_compute; reflexivity).
  assert (Hbase : 0 < JumpTableBase tables_emitted) by (vm_compute; reflexivity).
  assert (Hprod : Z.of_nat (length (concat (take 1 (getJumpTables sample_tables)))) *
                    getEntrySize sample_tables < 2 ^ 32) by (vm_compute; reflexivity).
  assert (Hptr : JumpTableBase tables_emitted +
                   Z.of_nat (length (concat (take 1 (getJumpTables sample_tables)))) *
                     getEntrySize sample_tables
                 < 2 ^ PointerSizeInBits (TM tables_emitted)) by (vm_compute; reflexivity).
  assert (HI : getJumpTables sample_tables !! 1%nat = Some [1; 3]%nat)
    by (vm_compute; reflexivity).
  assert (Hj : [1; 3]%nat !! 1%nat = Some 3%nat) by (vm_compute; reflexivity).
  assert (HJT' : JumpTable s' = Some sample_tables) by (vm_compute; reflexivity).
  assert (Hbase' : JumpTableBase s' = JumpTableBase tables_emitted)
    by (vm_compute; reflexivity).
  assert (HTM' : TM s' = TM tables_emitted) by (vm_compute; reflexivity).
  split; [exact Hfill|].
  destruct (X18_jump_table_entry_address_matches_fill sample_tables tables_emitted s'
              1 1 [1; 3]%nat 3 Hcustom eq_refl Hsize Hpos HJT Hbase Hprod Hptr Hfill HI Hj)
    as (p & a & Haddr & Hp & Ha & Hin & Hresolve).
  exists p, a.
  split; [exact Haddr|]. split; [exact Hp|]. split; [exact Ha|]. split; [exact Hin|].
  exact (Hresolve 0%nat MR s' eq_refl eq_refl HJT' Hbase' HTM').
Defined.

Lemma X19_pass_witness :
  let s' := emitter_or (resolveRelocations 1 unit_using_counter) unit_using_counter in
  resolveRelocations 1 unit_using_counter = Ok s' /\
  (map getTarget <$> (Relocations <$> EmittedFunctions s' !! 10%positive)) =
    Some [isResult 0xDA000000; isResult 0; isResult 0x10000] /\
  exists results,
    Forall2 (fun fc MRs =>
               Forall2 resolved_from (Relocations fc.2) MRs /\
               EmittedFunctions s' !! fc.1 = Some (set_Relocations MRs fc.2))
            (map_to_list (EmittedFunctions unit_using_counter)) results /\
    Effects s' =
      Effects unit_using_counter ++
      concat (zip_with (fun fc MRs => function_trace fc.2 MRs)
                (map_to_list (EmittedFunctions unit_using_counter)) results).
Proof.
  intros s'.
  assert (Hpass : resolveRelocations 1 unit_using_counter = Ok s')
    by (vm_compute; reflexivity).
  split; [exact Hpass|]. split; [vm_compute; reflexivity|].
  exact (proj2 (X19_pass_resolves_every_function_once 1 unit_using_counter s' Hpass)).
Defined.

Lemma X20_target_resolved_witness :
  all_target_resolved unit_target_resolved /\
  resolveRelocations 0 unit_target_resolved =
    Ok (set_Effects
          (Effects unit_target_resolved ++
           concat (map (fun fc => function_trace fc.2 (Relocations fc.2))
                     (map_to_list (EmittedFunctions unit_target_resolved))))
          unit_target_resolved).
Proof.
  assert (Hall : all_target_resolved unit_target_resolved)
    by (apply all_target_resolved_check; vm_compute; reflexivity).
  split; [exact Hall|].
  exact (X20_pass_with_target_resolved_relocations 0 unit_target_resolved Hall).
Defined.

Lemma X21_overflow_sticky_witness :
  let F := sample_function 10%positive no_pool in
  let code := default EmittedCode_default (EmittedFunctions filled_buffer !! 10%positive) in
  (CurBufferPtr filled_buffer = BufferEnd filled_buffer /\
   CurrentCode filled_buffer = Some 10%positive /\
   EmittedFunctions filled_buffer !! 10%positive = Some code) /\
  exists s' s'',
    emitInstructions body_padded filled_buffer = Ok s' /\
    CurBufferPtr s' = BufferEnd filled_buffer /\ BufferEnd s' = BufferEnd filled_buffer /\
    Effects s' = Effects filled_buffer /\
    (forall MBB, In (StartMBB MBB) body_padded ->
                 MBBLocations s' !! MBB = Some (BufferEnd filled_buffer)) /\
    finishFunction F s' = Ok (true, s'').
Proof.
  intros F code.
  assert (Hfull : CurBufferPtr filled_buffer = BufferEnd filled_buffer)
    by (vm_compute; reflexivity).
  assert (Hcur : CurrentCode filled_buffer = Some 10%positive) by (vm_compute; reflexivity).
  assert (Hfind : EmittedFunctions filled_buffer !! 10%positive = Some code)
    by (vm_compute; reflexivity).
  split; [exact (conj Hfull (conj Hcur Hfind))|].
  exact (X21_overflow_is_sticky F body_padded filled_buffer 10%positive code Hfull Hcur Hfind).
Defined.

Lemma X22_allocateSpace_witness :
  BufferBegin (fresh [0x10000]) = 0 /\
  fst (allocateSpace 16 4 (fresh [0x10000])) = 0x10000 /\
  fst (allocateSpace 8 4 (snd (allocateSpace 16 4 (fresh [0x10000])))) = 0x10000.
Proof.
  assert (Hnull : BufferBegin (fresh [0x10000]) = 0) by (vm_compute; reflexivity).
  destruct (X22_allocateSpace_without_buffer 16 4 (fresh [0x10000]) Hnull)
    as (Hfst & _ & _ & _ & _ & Hnext).
  split; [exact Hnull|]. split; [exact Hfst|].
  refine (proj1 (Hnext 8 4 _ _ _ _ _)); vm_compute; try split; congruence.
Defined.

Lemma X23_relative_entries_witness :
  let s' := emitter_or (emitJumpTableInfo relative_tables tables_emitted) tables_emitted in
  emitJumpTableInfo relative_tables tables_emitted = Ok s' /\
  In (Store 0x10010 0x27) (Effects s').
Proof.
  intros s'.
  assert (Hcustom : hasCustomJumpTables (TM tables_emitted) = false)
    by (vm_compute; reflexivity).
  assert (Hbase : JumpTableBase tables_emitted <> 0) by (vm_compute; congruence).
  assert (Hfill : emitJumpTableInfo relative_tables tables_emitted = Ok s')
    by (vm_compute; reflexivity).
  assert (HI : getJumpTables relative_tables !! 1%nat = Some [1; 3]%nat)
    by (vm_compute; reflexivity).
  assert (Hj : [1; 3]%nat !! 1%nat = Some 3%nat) by (vm_compute; reflexivity).
  split; [exact Hfill|].
  destruct (X23_relative_jump_table_entries relative_tables tables_emitted s'
              1 1 [1; 3]%nat 3 Hcustom (or_intror (or_intror eq_refl)) Hbase Hfill HI Hj)
    as (_ & _ & a & Ha & _ & Hin).
  assert (Hloc : MBBLocations tables_emitted !! 3%nat = Some 0x10033)
    by (vm_compute; reflexivity).
  assert (Haeq : a = 0x10033)
    by exact (f_equal (default 0) (eq_trans (eq_sym Ha) Hloc)).
  rewrite Haeq in Hin.
  assert (Hstore : Store
            (JumpTableBase tables_emitted +
             4 * Z.of_nat (length (concat (take 1 (getJumpTables relative_tables)))) +
             4 * Z.of_nat 1)
            (getPICJumpTableEntry (TM tables_emitted) 0x10033
               (JumpTableBase tables_emitted +
                4 * Z.of_nat (length (concat (take 1 (getJumpTables relative_tables))))))
          = Store 0x10010 0x27) by (vm_compute; reflexivity).
  rewrite <- Hstore. exact Hin.
Defined.
